(** * The rollup publisher of falafel ([falafel/src/rollup_publisher.ts])

    A shallow embedding of class [RollupPublisher] and the properties of its
    [publishRollup] method.

    The class is asynchronous code over three collaborators (the blockchain
    facade, the Ethereum RPC client and the rollup database).  It is embedded
    as a small monad that
    - threads an await counter and the object's [interrupted] field,
    - records every call on a collaborator, with its answer, in a trace,
    - ends in a returned value, a thrown error, or is still running when the
      loop budget (fuel) of the model is used up.

    The collaborators are scripted: what a call answers is a function of the
    number of awaits completed so far and of the call's arguments.  Other
    tasks can run while the publisher awaits; the only thing they can do to
    the publisher is to call [interrupt()], and [interrupts t] says whether
    that happens during await number [t].

    Awaits: the counter advances at every await of a collaborator call or of
    a sleep.  An await of one of the class's own async methods adds no step:
    [interrupt()] only ever sets the flag, so a call of it while such a
    method resumes its caller reads the same as one during the collaborator
    call before.

    Loops: every [while] loop takes one unit of fuel per round, the [for]
    loops over the status list are structural.  [Running] is the outcome of
    a run whose fuel is used up; the safety properties below hold for every
    amount of fuel, that is for every prefix of a run.

    Numbers: [bigint] values are [Z].  Of the [number]s of the class, the
    gas limit, the rollup id and the timeouts are constants of the
    publisher and are [N] or [Z]; the estimated gas is a [JsNumber], which
    [BigInt] converts or refuses; the nonce is the natural number a double
    holds, and [nonce++] is [increment], exact below 2^53 and rounded from
    there on.  [this.log] and the metrics timer do not fail; log lines are
    not part of the trace, but an argument of [this.log] that can throw
    while it is evaluated is modelled. *)

From Stdlib Require Import List ZArith NArith Bool String Arith Lia DecimalString.
Import ListNotations.

Set Implicit Arguments.

(** ** Data *)

Definition Buffer := list Byte.byte.
Definition TxHash := Buffer.
Definition EthAddress := Buffer.

(** A thrown JavaScript value, as far as the class looks at it: all it does
    with one is to evaluate [err.message.slice(0, 500)] (line 191).
    [message] is what is under [.message] when that expression can be
    evaluated.  It is [None] when it cannot (the value is [null] or
    [undefined], or has nothing with a [slice] under [.message]), and
    [reading] is then the text of the [TypeError] that evaluating it
    raises. *)
Record JsError := { message : option string; reading : string }.

Definition TypeError (m : string) : JsError := {| message := Some m; reading := "" |}.

(** The answer of an awaited call: a value or a rejection. *)
Inductive Res (A : Type) : Type :=
| Ok (a : A)
| Err (e : JsError).
Arguments Ok {A} a.
Arguments Err {A} e.

(** A JavaScript [number] that the class converts with [BigInt(.)] (lines 37
    and 39): an integer, or any other number (a fraction, [NaN], an
    infinity), for which [BigInt] raises a [RangeError], here
    [rangeError]. *)
Inductive JsNumber : Type :=
| Integer (z : Z)
| NotInteger (rangeError : JsError).

Coercion Integer : Z >-> JsNumber.

Definition integerOf (x : JsNumber) : option Z :=
  match x with
  | Integer z => Some z
  | NotInteger _ => None
  end.

Declare Scope jsnumber_scope.
Delimit Scope jsnumber_scope with jsnumber.
Bind Scope jsnumber_scope with JsNumber.
Number Notation JsNumber Integer integerOf : jsnumber_scope.

Definition BigInt (x : JsNumber) : Res Z :=
  match x with
  | Integer z => Ok z
  | NotInteger rangeError => Err rangeError
  end.

(** The nearest double of a natural number: itself below 2^53; from there on
    the multiples of the unit in the last place, the nearer one, and of two
    equally near the one with the even significand. *)
Definition roundToDouble (n : N) : N :=
  if (n <? 9007199254740992)%N then n else
  let ulp := (2 ^ (N.log2 n - 52))%N in
  let q := (n / ulp)%N in
  let r := (n mod ulp)%N in
  if (2 * r <? ulp)%N then (q * ulp)%N
  else if (ulp <? 2 * r)%N then ((q + 1) * ulp)%N
  else if N.even q then (q * ulp)%N
  else ((q + 1) * ulp)%N.

(** What [nonce++] (line 108) leaves in [nonce], a [number] that holds a
    natural number: the sum is exact up to 2^53 and rounded above. *)
Definition increment (nonce : N) : N := roundToDouble (nonce + 1).

Record SendTxOptions := {
  nonce : N;
  gasLimit : N;
  maxFeePerGas : Z;
  maxPriorityFeePerGas : Z
}.

Record RevertError := { name : string; params : list string }.

Record Receipt := { status : bool; revertError : option RevertError }.

(** [type TxStatus = { success; txHash?; tx; name }] *)
Record TxStatus := {
  success : bool;
  txHash : option TxHash;
  tx : Buffer;
  tx_name : string
}.

Record TxDao := {
  proofData : Buffer;
  offchainTxData : Buffer;
  signature : option Buffer
}.

Record RollupProofDao := { rollup_proofData : Buffer; txs : list TxDao }.

Record RollupDao := { id : N; rollupProof : RollupProofDao }.

Record RollupTxs := { rollupProofTx : Buffer; offchainDataTxs : list Buffer }.

(** ** Collaborators

    Every method takes the number of awaits completed when it is called. *)

Module Blockchain.
Record t := {
  getUserProofApprovalStatus : nat -> EthAddress -> Buffer -> Res bool;
  createRollupTxs : nat -> Buffer -> list Buffer -> list Buffer -> Res RollupTxs;
  sendTx : nat -> Buffer -> SendTxOptions -> Res TxHash;
  getTransactionReceiptSafe : nat -> option TxHash -> N -> Res (option Receipt)
}.
End Blockchain.

Module EthereumRpc.
Record t := {
  getAccounts : nat -> Res (list EthAddress);
  (* getBlockByNumber('latest'), projected on baseFeePerGas *)
  getBlockByNumber : nat -> Res Z;
  getBalance : nat -> option EthAddress -> Res Z;
  getTransactionCount : nat -> option EthAddress -> Res N
}.
End EthereumRpc.

Module RollupDb.
Record t := {
  setCallData : nat -> N -> Buffer -> Res unit;
  confirmSent : nat -> N -> option TxHash -> Res unit
}.
End RollupDb.

(** The fields the constructor stores.  [fromBuffer] is
    [JoinSplitProofData.fromBuffer], projected on [publicOwner] and [txId]. *)
Record RollupPublisher := {
  rollupDb : RollupDb.t;
  blockchain : Blockchain.t;
  ethereumRpc : EthereumRpc.t;
  this_maxFeePerGas : Z;
  this_maxPriorityFeePerGas : Z;
  this_gasLimit : N;
  fromBuffer : Buffer -> Res (EthAddress * Buffer)
}.

(** ** Trace *)

Inductive Event : Type :=
| EvPublishTimer
| EvEndTimer
| EvGetUserProofApprovalStatus (publicOwner : EthAddress) (txId : Buffer) (r : Res bool)
| EvCreateRollupTxs (proof : Buffer) (signatures offchain : list Buffer) (r : Res RollupTxs)
| EvSetCallData (rollupId : N) (data : Buffer) (r : Res unit)
| EvGetAccounts (r : Res (list EthAddress))
| EvGetBlockByNumber (r : Res Z)
| EvGetBalance (a : option EthAddress) (r : Res Z)
| EvGetTransactionCount (a : option EthAddress) (r : Res N)
(* program point: line 107, this.sendTx is called for txStatuses[i] *)
| EvSend (i : nat) (data : Buffer) (o : SendTxOptions)
| EvBlockchainSendTx (data : Buffer) (o : SendTxOptions) (r : Res TxHash)
| EvConfirmSent (rollupId : N) (h : option TxHash) (r : Res unit)
| EvGetTransactionReceiptSafe (h : option TxHash) (timeout : N) (r : Res (option Receipt))
(* program point: line 131, txStatuses[i].success = true *)
| EvSuccess (i : nat)
| EvSleep (ms : N).

(** ** The monad *)

Record Clock := { tick : nat; interrupted : bool }.

Inductive Outcome (A : Type) : Type :=
| Returned (a : A)
| Thrown (e : JsError)
| Running.
Arguments Returned {A} a.
Arguments Thrown {A} e.
Arguments Running {A}.

Record Run (A : Type) := {
  outcome : Outcome A;
  clock : Clock;
  emitted : list Event
}.

Definition M (A : Type) := Clock -> Run A.

Definition ret {A} (a : A) : M A :=
  fun c => {| outcome := Returned a; clock := c; emitted := [] |}.

Definition throw {A} (e : JsError) : M A :=
  fun c => {| outcome := Thrown e; clock := c; emitted := [] |}.

Definition running {A} : M A :=
  fun c => {| outcome := Running; clock := c; emitted := [] |}.

Definition bind {A B} (m : M A) (f : A -> M B) : M B :=
  fun c =>
    let r := m c in
    match outcome r with
    | Returned a =>
        let r' := f a (clock r) in
        {| outcome := outcome r'; clock := clock r'; emitted := emitted r ++ emitted r' |}
    | Thrown e => {| outcome := Thrown e; clock := clock r; emitted := emitted r |}
    | Running => {| outcome := Running; clock := clock r; emitted := emitted r |}
    end.

(** [try { m } catch (err) { h err }] *)
Definition try_catch {A} (m : M A) (h : JsError -> M A) : M A :=
  fun c =>
    let r := m c in
    match outcome r with
    | Thrown e =>
        let r' := h e (clock r) in
        {| outcome := outcome r'; clock := clock r'; emitted := emitted r ++ emitted r' |}
    | _ => r
    end.

Declare Scope pub_scope.
Delimit Scope pub_scope with pub.
Notation "x <- m ;; k" := (bind m (fun x => k))
  (at level 61, m at next level, right associativity) : pub_scope.
Notation "m ;; k" := (bind m (fun _ => k))
  (at level 61, right associativity) : pub_scope.
Open Scope pub_scope.

(** A program point put on the trace. *)
Definition mark (e : Event) : M unit :=
  fun c => {| outcome := Returned tt; clock := c; emitted := [e] |}.

(** [this.interrupted] *)
Definition isInterrupted : M bool :=
  fun c => {| outcome := Returned (interrupted c); clock := c; emitted := [] |}.

Section Publisher.

Variable this : RollupPublisher.
(** [interrupts t]: some other task calls [interrupt()] during await [t]. *)
Variable interrupts : nat -> bool.

(** [await] of a call on a collaborator. *)
Definition await {A} (ask : nat -> Res A) (ev : Res A -> Event) : M A :=
  fun c =>
    let r := ask (tick c) in
    {| outcome := match r with Ok a => Returned a | Err e => Thrown e end;
       clock := {| tick := S (tick c);
                   interrupted := interrupted c || interrupts (tick c) |};
       emitted := [ev r] |}.

(** [Promise.race([timer, this.interruptPromise])]: ends when the delay is
    over or [interrupt()] is called, whichever is first; never rejects. *)
Definition sleepOrInterrupted (ms : N) : M unit :=
  await (fun _ => Ok tt) (fun _ => EvSleep ms).

(** [signerAddress.toString()] of line 41, on a possibly undefined address. *)
Definition toString (a : option EthAddress) : M unit :=
  match a with
  | Some _ => ret tt
  | None => throw (TypeError "Cannot read properties of undefined (reading 'toString')")
  end.

(** Lines 29-65.  After the two polls come [BigInt(estimatedGas)] (lines 37
    and 39, the same conversion twice) and the [toString] of line 41, then
    the two tests. *)
Fixpoint awaitGasPriceBelowThresholdAndSufficientBalance
    (fuel : nat) (signerAddress : option EthAddress) (estimatedGas : JsNumber) : M unit :=
  match fuel with
  | O => running
  | S fuel' =>
      stop <- isInterrupted ;;
      if stop then ret tt else
      baseFeePerGas <- await (EthereumRpc.getBlockByNumber (ethereumRpc this)) EvGetBlockByNumber ;;
      let estimatedFeePerGas := (baseFeePerGas + this_maxPriorityFeePerGas this)%Z in
      currentBalance <- await (fun t => EthereumRpc.getBalance (ethereumRpc this) t signerAddress)
                              (EvGetBalance signerAddress) ;;
      match BigInt estimatedGas with
      | Err rangeError => throw rangeError
      | Ok gas =>
          let requiredBalance := (this_maxFeePerGas this * gas)%Z in
          toString signerAddress ;;
          if (estimatedFeePerGas >? this_maxFeePerGas this)%Z then
            sleepOrInterrupted 60000 ;;
            awaitGasPriceBelowThresholdAndSufficientBalance fuel' signerAddress estimatedGas
          else if (currentBalance <? requiredBalance)%Z then
            sleepOrInterrupted 60000 ;;
            awaitGasPriceBelowThresholdAndSufficientBalance fuel' signerAddress estimatedGas
          else ret tt
      end
  end.

(** [createTxData]: the signatures of the signed transactions whose proof
    is not yet approved on chain, in order. *)
Fixpoint collectSignatures (jsTxs : list TxDao) (signatures : list Buffer) : M (list Buffer) :=
  match jsTxs with
  | [] => ret signatures
  | t :: rest =>
      match fromBuffer this (proofData t) with
      | Err e => throw e
      | Ok (publicOwner, txId) =>
          proofApproval <- await (fun n => Blockchain.getUserProofApprovalStatus (blockchain this) n publicOwner txId)
                                 (EvGetUserProofApprovalStatus publicOwner txId) ;;
          if proofApproval then collectSignatures rest signatures
          else match signature t with
               | Some s => collectSignatures rest (signatures ++ [s])%list
               | None => collectSignatures rest signatures
               end
      end
  end.

Definition createTxData (rollup : RollupDao) : M RollupTxs :=
  let proof := rollup_proofData (rollupProof rollup) in
  let txs := txs (rollupProof rollup) in
  let offchainTxData := map offchainTxData txs in
  let jsTxs := filter (fun t => match signature t with Some _ => true | None => false end) txs in
  signatures <- collectSignatures jsTxs [] ;;
  await (fun n => Blockchain.createRollupTxs (blockchain this) n proof signatures offchainTxData)
        (EvCreateRollupTxs proof signatures offchainTxData).

(** [sendTx]: retry [blockchain.sendTx] every 60 s until it gives a hash or
    the publisher is interrupted ([undefined], here [None]). *)
Fixpoint sendTx (fuel : nat) (txData : Buffer) (options : SendTxOptions) : M (option TxHash) :=
  match fuel with
  | O => running
  | S fuel' =>
      stop <- isInterrupted ;;
      if stop then ret None else
      try_catch
        (h <- await (fun n => Blockchain.sendTx (blockchain this) n txData options)
                    (EvBlockchainSendTx txData options) ;;
         ret (Some h))
        (fun err =>
           (* this.log(err.message.slice(0, 500)) *)
           match message err with
           | None => throw (TypeError (reading err))
           | Some _ =>
               sleepOrInterrupted 60000 ;;
               sendTx fuel' txData options
           end)
  end.

Fixpoint getTransactionReceipt (fuel : nat) (txHash : option TxHash) : M (option Receipt) :=
  match fuel with
  | O => running
  | S fuel' =>
      stop <- isInterrupted ;;
      if stop then ret None else
      try_catch
        (await (fun n => Blockchain.getTransactionReceiptSafe (blockchain this) n txHash 300)
               (EvGetTransactionReceiptSafe txHash 300))
        (fun _ =>
           sleepOrInterrupted 60000 ;;
           getTransactionReceipt fuel' txHash)
  end.

Definition string_of_nat (n : nat) : string :=
  NilZero.string_of_uint (Nat.to_uint n).

(** [`broadcast data ${i + 1}/${offchainDataTxs.length}`] *)
Definition broadcastName (i len : nat) : string :=
  ("broadcast data " ++ string_of_nat (i + 1) ++ "/" ++ string_of_nat len)%string.

Fixpoint broadcastStatuses (i len : nat) (l : list Buffer) : list TxStatus :=
  match l with
  | [] => []
  | b :: rest =>
      {| success := false; txHash := None; tx := b; tx_name := broadcastName i len |}
        :: broadcastStatuses (S i) len rest
  end.

(** Lines 82-89. *)
Definition initialStatuses (rollupTxs : RollupTxs) : list TxStatus :=
  (broadcastStatuses 0 (List.length (offchainDataTxs rollupTxs)) (offchainDataTxs rollupTxs)
     ++ [ {| success := false; txHash := None; tx := rollupProofTx rollupTxs;
             tx_name := "rollup proof" |} ])%list.

Definition setTxHash (s : TxStatus) (h : option TxHash) : TxStatus :=
  {| success := success s; txHash := h; tx := tx s; tx_name := tx_name s |}.

Definition setSuccess (s : TxStatus) : TxStatus :=
  {| success := true; txHash := txHash s; tx := tx s; tx_name := tx_name s |}.

Definition sendOptions (nonce : N) : SendTxOptions :=
  {| nonce := nonce;
     gasLimit := this_gasLimit this;
     maxFeePerGas := this_maxFeePerGas this;
     maxPriorityFeePerGas := this_maxPriorityFeePerGas this |}.

(** Lines 101-113, from index [i] on: [todo] is [txStatuses.slice(i)], the
    result is what the loop leaves in those entries. *)
Fixpoint sendLoop (fuel : nat) (i : nat) (todo : list TxStatus) (nonce : N)
  : M (list TxStatus) :=
  match todo with
  | [] => ret []
  | s :: rest =>
      stop <- isInterrupted ;;
      if stop then ret todo else
      if success s then
        rest' <- sendLoop fuel (S i) rest nonce ;;
        ret (s :: rest')
      else
        mark (EvSend i (tx s) (sendOptions nonce)) ;;
        h <- sendTx fuel (tx s) (sendOptions nonce) ;;
        rest' <- sendLoop fuel (S i) rest (increment nonce) ;;
        ret (setTxHash s h :: rest')
  end.

(** How the receipt loop is left. *)
Inductive Exit : Type :=
| AllSucceeded        (* the loop ran to its end *)
| ReturnFalse         (* return false *)
| ContinueMainLoop.   (* continue mainLoop *)

Definition INCORRECT_STATE_HASH : string := "INCORRECT_STATE_HASH".

(** Lines 121-148, from index [i] on. *)
Fixpoint receiptLoop (fuel : nat) (i : nat) (todo : list TxStatus)
  : M (Exit * list TxStatus) :=
  match todo with
  | [] => ret (AllSucceeded, [])
  | s :: rest =>
      if success s then
        r <- receiptLoop fuel (S i) rest ;;
        ret (fst r, s :: snd r)
      else
        receipt <- getTransactionReceipt fuel (txHash s) ;;
        match receipt with
        | None => ret (ReturnFalse, todo)
        | Some receipt =>
            if status receipt then
              mark (EvSuccess i) ;;
              r <- receiptLoop fuel (S i) rest ;;
              ret (fst r, setSuccess s :: snd r)
            else
              match revertError receipt with
              | Some e =>
                  if String.eqb (name e) INCORRECT_STATE_HASH
                  then ret (ReturnFalse, todo)
                  else sleepOrInterrupted 60000 ;; ret (ContinueMainLoop, todo)
              | None => sleepOrInterrupted 60000 ;; ret (ContinueMainLoop, todo)
              end
        end
  end.

Definition hashUndefined (s : TxStatus) : bool :=
  match txHash s with None => true | Some _ => false end.

(** [txStatuses[txStatuses.length - 1]] *)
Definition lastStatus (txStatuses : list TxStatus) : option TxStatus :=
  nth_error txStatuses (List.length txStatuses - 1).

(** Lines 93-113 of one pass of the main loop: wait for the gate, read the
    nonce, send.  [None] is the [break] of line 95. *)
Definition sendBatch (fuel : nat) (estimatedGas : JsNumber)
    (defaultSignerAddress : option EthAddress) (txStatuses : list TxStatus)
  : M (option (list TxStatus)) :=
  awaitGasPriceBelowThresholdAndSufficientBalance fuel defaultSignerAddress estimatedGas ;;
  stop <- isInterrupted ;;
  if stop then ret None else
  nonce <- await (fun n => EthereumRpc.getTransactionCount (ethereumRpc this) n defaultSignerAddress)
                 (EvGetTransactionCount defaultSignerAddress) ;;
  txStatuses <- sendLoop fuel 0 txStatuses nonce ;;
  ret (Some txStatuses).

(** Lines 114-153 of one pass of the main loop. *)
Definition confirmBatch (fuel : nat) (rollup : RollupDao) (txStatuses : list TxStatus)
  : M (Exit * list TxStatus) :=
  if existsb hashUndefined txStatuses then ret (ReturnFalse, txStatuses) else
  match lastStatus txStatuses with
  | None => throw (TypeError "Cannot read properties of undefined (reading 'txHash')")
  | Some final =>
      await (fun n => RollupDb.confirmSent (rollupDb this) n (id rollup) (txHash final))
            (EvConfirmSent (id rollup) (txHash final)) ;;
      r <- receiptLoop fuel 0 txStatuses ;;
      match fst r with
      | AllSucceeded => mark EvEndTimer ;; ret r
      | _ => ret r
      end
  end.

(** Lines 92-156.  The result is the returned boolean with the status list
    as the call leaves it. *)
Fixpoint mainLoop (fuel : nat) (rollup : RollupDao) (estimatedGas : JsNumber)
    (defaultSignerAddress : option EthAddress) (txStatuses : list TxStatus)
  : M (bool * list TxStatus) :=
  match fuel with
  | O => running
  | S fuel' =>
      stop <- isInterrupted ;;
      if stop then ret (false, txStatuses) else
      sent <- sendBatch fuel' estimatedGas defaultSignerAddress txStatuses ;;
      match sent with
      | None => ret (false, txStatuses)
      | Some txStatuses =>
          r <- confirmBatch fuel' rollup txStatuses ;;
          match fst r with
          | ReturnFalse => ret (false, snd r)
          | ContinueMainLoop =>
              mainLoop fuel' rollup estimatedGas defaultSignerAddress (snd r)
          | AllSucceeded => ret (true, snd r)
          end
      end
  end.

(** [publishRollup], with the status list kept next to the result. *)
Definition publishRollup_statuses (fuel : nat) (rollup : RollupDao) (estimatedGas : JsNumber)
  : M (bool * list TxStatus) :=
  mark EvPublishTimer ;;
  rollupTxs <- createTxData rollup ;;
  await (fun n => RollupDb.setCallData (rollupDb this) n (id rollup) (rollupProofTx rollupTxs))
        (EvSetCallData (id rollup) (rollupProofTx rollupTxs)) ;;
  let txStatuses := initialStatuses rollupTxs in
  accounts <- await (EthereumRpc.getAccounts (ethereumRpc this)) EvGetAccounts ;;
  let defaultSignerAddress := hd_error accounts in
  mainLoop fuel rollup estimatedGas defaultSignerAddress txStatuses.

Definition publishRollup (fuel : nat) (rollup : RollupDao) (estimatedGas : JsNumber) : M bool :=
  r <- publishRollup_statuses fuel rollup estimatedGas ;;
  ret (fst r).

End Publisher.


(** [interrupt()].  It is the only assignment to [this.interrupted] in the
    class; the promise it resolves wakes the sleeps, which the schedule
    [interrupts] accounts for. *)
Definition interrupt (c : Clock) : Clock :=
  {| tick := tick c; interrupted := true |}.

(** ** Trace monitors

    A safety property of traces is given as a monitor: a state and a partial
    step function over events.  [accepts step s t] runs it over [t]. *)

Fixpoint accepts {St : Type} (step : St -> Event -> option St) (s : St) (t : list Event)
  : option St :=
  match t with
  | [] => Some s
  | e :: t' =>
      match step s e with
      | Some s' => accepts step s' t'
      | None => None
      end
  end.

(** The run [r] is accepted from [s] and ends in a monitor state, an outcome
    and a clock that satisfy [Q]. *)
Definition sat {St A : Type} (step : St -> Event -> option St) (s : St) (r : Run A)
    (Q : Outcome A -> Clock -> St -> Prop) : Prop :=
  exists s', accepts step s (emitted r) = Some s' /\ Q (outcome r) (clock r) s'.

(** The monitor keeps [I] over the events that satisfy [P]. *)
Definition preserves {St : Type} (step : St -> Event -> option St)
    (I : St -> Prop) (P : Event -> bool) : Prop :=
  forall s e, I s -> P e = true -> exists s', step s e = Some s' /\ I s'.

(** What each helper can emit. *)
Definition gateEvent (e : Event) : bool :=
  match e with
  | EvGetBlockByNumber _ | EvGetBalance _ _ | EvSleep _ => true
  | _ => false
  end.

Definition attemptEvent (e : Event) : bool :=
  match e with
  | EvBlockchainSendTx _ _ _ | EvSleep _ => true
  | _ => false
  end.

Definition receiptEvent (e : Event) : bool :=
  match e with
  | EvGetTransactionReceiptSafe _ _ _ | EvSleep _ => true
  | _ => false
  end.

Definition createEvent (e : Event) : bool :=
  match e with
  | EvGetUserProofApprovalStatus _ _ _ | EvCreateRollupTxs _ _ _ _ => true
  | _ => false
  end.

(** Events before the main loop is entered. *)
Definition preludeEvent (e : Event) : bool :=
  match e with
  | EvPublishTimer | EvSetCallData _ _ _ | EvGetAccounts _ => true
  | _ => createEvent e
  end.

(** What the receipt phase (lines 114-153) can emit. *)
Definition confirmEvent (e : Event) : bool :=
  match e with
  | EvSuccess _ | EvConfirmSent _ _ _ | EvEndTimer => true
  | _ => receiptEvent e
  end.

(** *** The send discipline

    [expect] is the nonce the next send must carry (none before the first
    [getTransactionCount], and after a send what [nonce++] left), [latest]
    the index of the entry sent last in the current pass of the main loop.  A pass starts at the answer of
    [getTransactionCount].  A send of entry [i] must carry the payload of
    entry [i] of the status list, whose payloads are [payloads]. *)
Record Discipline := { expect : option N; latest : option nat }.

Definition below (l : option nat) (i : nat) : bool :=
  match l with
  | None => true
  | Some j => j <? i
  end.

Definition disciplineStep (payloads : list Buffer) (s : Discipline) (e : Event)
  : option Discipline :=
  match e with
  | EvGetTransactionCount _ (Ok n) => Some {| expect := Some n; latest := None |}
  | EvSend i data o =>
      match expect s, nth_error payloads i with
      | Some n, Some d =>
          if (n =? nonce o)%N && below (latest s) i
          then if list_eq_dec Byte.byte_eq_dec d data
               then Some {| expect := Some (increment (nonce o)); latest := Some i |}
               else None
          else None
      | _, _ => None
      end
  | _ => Some s
  end.

Definition isCount (e : Event) : bool :=
  match e with
  | EvGetTransactionCount _ _ => true
  | _ => false
  end.

(** The nonces of the sends, pass by pass: the first send after
    [getTransactionCount] answered [n] carries [n], each further send of the
    pass carries the nonce of the one before plus one. *)
Fixpoint contiguousNonces (expected : option N) (t : list Event) : Prop :=
  match t with
  | [] => True
  | EvGetTransactionCount _ (Ok n) :: t' => contiguousNonces (Some n) t'
  | EvSend _ _ o :: t' =>
      expected = Some (nonce o) /\ contiguousNonces (Some (nonce o + 1)%N) t'
  | _ :: t' => contiguousNonces expected t'
  end.

(** What the send loop is to send, from index [i] and nonce [nonce] on: the
    entries that are not yet successful, each with the next nonce. *)
Fixpoint plannedSends (this : RollupPublisher) (i : nat) (todo : list TxStatus) (nonce : N)
  : list Event :=
  match todo with
  | [] => []
  | s :: rest =>
      if success s then plannedSends this (S i) rest nonce
      else EvSend i (tx s) (sendOptions this nonce)
             :: plannedSends this (S i) rest (nonce + 1)%N
  end.

Definition isSend (e : Event) : bool :=
  match e with
  | EvSend _ _ _ => true
  | _ => false
  end.

(** The nonce of a send is below 2^53, where [nonce++] is still exact. *)
Definition nonceInRange (e : Event) : bool :=
  match e with
  | EvSend _ _ o => (nonce o <? 9007199254740992)%N
  | _ => true
  end.

(** *** Confirmed entries

    The state is the list of the indices marked successful so far; a send of
    one of them is refused. *)
Definition confirmedStep (confirmed : list nat) (e : Event) : option (list nat) :=
  match e with
  | EvSuccess i => Some (i :: confirmed)
  | EvSend i _ _ => if existsb (Nat.eqb i) confirmed then None else Some confirmed
  | _ => Some confirmed
  end.

(** All the confirmed indices at or after [i] are successful in [todo], the
    status list from index [i] on. *)
Definition covered (i : nat) (todo : list TxStatus) (confirmed : list nat) : Prop :=
  forall j, In j confirmed ->
    j < i \/ exists s, nth_error todo (j - i) = Some s /\ success s = true.

(** *** Fatal receipts

    A receipt fetch that answers with no receipt, or with a failed
    transaction that reverted with [INCORRECT_STATE_HASH]. *)
Definition stateHashChanged (r : Receipt) : bool :=
  negb (status r) &&
  match revertError r with
  | Some e => String.eqb (name e) INCORRECT_STATE_HASH
  | None => false
  end.

Definition fatalReceipt (e : Event) : bool :=
  match e with
  | EvGetTransactionReceiptSafe _ _ (Ok None) => true
  | EvGetTransactionReceiptSafe _ _ (Ok (Some r)) => stateHashChanged r
  | _ => false
  end.

(** The state says whether a fatal receipt has been seen; no event is
    accepted after one. *)
Definition fatalStep (dead : bool) (e : Event) : option bool :=
  if dead then None else Some (fatalReceipt e).

(** ** Example collaborators

    A healthy chain and database, with the answers that the examples vary
    left open: the nonce [getTransactionCount] reports, the receipts, and the
    accounts.  [sendTx] answers with a hash made of the nonce. *)

Definition buf (n : N) : Buffer :=
  match Byte.of_N n with
  | Some x => [x]
  | None => []
  end.

Definition okReceipt : Receipt := {| status := true; revertError := None |}.

Definition revertedReceipt (reason : string) : Receipt :=
  {| status := false; revertError := Some {| name := reason; params := [] |} |}.

Definition networkError : JsError :=
  {| message := Some "network error"%string; reading := ""%string |}.

Definition demoPublisher (counts : nat -> N)
    (receipts : nat -> option TxHash -> Res (option Receipt))
    (accounts : Res (list EthAddress)) : RollupPublisher :=
  {| rollupDb :=
       {| RollupDb.setCallData := fun _ _ _ => Ok tt;
          RollupDb.confirmSent := fun _ _ _ => Ok tt |};
     blockchain :=
       {| Blockchain.getUserProofApprovalStatus := fun _ _ _ => Ok false;
          Blockchain.createRollupTxs := fun _ proof _ offchain =>
            Ok {| rollupProofTx := proof; offchainDataTxs := offchain |};
          Blockchain.sendTx := fun _ _ o => Ok (buf (nonce o));
          Blockchain.getTransactionReceiptSafe := fun t h _ => receipts t h |};
     ethereumRpc :=
       {| EthereumRpc.getAccounts := fun _ => accounts;
          EthereumRpc.getBlockByNumber := fun _ => Ok 48%Z;
          EthereumRpc.getBalance := fun _ _ => Ok 5000%Z;
          EthereumRpc.getTransactionCount := fun t _ => Ok (counts t) |};
     this_maxFeePerGas := 50;
     this_maxPriorityFeePerGas := 2;
     this_gasLimit := 1000;
     fromBuffer := fun b => Ok (b, b) |}.

(** Every transaction is mined at once; the signer's nonce is 7. *)
Definition demo : RollupPublisher :=
  demoPublisher (fun _ => 7%N) (fun _ _ => Ok (Some okReceipt)) (Ok [buf 1]).

(** Two transactions and a proof: a batch of two broadcasts and the proof. *)
Definition demoTx (n : N) : TxDao :=
  {| proofData := buf n; offchainTxData := buf (n + 100); signature := None |}.

Definition demoRollup : RollupDao :=
  {| id := 3;
     rollupProof := {| rollup_proofData := buf 9; txs := [demoTx 1; demoTx 2] |} |}.

Definition demoBatch : RollupTxs :=
  {| rollupProofTx := buf 9; offchainDataTxs := [buf 101; buf 102] |}.

(** The signer's nonce is 2^53 - 1, the largest number below which every
    [nonce++] is exact. *)
Definition hugeNoncePublisher : RollupPublisher :=
  demoPublisher (fun _ => 9007199254740991%N) (fun _ _ => Ok (Some okReceipt)) (Ok [buf 1]).

Definition noInterrupts : nat -> bool := fun _ => false.

Definition start : Clock := {| tick := 0; interrupted := false |}.

Definition isSuccess (e : Event) : bool :=
  match e with
  | EvSuccess _ => true
  | _ => false
  end.

(** What one send phase (lines 93-113) can emit. *)
Definition batchEvent (e : Event) : bool :=
  gateEvent e || isCount e || isSend e || attemptEvent e.

#[local] Unset Implicit Arguments.

(** The collaborator calls that [publishRollup] makes outside a [try] do not
    reject, there is an account to sign with, and what [blockchain.sendTx]
    throws has a message. *)
Record CollaboratorsDoNotThrow (this : RollupPublisher) : Prop := {
  fromBuffer_ok : forall b e, fromBuffer this b <> Err e;
  getUserProofApprovalStatus_ok : forall t a b e,
    Blockchain.getUserProofApprovalStatus (blockchain this) t a b <> Err e;
  createRollupTxs_ok : forall t p s o e,
    Blockchain.createRollupTxs (blockchain this) t p s o <> Err e;
  setCallData_ok : forall t i d e,
    RollupDb.setCallData (rollupDb this) t i d <> Err e;
  getAccounts_ok : forall t,
    exists a rest, EthereumRpc.getAccounts (ethereumRpc this) t = Ok (a :: rest);
  getBlockByNumber_ok : forall t e,
    EthereumRpc.getBlockByNumber (ethereumRpc this) t <> Err e;
  getBalance_ok : forall t a e,
    EthereumRpc.getBalance (ethereumRpc this) t a <> Err e;
  getTransactionCount_ok : forall t a e,
    EthereumRpc.getTransactionCount (ethereumRpc this) t a <> Err e;
  confirmSent_ok : forall t i h e,
    RollupDb.confirmSent (rollupDb this) t i h <> Err e;
  sendTx_message : forall t d o e,
    Blockchain.sendTx (blockchain this) t d o = Err e -> message e <> None
}.

#[local] Set Implicit Arguments.

Definition doesNotThrow {A} (r : Run A) : Prop := forall e, outcome r <> Thrown e.

(** [h] is the hash that [sendTx] gave for nonce [n]. *)
Definition isHash (n : N) (h : option TxHash) : bool :=
  match h, buf n with
  | Some [x], [y] => Byte.eqb x y
  | _, _ => false
  end.

(** The rollup proof (sent with nonce 9) is mined but reverts with another
    error; by the next pass the signer's nonce is 10. *)
Definition retryPublisher : RollupPublisher :=
  demoPublisher (fun t => if t <? 10 then 7%N else 10%N)
    (fun _ h => if isHash 9 h then Ok (Some (revertedReceipt "OTHER_ERROR"))
                else Ok (Some okReceipt))
    (Ok [buf 1]).

(** The rollup proof reverts with [INCORRECT_STATE_HASH]. *)
Definition staleStatePublisher : RollupPublisher :=
  demoPublisher (fun _ => 7%N)
    (fun _ h => if isHash 9 h then Ok (Some (revertedReceipt "INCORRECT_STATE_HASH"))
                else Ok (Some okReceipt))
    (Ok [buf 1]).

(** The receipt of the second broadcast is not there within the budget. *)
Definition timeoutPublisher : RollupPublisher :=
  demoPublisher (fun _ => 7%N)
    (fun _ h => if isHash 8 h then Ok None else Ok (Some okReceipt))
    (Ok [buf 1]).

(** The first receipt fetch (await number 10) raises, the later ones answer. *)
Definition flakyPublisher : RollupPublisher :=
  demoPublisher (fun _ => 7%N)
    (fun t _ => if t <? 11 then Err networkError else Ok (Some okReceipt))
    (Ok [buf 1]).

(** Every receipt fetch raises. *)
Definition unreachablePublisher : RollupPublisher :=
  demoPublisher (fun _ => 7%N) (fun _ _ => Err networkError) (Ok [buf 1]).

(** [getAccounts] raises. *)
Definition noAccountsPublisher : RollupPublisher :=
  demoPublisher (fun _ => 7%N) (fun _ _ => Ok (Some okReceipt)) (Err networkError).

Definition isConfirmSent (e : Event) : bool :=
  match e with
  | EvConfirmSent _ _ _ => true
  | _ => false
  end.

(** The run ends interrupted, has not come to an end by running out of
    fuel, and has emitted only events of before the main loop. *)
Definition stoppedEarly {A} (r : Run A) : Prop :=
  interrupted (clock r) = true /\
  outcome r <> Running /\
  forallb preludeEvent (emitted r) = true.


(** The public methods of the class, as calls on one publisher object, and
    what a call that has come to its end leaves in the object's state.  The
    class has no other method: nothing but [interrupt] assigns
    [this.interrupted], and nothing sets it back to [false]. *)
Inductive Call : Type :=
| CallPublishRollup (fuel : nat) (rollup : RollupDao) (estimatedGas : JsNumber)
| CallInterrupt.

Definition perform (this : RollupPublisher) (interrupts : nat -> bool)
    (c : Clock) (call : Call) : Clock :=
  match call with
  | CallPublishRollup fuel rollup estimatedGas =>
      clock (publishRollup this interrupts (S fuel) rollup estimatedGas c)
  | CallInterrupt => interrupt c
  end.

(** *** Attempts

    The state is the payload and the options of the latest call of
    [this.sendTx]; a call of [blockchain.sendTx] must carry them. *)
Definition SendTxOptions_eq_dec (o o' : SendTxOptions) : {o = o'} + {o <> o'}.
Proof. decide equality; (apply N.eq_dec || apply Z.eq_dec). Defined.

Definition Buffer_eq_dec : forall b b' : Buffer, {b = b'} + {b <> b'} :=
  list_eq_dec Byte.byte_eq_dec.

Definition attemptStep (cur : option (Buffer * SendTxOptions)) (e : Event)
  : option (option (Buffer * SendTxOptions)) :=
  match e with
  | EvSend _ data o => Some (Some (data, o))
  | EvBlockchainSendTx data o _ =>
      match cur with
      | Some (data', o') =>
          if Buffer_eq_dec data data'
          then if SendTxOptions_eq_dec o o' then Some cur else None
          else None
      | None => None
      end
  | _ => Some cur
  end.

(** Every call of [blockchain.sendTx] carries the payload and the options
    (so the nonce) of the call of [this.sendTx] that makes it. *)
Fixpoint attemptsCarryTheSend (cur : option (Buffer * SendTxOptions)) (t : list Event) : Prop :=
  match t with
  | [] => True
  | EvSend _ data o :: t' => attemptsCarryTheSend (Some (data, o)) t'
  | EvBlockchainSendTx data o _ :: t' =>
      cur = Some (data, o) /\ attemptsCarryTheSend cur t'
  | _ :: t' => attemptsCarryTheSend cur t'
  end.

Definition isAttempt (e : Event) : bool :=
  match e with
  | EvBlockchainSendTx _ _ _ => true
  | _ => false
  end.

(** *** The order of a pass

    The state says whether [confirmSent] has been called in the current
    pass of the main loop.  A pass starts at [getTransactionCount]; its
    sends come before [confirmSent]; [confirmSent] is called once, for the
    rollup [rollupId] and with a hash; receipts are fetched, and entries
    marked successful, only after it. *)
Definition passStep (rollupId : N) (confirmed : bool) (e : Event) : option bool :=
  match e with
  | EvGetTransactionCount _ _ => Some false
  | EvSend _ _ _ => if confirmed then None else Some false
  | EvConfirmSent r h _ =>
      if confirmed then None
      else match h with
           | Some _ => if (r =? rollupId)%N then Some true else None
           | None => None
           end
  | EvGetTransactionReceiptSafe _ _ _ | EvSuccess _ => if confirmed then Some true else None
  | _ => Some confirmed
  end.

(** ** Further notions

    Notions for the helper methods and for properties of whole calls. *)

(** *** Retries *)

(** The events of failed calls of [blockchain.sendTx], each with the sleep
    that follows it. *)
Definition failedAttempts (data : Buffer) (o : SendTxOptions) (errs : list JsError)
  : list Event :=
  flat_map (fun e => [EvBlockchainSendTx data o (Err e); EvSleep 60000]) errs.

(** The events of failed receipt fetches, each with the sleep that follows
    it. *)
Definition failedFetches (h : option TxHash) (errs : list JsError) : list Event :=
  flat_map (fun e => [EvGetTransactionReceiptSafe h 300 (Err e); EvSleep 60000]) errs.

(** *** The batch that [createTxData] asks for *)

Definition isSigned (t : TxDao) : bool :=
  match signature t with
  | Some _ => true
  | None => false
  end.

(** The signatures a batch needs, when [decode] reads the public owner and
    the transaction id off a proof and [approved] is the approval on chain:
    those of the signed transactions whose proof is not approved. *)
Definition neededSignatures (decode : Buffer -> EthAddress * Buffer)
    (approved : EthAddress -> Buffer -> bool) (txs : list TxDao) : list Buffer :=
  flat_map
    (fun t =>
       match signature t with
       | Some s =>
           if approved (fst (decode (proofData t))) (snd (decode (proofData t)))
           then [] else [s]
       | None => []
       end)
    txs.

Definition approvalLookups (decode : Buffer -> EthAddress * Buffer)
    (approved : EthAddress -> Buffer -> bool) (txs : list TxDao) : list Event :=
  map
    (fun t =>
       EvGetUserProofApprovalStatus (fst (decode (proofData t))) (snd (decode (proofData t)))
         (Ok (approved (fst (decode (proofData t))) (snd (decode (proofData t))))))
    (filter isSigned txs).

Definition isApprovalLookup (e : Event) : bool :=
  match e with
  | EvGetUserProofApprovalStatus _ _ _ => true
  | _ => false
  end.

(** What the receipt loop (lines 121-148) and the send loop (lines 101-113)
    can emit. *)
Definition fetchEvent (e : Event) : bool := receiptEvent e || isSuccess e.

Definition sendEvent (e : Event) : bool := isSend e || attemptEvent e.

(** *** Interrupts
    The state is the publisher's clock, rebuilt from the trace. *)
Definition isAwait (e : Event) : bool :=
  match e with
  | EvPublishTimer | EvEndTimer | EvSend _ _ _ | EvSuccess _ => false
  | _ => true
  end.

Definition startsWork (e : Event) : bool :=
  match e with
  | EvGetBlockByNumber _ | EvGetTransactionCount _ _ | EvSend _ _ _
  | EvBlockchainSendTx _ _ _ | EvGetTransactionReceiptSafe _ _ _ => true
  | _ => false
  end.

Definition advance (interrupts : nat -> bool) (c : Clock) (e : Event) : Clock :=
  if isAwait e
  then {| tick := S (tick c); interrupted := interrupted c || interrupts (tick c) |}
  else c.

Definition haltStep (interrupts : nat -> bool) (c : Clock) (e : Event) : option Clock :=
  if interrupted c && startsWork e then None else Some (advance interrupts c e).

(** The monitor's state is the clock of the run. *)
Definition mirrors {A : Type} (o : Outcome A) (c s : Clock) : Prop := s = c.

(** *** More example collaborators *)

(** A transaction that carries a signature. *)
Definition signedTx (n : N) : TxDao :=
  {| proofData := buf n; offchainTxData := buf (n + 100); signature := Some (buf (n + 50)) |}.

(** One unsigned and two signed transactions. *)
Definition signedRollup : RollupDao :=
  {| id := 4;
     rollupProof := {| rollup_proofData := buf 9; txs := [demoTx 1; signedTx 2; signedTx 3] |} |}.

(** The proof [buf 3] is approved on chain already. *)
Definition approvedOnChain (publicOwner : EthAddress) (txId : Buffer) : bool :=
  if Buffer_eq_dec txId (buf 3) then true else false.

Definition approvingPublisher : RollupPublisher :=
  {| rollupDb := rollupDb demo;
     blockchain :=
       {| Blockchain.getUserProofApprovalStatus := fun _ a b => Ok (approvedOnChain a b);
          Blockchain.createRollupTxs := Blockchain.createRollupTxs (blockchain demo);
          Blockchain.sendTx := Blockchain.sendTx (blockchain demo);
          Blockchain.getTransactionReceiptSafe :=
            Blockchain.getTransactionReceiptSafe (blockchain demo) |};
     ethereumRpc := ethereumRpc demo;
     this_maxFeePerGas := 50;
     this_maxPriorityFeePerGas := 2;
     this_gasLimit := 1000;
     fromBuffer := fun b => Ok (b, b) |}.

(** The proof data [buf 3] does not decode. *)
Definition undecodablePublisher : RollupPublisher :=
  {| rollupDb := rollupDb demo;
     blockchain := blockchain demo;
     ethereumRpc := ethereumRpc demo;
     this_maxFeePerGas := 50;
     this_maxPriorityFeePerGas := 2;
     this_gasLimit := 1000;
     fromBuffer := fun b =>
       if Buffer_eq_dec b (buf 3) then Err (TypeError "not a join split proof")
       else Ok (b, b) |}.

(** [interrupt()] is called during await number [n]. *)
Definition interruptAt (n : nat) : nat -> bool := fun t => t =? n.

(** *** The publish timer
    [metrics.publishTimer()] starts it (line 69), [endTimer()] stops it
    (line 151). *)
Inductive Timer : Type :=
| NotStarted
| Timing
| Stopped.

(** Nothing happens before the timer is started or after it is stopped, and
    it is started and stopped once. *)
Definition timerStep (s : Timer) (e : Event) : option Timer :=
  match s, e with
  | NotStarted, EvPublishTimer => Some Timing
  | Timing, EvPublishTimer => None
  | Timing, EvEndTimer => Some Stopped
  | Timing, _ => Some Timing
  | _, _ => None
  end.

Definition isTimer (e : Event) : bool :=
  match e with
  | EvPublishTimer | EvEndTimer => true
  | _ => false
  end.

(** *** Fee polls
    One poll of the gate is [getBlockByNumber] followed by [getBalance].
    [clearsGate] is the test of lines 50 and 57 on what they answered. *)
Definition clearsGate (this : RollupPublisher) (estimatedGas fee balance : Z) : bool :=
  negb (fee + this_maxPriorityFeePerGas this >? this_maxFeePerGas this)%Z &&
  negb (balance <? this_maxFeePerGas this * estimatedGas)%Z.

Inductive Gate : Type :=
| GateIdle
| GateFee (fee : Z)
| GateClear (a : option EthAddress)
| GateWait.

Definition EthAddress_eq_dec : forall a b : option EthAddress, {a = b} + {a <> b}.
Proof. decide equality; apply Buffer_eq_dec. Defined.

(** The fee is read when no poll is under way; the balance is read right
    after the fee; a poll that clears is followed by the nonce read, for the
    address whose balance was read; one that does not, by a sleep of 60 s. *)
Definition gateStep (this : RollupPublisher) (estimatedGas : Z) (s : Gate) (e : Event)
  : option Gate :=
  match s with
  | GateIdle =>
      match e with
      | EvGetBlockByNumber (Ok fee) => Some (GateFee fee)
      | EvGetBalance _ _ | EvGetTransactionCount _ _ => None
      | _ => Some GateIdle
      end
  | GateFee fee =>
      match e with
      | EvGetBalance a (Ok balance) =>
          if clearsGate this estimatedGas fee balance then Some (GateClear a) else Some GateWait
      | EvGetBalance _ (Err _) => Some GateIdle
      | _ => None
      end
  | GateClear a =>
      match e with
      | EvGetTransactionCount a' _ => if EthAddress_eq_dec a a' then Some GateIdle else None
      | _ => None
      end
  | GateWait =>
      match e with
      | EvSleep ms => if (ms =? 60000)%N then Some GateIdle else None
      | _ => None
      end
  end.

Definition isPoll (e : Event) : bool :=
  match e with
  | EvGetBlockByNumber _ | EvGetBalance _ _ | EvGetTransactionCount _ _ => true
  | _ => false
  end.

(** *** No account
    [getAccounts] answers with an empty list. *)
Definition emptyWalletPublisher : RollupPublisher :=
  demoPublisher (fun _ => 7%N) (fun _ _ => Ok (Some okReceipt)) (Ok []).

(** What a call can emit before it has read a nonce. *)
Definition beforeNonceEvent (e : Event) : bool := preludeEvent e || gateEvent e.

(** *** A call that goes through
    The state counts the nonce reads, that is the passes of the main loop;
    a sleep is refused. *)
Definition steadyStep (passes : nat) (e : Event) : option nat :=
  match e with
  | EvSleep _ => None
  | EvGetTransactionCount _ _ => Some (S passes)
  | _ => Some passes
  end.

Definition isSleep (e : Event) : bool :=
  match e with
  | EvSleep _ => true
  | _ => false
  end.

#[local] Unset Implicit Arguments.

(** Every collaborator answers, the fee and the balance clear the gate for
    [estimatedGas], every transaction is mined and succeeds. *)
Record Healthy (this : RollupPublisher) (estimatedGas : Z) : Prop := {
  healthy_fromBuffer : forall b, exists d, fromBuffer this b = Ok d;
  healthy_getUserProofApprovalStatus : forall t a b,
    exists v, Blockchain.getUserProofApprovalStatus (blockchain this) t a b = Ok v;
  healthy_createRollupTxs : forall t p s o,
    exists rt, Blockchain.createRollupTxs (blockchain this) t p s o = Ok rt;
  healthy_setCallData : forall t i d,
    RollupDb.setCallData (rollupDb this) t i d = Ok tt;
  healthy_getAccounts : forall t,
    exists a rest, EthereumRpc.getAccounts (ethereumRpc this) t = Ok (a :: rest);
  healthy_getBlockByNumber : forall t,
    exists fee, EthereumRpc.getBlockByNumber (ethereumRpc this) t = Ok fee /\
      (fee + this_maxPriorityFeePerGas this <= this_maxFeePerGas this)%Z;
  healthy_getBalance : forall t a,
    exists balance, EthereumRpc.getBalance (ethereumRpc this) t a = Ok balance /\
      (balance >= this_maxFeePerGas this * estimatedGas)%Z;
  healthy_getTransactionCount : forall t a,
    exists n, EthereumRpc.getTransactionCount (ethereumRpc this) t a = Ok n;
  healthy_sendTx : forall t d o,
    exists h, Blockchain.sendTx (blockchain this) t d o = Ok h;
  healthy_confirmSent : forall t i h,
    RollupDb.confirmSent (rollupDb this) t i h = Ok tt;
  healthy_getTransactionReceiptSafe : forall t h n,
    exists r, Blockchain.getTransactionReceiptSafe (blockchain this) t h n = Ok (Some r) /\
      status r = true
}.

#[local] Set Implicit Arguments.




(** The base fee is above what the publisher accepts to pay. *)
Definition congestedPublisher : RollupPublisher :=
  {| rollupDb := rollupDb demo;
     blockchain := blockchain demo;
     ethereumRpc :=
       {| EthereumRpc.getAccounts := fun _ => Ok [buf 1];
          EthereumRpc.getBlockByNumber := fun _ => Ok 60%Z;
          EthereumRpc.getBalance := fun _ _ => Ok 5000%Z;
          EthereumRpc.getTransactionCount := fun _ _ => Ok 7%N |};
     this_maxFeePerGas := 50;
     this_maxPriorityFeePerGas := 2;
     this_gasLimit := 1000;
     fromBuffer := fun b => Ok (b, b) |}.

(** *** The order of confirmations
    The state is the number of entries marked successful so far; the next
    entry to be marked is the one with that index. *)
Definition orderStep (confirmed : nat) (e : Event) : option nat :=
  match e with
  | EvSuccess i => if i =? confirmed then Some (S confirmed) else None
  | _ => Some confirmed
  end.

(** The entries from index [i] on, [todo], are successful up to index [k]
    and not from there on. *)
Definition confirmedUpTo (k i : nat) (todo : list TxStatus) : Prop :=
  map success todo = map (fun j => j <? k) (seq i (List.length todo)).

(** *** Where hashes come from
    The state is the list of the hashes that [blockchain.sendTx] has
    answered so far.  [confirmSent] and a receipt fetch must carry one of
    them. *)
Definition answered (seen : list TxHash) (h : option TxHash) : bool :=
  match h with
  | Some h0 => if in_dec Buffer_eq_dec h0 seen then true else false
  | None => false
  end.

Definition hashStep (seen : list TxHash) (e : Event) : option (list TxHash) :=
  match e with
  | EvBlockchainSendTx _ _ (Ok h) => Some (h :: seen)
  | EvConfirmSent _ h _ | EvGetTransactionReceiptSafe h _ _ =>
      if answered seen h then Some seen else None
  | _ => Some seen
  end.

(** The hashes in the status list have been answered. *)
Definition known (seen : list TxHash) (txStatuses : list TxStatus) : Prop :=
  Forall (fun h => match h with Some h0 => In h0 seen | None => True end)
         (map txHash txStatuses).

Definition usesHash (e : Event) : option (option TxHash) :=
  match e with
  | EvConfirmSent _ h _ | EvGetTransactionReceiptSafe h _ _ => Some h
  | _ => None
  end.

(** *** What a call raises
    The error with which a call made outside a [try] was rejected: the calls
    of [createTxData], [setCallData], [getAccounts], the fee poll, the nonce
    read and [confirmSent]. *)
Definition uncaught (e : Event) : option JsError :=
  match e with
  | EvGetUserProofApprovalStatus _ _ (Err err) | EvCreateRollupTxs _ _ _ (Err err)
  | EvSetCallData _ _ (Err err) | EvGetAccounts (Err err)
  | EvGetBlockByNumber (Err err) | EvGetBalance _ (Err err)
  | EvGetTransactionCount _ (Err err) | EvConfirmSent _ _ (Err err) => Some err
  | _ => None
  end.

(** The [TypeError] of line 191: [blockchain.sendTx] was rejected with a
    value of which [.message.slice(0, 500)] cannot be evaluated. *)
Definition unreadable (e : Event) : option JsError :=
  match e with
  | EvBlockchainSendTx _ _ (Err err) =>
      match message err with
      | Some _ => None
      | None => Some (TypeError (reading err))
      end
  | _ => None
  end.

(** The errors raised inside the class, in a call with [estimatedGas]: the
    [TypeError] of reading a property of [undefined] (lines 41 and 118),
    the [RangeError] of [BigInt(estimatedGas)] (line 37), and what
    [JoinSplitProofData.fromBuffer] raises. *)
Definition raisedInside (this : RollupPublisher) (estimatedGas : JsNumber) (err : JsError)
  : Prop :=
  err = TypeError "Cannot read properties of undefined (reading 'toString')" \/
  err = TypeError "Cannot read properties of undefined (reading 'txHash')" \/
  BigInt estimatedGas = Err err \/
  exists b, fromBuffer this b = Err err.

(** The state is the latest event. *)
Definition lastStep (s : option Event) (e : Event) : option (option Event) := Some (Some e).

(** [err] is raised inside the class, or is the rejection of the latest
    call, or is raised while the rejection of the latest call is logged. *)
Definition raisedBy (this : RollupPublisher) (estimatedGas : JsNumber) (err : JsError)
    (s : option Event) : Prop :=
  raisedInside this estimatedGas err \/
  exists e, s = Some e /\ (uncaught e = Some err \/ unreadable e = Some err).

(** What a part of the call raises is raised inside the class or by the
    latest call. *)
Definition raises (this : RollupPublisher) (estimatedGas : JsNumber) {A : Type}
    (o : Outcome A) (c : Clock) (s : option Event) : Prop :=
  forall err, o = Thrown err -> raisedBy this estimatedGas err s.

(** *** How a rejection is handled
    [Going]: the call goes on.  [Caught]: the latest call was rejected
    inside a [try], and a sleep of 60 s is to come next.  [Rejected err]:
    a call made outside a [try] was rejected with [err], and nothing is to
    come. *)
Inductive Handling : Type :=
| Going
| Caught
| Rejected (err : JsError).

(** The rejections that the class catches (lines 189-194 and 201-205): those
    of [getTransactionReceiptSafe], and those of [blockchain.sendTx] with a
    message that can be logged. *)
Definition caught (e : Event) : bool :=
  match e with
  | EvGetTransactionReceiptSafe _ _ (Err _) => true
  | EvBlockchainSendTx _ _ (Err err) =>
      match message err with
      | Some _ => true
      | None => false
      end
  | _ => false
  end.

Definition handlingStep (s : Handling) (e : Event) : option Handling :=
  match s with
  | Going =>
      match uncaught e with
      | Some err => Some (Rejected err)
      | None => Some (if caught e then Caught else Going)
      end
  | Caught =>
      match e with
      | EvSleep ms => if (ms =? 60000)%N then Some Going else None
      | _ => None
      end
  | Rejected _ => None
  end.

(** After a rejection outside a [try] the outcome is that error, and no
    part of the call ends between a caught rejection and its sleep. *)
Definition handled {A : Type} (o : Outcome A) (c : Clock) (s : Handling) : Prop :=
  match s with
  | Going => True
  | Caught => False
  | Rejected err => o = Thrown err
  end.

(** *** Configured values
    The options of a send are the nonce with the publisher's gas limit and
    fee caps; a sleep lasts 60 s; a receipt is waited for 300 s; the
    database is told about the rollup that is published. *)
Definition configuredOptions (this : RollupPublisher) (o : SendTxOptions) : bool :=
  (gasLimit o =? this_gasLimit this)%N &&
  (maxFeePerGas o =? this_maxFeePerGas this)%Z &&
  (maxPriorityFeePerGas o =? this_maxPriorityFeePerGas this)%Z.

Definition configured (this : RollupPublisher) (rollupId : N) (e : Event) : bool :=
  match e with
  | EvSend _ _ o | EvBlockchainSendTx _ o _ => configuredOptions this o
  | EvSleep ms => (ms =? 60000)%N
  | EvGetTransactionReceiptSafe _ timeout _ => (timeout =? 300)%N
  | EvSetCallData i _ _ | EvConfirmSent i _ _ => (i =? rollupId)%N
  | _ => true
  end.

(** *** Before the main loop
    The timer is started, the batch is made, the call data of the rollup
    proof is stored, the accounts are read: once each, in this order, and a
    call that is rejected is the last. *)
Inductive Stage : Type :=
| StageStart
| StageCreate
| StageStore (rollupTxs : RollupTxs)
| StageAccounts
| StageLoop
| StageFailed.

Definition stageStep (rollupId : N) (s : Stage) (e : Event) : option Stage :=
  match s with
  | StageStart =>
      match e with
      | EvPublishTimer => Some StageCreate
      | _ => None
      end
  | StageCreate =>
      match e with
      | EvGetUserProofApprovalStatus _ _ (Ok _) => Some StageCreate
      | EvGetUserProofApprovalStatus _ _ (Err _) => Some StageFailed
      | EvCreateRollupTxs _ _ _ (Ok rollupTxs) => Some (StageStore rollupTxs)
      | EvCreateRollupTxs _ _ _ (Err _) => Some StageFailed
      | _ => None
      end
  | StageStore rollupTxs =>
      match e with
      | EvSetCallData i data r =>
          if (i =? rollupId)%N && (if Buffer_eq_dec data (rollupProofTx rollupTxs) then true else false)
          then Some (match r with Ok _ => StageAccounts | Err _ => StageFailed end)
          else None
      | _ => None
      end
  | StageAccounts =>
      match e with
      | EvGetAccounts (Ok _) => Some StageLoop
      | EvGetAccounts (Err _) => Some StageFailed
      | _ => None
      end
  | StageLoop => if preludeEvent e then None else Some StageLoop
  | StageFailed => None
  end.

Definition isSetCallData (e : Event) : bool :=
  match e with
  | EvSetCallData _ _ _ => true
  | _ => false
  end.

(** The stages in which [setCallData] is still to come or being made. *)
Definition earlyStage (s : Stage) : bool :=
  match s with
  | StageStart | StageCreate | StageStore _ => true
  | _ => false
  end.

(** *** Why a call gives up
    The call ends interrupted, or its latest event is a receipt fetch that
    answered with no receipt or with a changed state hash. *)
Definition givesUp (c : Clock) (s : option Event) : Prop :=
  interrupted c = true \/ exists e, s = Some e /\ fatalReceipt e = true.

(** Every entry that is successful has a hash. *)
Definition confirmedHaveHash (txStatuses : list TxStatus) : Prop :=
  Forall (fun s => success s = true -> txHash s <> None) txStatuses.

(** *** Failed transactions
    A receipt of a transaction that failed, for another reason than a
    changed state hash. *)
Definition failedReceipt (e : Event) : bool :=
  match e with
  | EvGetTransactionReceiptSafe _ _ (Ok (Some r)) => negb (status r) && negb (stateHashChanged r)
  | _ => false
  end.

Inductive Retry : Type :=
| RetryNone
| RetrySleep
| RetryPoll.

(** After such a receipt comes a sleep of 60 s, and after the sleep a fee
    poll, the start of another pass. *)
Definition retryStep (s : Retry) (e : Event) : option Retry :=
  match s with
  | RetryNone => Some (if failedReceipt e then RetrySleep else RetryNone)
  | RetrySleep =>
      match e with
      | EvSleep ms => if (ms =? 60000)%N then Some RetryPoll else None
      | _ => None
      end
  | RetryPoll =>
      match e with
      | EvGetBlockByNumber _ => Some RetryNone
      | _ => None
      end
  end.

(** ** Lemmas on the monad and on monitors *)

Unset Implicit Arguments.

(** A fact about every event of one class, by cases on the event. *)
Ltac by_event :=
  let e := fresh "e" in
  intros e; destruct e; cbn; auto; discriminate.

Section MonitorRules.

Variable St : Type.
Variable step : St -> Event -> option St.

Lemma accepts_app (s : St) (t1 t2 : list Event) :
  accepts step s (t1 ++ t2) =
  match accepts step s t1 with
  | Some s' => accepts step s' t2
  | None => None
  end.
Proof.
  revert s; induction t1 as [|e t1 IH]; intros s; simpl; [reflexivity|].
  destruct (step s e); [apply IH | reflexivity].
Qed.

Lemma accepts_preserved (I : St -> Prop) (P : Event -> bool) (t : list Event) :
  preserves step I P -> forallb P t = true ->
  forall s, I s -> exists s', accepts step s t = Some s' /\ I s'.
Proof.
  intros HP; induction t as [|e t IH]; simpl; intros Ht s Hs; [eauto|].
  apply andb_true_iff in Ht as [He Ht].
  destruct (HP s e Hs He) as (s1 & -> & Hs1). auto.
Qed.

Variable A : Type.

Lemma sat_ret (s : St) (a : A) (c : Clock) Q :
  Q (Returned a) c s -> sat step s (ret a c) Q.
Proof. intros H; exists s; simpl; auto. Qed.

Lemma sat_throw (s : St) (e : JsError) (c : Clock) (Q : Outcome A -> Clock -> St -> Prop) :
  Q (Thrown e) c s -> sat step s (throw e c) Q.
Proof. intros H; exists s; simpl; auto. Qed.

Lemma sat_running (s : St) (c : Clock) (Q : Outcome A -> Clock -> St -> Prop) :
  Q Running c s -> sat step s (running c) Q.
Proof. intros H; exists s; simpl; auto. Qed.

Lemma sat_weaken (s : St) (r : Run A) (Q Q' : Outcome A -> Clock -> St -> Prop) :
  sat step s r Q -> (forall o c s', Q o c s' -> Q' o c s') -> sat step s r Q'.
Proof. intros (s' & Ha & Hq) H; exists s'; auto. Qed.

Lemma sat_await (interrupts : nat -> bool) (s s' : St) (ask : nat -> Res A)
    (ev : Res A -> Event) (c : Clock) Q :
  step s (ev (ask (tick c))) = Some s' ->
  Q (match ask (tick c) with Ok a => Returned a | Err e => Thrown e end)
    {| tick := S (tick c); interrupted := interrupted c || interrupts (tick c) |} s' ->
  sat step s (await interrupts ask ev c) Q.
Proof. intros H1 H2; exists s'; simpl; rewrite H1; auto. Qed.

Lemma sat_emits (I : St -> Prop) (P : Event -> bool) (s : St) (r : Run A) :
  preserves step I P -> forallb P (emitted r) = true -> I s ->
  sat step s r (fun o c s' => I s' /\ o = outcome r /\ c = clock r).
Proof.
  intros HP Hr Hs. destruct (@accepts_preserved I P (emitted r) HP Hr s Hs) as (s' & Ha & Hs').
  exists s'; auto.
Qed.

End MonitorRules.

Section MonitorBind.

Variable St : Type.
Variable step : St -> Event -> option St.
Variables A B : Type.

Lemma sat_bind (s : St) (m : M A) (f : A -> M B) (c : Clock) Q :
  sat step s (m c)
      (fun o c' s' =>
         match o with
         | Returned a => sat step s' (f a c') Q
         | Thrown e => Q (Thrown e) c' s'
         | Running => Q Running c' s'
         end) ->
  sat step s (bind m f c) Q.
Proof.
  intros (s1 & Ha & Hq). unfold bind, sat.
  destruct (outcome (m c)) as [a|e|]; simpl; eauto.
  destruct Hq as (s2 & Ha2 & Hq2).
  exists s2; rewrite accepts_app, Ha; auto.
Qed.

End MonitorBind.

Lemma sat_try_catch St (step : St -> Event -> option St) A (s : St) (m : M A)
    (h : JsError -> M A) (c : Clock) Q :
  sat step s (m c)
      (fun o c' s' =>
         match o with
         | Thrown e => sat step s' (h e c') Q
         | _ => Q o c' s'
         end) ->
  sat step s (try_catch m h c) Q.
Proof.
  intros (s1 & Ha & Hq). unfold try_catch, sat.
  destruct (outcome (m c)) as [a|e|] eqn:E; simpl; try rewrite E; eauto.
  destruct Hq as (s2 & Ha2 & Hq2).
  exists s2; rewrite accepts_app, Ha; auto.
Qed.

Lemma sat_mark St (step : St -> Event -> option St) (s s' : St) (e : Event) (c : Clock) Q :
  step s e = Some s' -> Q (Returned tt) c s' -> sat step s (mark e c) Q.
Proof. intros H1 H2; exists s'; simpl; rewrite H1; auto. Qed.

Lemma sat_isInterrupted St (step : St -> Event -> option St) (s : St) (c : Clock) Q :
  Q (Returned (interrupted c)) c s -> sat step s (isInterrupted c) Q.
Proof. intros H; exists s; simpl; auto. Qed.

Lemma sat_run St (step : St -> Event -> option St) A (s : St) (r : Run A) Q :
  sat step s r Q ->
  sat step s r (fun o c s' => Q o c s' /\ o = outcome r /\ c = clock r).
Proof. intros (s' & Ha & Hq); exists s'; auto. Qed.

Lemma sat_await_any St (step : St -> Event -> option St) A (interrupts : nat -> bool)
    (s : St) (ask : nat -> Res A) (ev : Res A -> Event) (c : Clock) Q :
  (forall r, r = ask (tick c) ->
     exists s', step s (ev r) = Some s' /\
       Q (match r with Ok a => Returned a | Err e => Thrown e end)
         {| tick := S (tick c); interrupted := interrupted c || interrupts (tick c) |} s') ->
  sat step s (await interrupts ask ev c) Q.
Proof. intros H. destruct (H _ eq_refl) as (s' & H1 & H2). eapply sat_await; eauto. Qed.

(** ** What the helpers emit *)

Section Emits.
Variable this : RollupPublisher.
Variable interrupts : nat -> bool.

Lemma gate_emits fuel signer gas c :
  forallb gateEvent
    (emitted (awaitGasPriceBelowThresholdAndSufficientBalance this interrupts fuel signer gas c)) = true.
Proof.
  revert c; induction fuel as [|fuel IH]; intros c; [reflexivity|].
  cbn [awaitGasPriceBelowThresholdAndSufficientBalance].
  unfold bind at 1; cbn. destruct (interrupted c); [reflexivity|].
  unfold bind at 1; cbn.
  destruct (EthereumRpc.getBlockByNumber _ _) as [fee|e]; cbn; [|reflexivity].
  unfold bind at 1; cbn.
  destruct (EthereumRpc.getBalance _ _ _) as [bal|e]; cbn; [|reflexivity].
  destruct gas as [g|rangeError]; cbn [BigInt]; [|reflexivity].
  unfold bind at 1. destruct signer; cbn; [|reflexivity].
  destruct (_ >? _)%Z; [|destruct (_ <? _)%Z]; cbn; try apply IH; reflexivity.
Qed.

Lemma sendTx_emits fuel data o c :
  forallb attemptEvent (emitted (sendTx this interrupts fuel data o c)) = true.
Proof.
  revert c; induction fuel as [|fuel IH]; intros c; [reflexivity|].
  cbn [sendTx]. unfold bind at 1; cbn. destruct (interrupted c); [reflexivity|].
  unfold try_catch, bind; cbn.
  destruct (Blockchain.sendTx _ _ _ _) as [h|e]; cbn; [reflexivity|].
  destruct (message e); cbn; [apply IH | reflexivity].
Qed.

Lemma getTransactionReceipt_emits fuel h c :
  forallb receiptEvent (emitted (getTransactionReceipt this interrupts fuel h c)) = true.
Proof.
  revert c; induction fuel as [|fuel IH]; intros c; [reflexivity|].
  cbn [getTransactionReceipt]. unfold bind at 1; cbn. destruct (interrupted c); [reflexivity|].
  unfold try_catch, bind; cbn.
  destruct (Blockchain.getTransactionReceiptSafe _ _ _ _) as [r|e]; cbn; [reflexivity|].
  apply IH.
Qed.

Lemma collectSignatures_emits jsTxs sigs c :
  forallb createEvent (emitted (collectSignatures this interrupts jsTxs sigs c)) = true.
Proof.
  revert sigs c; induction jsTxs as [|t rest IH]; intros sigs c; [reflexivity|].
  cbn [collectSignatures].
  destruct (fromBuffer this (proofData t)) as [[owner txId]|e]; [|reflexivity].
  unfold bind; cbn.
  destruct (Blockchain.getUserProofApprovalStatus _ _ _ _) as [[|]|e]; cbn;
    [apply IH | destruct (signature t); apply IH | reflexivity].
Qed.

Lemma createTxData_emits rollup c :
  forallb createEvent (emitted (createTxData this interrupts rollup c)) = true.
Proof.
  unfold createTxData, bind.
  destruct (outcome (collectSignatures _ _ _ _ _)) eqn:E; cbn;
    try apply collectSignatures_emits.
  rewrite forallb_app, collectSignatures_emits. reflexivity.
Qed.
End Emits.
Lemma bind_returned A B (m : M A) (f : A -> M B) (c : Clock) (b : B) :
  outcome (bind m f c) = Returned b ->
  exists a, outcome (m c) = Returned a /\ outcome (f a (clock (m c))) = Returned b.
Proof.
  unfold bind. destruct (outcome (m c)) as [a|e|]; simpl; try discriminate. eauto.
Qed.

Section Shape.
Variable this : RollupPublisher.
Variable interrupts : nat -> bool.

Lemma sendLoop_shape fuel i todo nonce c todo' :
  outcome (sendLoop this interrupts fuel i todo nonce c) = Returned todo' ->
  map tx todo' = map tx todo /\ map success todo' = map success todo.
Proof.
  revert i nonce c todo'; induction todo as [|s rest IH]; intros i nonce c todo'.
  - simpl. intros [= <-]; auto.
  - cbn [sendLoop]. unfold bind at 1; cbn.
    destruct (interrupted c); cbn; [intros [= <-]; auto|].
    destruct (success s) eqn:Hs.
    + intros H. apply bind_returned in H as (rest' & H1 & H2).
      cbn in H2. injection H2 as <-.
      apply IH in H1 as [E1 E2]; cbn; rewrite E1, E2, ?Hs; auto.
    + intros H. apply bind_returned in H as (u & _ & H); cbn in H.
      apply bind_returned in H as (h & _ & H).
      apply bind_returned in H as (rest' & H1 & H2).
      cbn in H2. injection H2 as <-.
      apply IH in H1 as [E1 E2]. cbn. rewrite E1, E2, ?Hs. auto.
Qed.

Lemma receiptLoop_shape fuel i todo c ex todo' :
  outcome (receiptLoop this interrupts fuel i todo c) = Returned (ex, todo') ->
  map tx todo' = map tx todo /\ map txHash todo' = map txHash todo /\
  Forall2 (fun a b => success a = true -> success b = true) todo todo' /\
  (ex = AllSucceeded -> Forall (fun s => success s = true) todo').
Proof.
  assert (Hrefl : forall l : list TxStatus,
             Forall2 (fun a b => success a = true -> success b = true) l l).
  { induction l; constructor; auto. }
  revert i c ex todo'; induction todo as [|s rest IH]; intros i c ex todo'.
  - simpl. intros [= <- <-]; auto.
  - cbn [receiptLoop]. destruct (success s) eqn:Hs.
    + intros H. apply bind_returned in H as ([ex1 rest'] & H1 & H2).
      cbn in H2. injection H2 as <- <-.
      apply IH in H1 as (E1 & E2 & HF & HA). cbn; rewrite E1, E2.
      repeat split; auto.
    + intros H. apply bind_returned in H as ([r|] & _ & H).
      2:{ cbn in H. injection H as <- <-. repeat split; auto. discriminate. }
      destruct (status r).
      * apply bind_returned in H as (u & _ & H); cbn in H.
        apply bind_returned in H as ([ex1 rest'] & H1 & H2).
        cbn in H2. injection H2 as <- <-.
        apply IH in H1 as (E1 & E2 & HF & HA). cbn; rewrite E1, E2.
        repeat split; auto.
      * assert (Hend : forall x : unit, (ex, todo') = (ContinueMainLoop, s :: rest) ->
                  map tx todo' = map tx (s :: rest) /\
                  map txHash todo' = map txHash (s :: rest) /\
                  Forall2 (fun a b => success a = true -> success b = true) (s :: rest) todo' /\
                  (ex = AllSucceeded -> Forall (fun s => success s = true) todo')).
        { intros _ [= -> ->]. repeat split; auto. discriminate. }
        destruct (revertError r) as [e|].
        -- destruct (String.eqb _ _).
           ++ cbn in H. injection H as <- <-. repeat split; auto. discriminate.
           ++ apply bind_returned in H as (u & _ & H). cbn in H.
              injection H as <- <-. apply (Hend tt); auto.
        -- apply bind_returned in H as (u & _ & H). cbn in H.
           injection H as <- <-. apply (Hend tt); auto.
Qed.
End Shape.

Section Emits2.
Variable this : RollupPublisher.
Variable interrupts : nat -> bool.

Lemma receiptLoop_emits fuel i todo c :
  forallb confirmEvent (emitted (receiptLoop this interrupts fuel i todo c)) = true.
Proof.
  revert i c; induction todo as [|s rest IH]; intros i c; [reflexivity|].
  cbn [receiptLoop]. destruct (success s).
  - unfold bind. destruct (outcome (receiptLoop _ _ _ _ _ _)) eqn:E; cbn;
      rewrite ?app_nil_r; apply IH.
  - unfold bind at 1.
    assert (Hg : forallb confirmEvent (emitted (getTransactionReceipt this interrupts fuel (txHash s) c)) = true).
    { eapply forallb_forall. intros e He.
      pose proof (getTransactionReceipt_emits this interrupts fuel (txHash s) c) as H.
      rewrite forallb_forall in H. apply H in He. destruct e; try discriminate; reflexivity. }
    destruct (outcome (getTransactionReceipt _ _ _ _ _)) as [[r|]| |]; cbn;
      rewrite ?app_nil_r; auto.
    rewrite forallb_app, Hg; cbn.
    destruct (status r).
    + unfold bind; cbn.
      destruct (outcome (receiptLoop _ _ _ _ _ _)) eqn:E; cbn;
        rewrite ?app_nil_r; apply IH.
    + destruct (revertError r) as [e|]; [destruct (String.eqb _ _)|]; reflexivity.
Qed.

Lemma confirmBatch_emits fuel rollup sts c :
  forallb confirmEvent (emitted (confirmBatch this interrupts fuel rollup sts c)) = true.
Proof.
  unfold confirmBatch. destruct (existsb _ _); [reflexivity|].
  destruct (lastStatus sts); [|reflexivity].
  unfold bind at 1; cbn. destruct (RollupDb.confirmSent _ _ _ _); cbn; [|reflexivity].
  unfold bind at 1.
  destruct (outcome (receiptLoop _ _ _ _ _ _)) as [[ex sts']| |] eqn:E; cbn;
    rewrite ?app_nil_r; try apply receiptLoop_emits.
  rewrite forallb_app, receiptLoop_emits. destruct ex; reflexivity.
Qed.
End Emits2.

Section DisciplineProofs.
Variable this : RollupPublisher.
Variable interrupts : nat -> bool.
Variable payloads : list Buffer.

Lemma discipline_quiet (s : Discipline) (P : Event -> bool) :
  (forall e, P e = true -> isSend e = false /\ isCount e = false) ->
  preserves (disciplineStep payloads) (eq s) P.
Proof.
  intros HP s' e <- He. apply HP in He as [H1 H2].
  exists s; split; auto. destruct e; try discriminate; reflexivity.
Qed.

Lemma sendLoop_discipline fuel i todo nonce c s :
  expect s = Some nonce -> below (latest s) i = true ->
  (forall k d, nth_error (map tx todo) k = Some d -> nth_error payloads (i + k) = Some d) ->
  sat (disciplineStep payloads) s (sendLoop this interrupts fuel i todo nonce c)
      (fun _ _ _ => True).
Proof.
  revert i nonce c s; induction todo as [|st rest IH]; intros i nonce c s He Hb Hp.
  - apply sat_ret; auto.
  - cbn [sendLoop]. apply sat_bind, sat_isInterrupted.
    destruct (interrupted c); [apply sat_ret; auto|].
    assert (Hrest : forall k d, nth_error (map tx rest) k = Some d ->
                                nth_error payloads (S i + k) = Some d).
    { intros k d Hk. replace (S i + k) with (i + S k) by lia. apply Hp; exact Hk. }
    destruct (success st).
    + apply sat_bind. eapply sat_weaken.
      * apply IH; eauto. unfold below in *. destruct (latest s); auto.
        apply Nat.ltb_lt in Hb; apply Nat.ltb_lt; lia.
      * intros [rest'| |] c' s' _; auto. apply sat_ret; auto.
    + apply sat_bind.
      eapply sat_mark with (s' := {| expect := Some (increment nonce); latest := Some i |}).
      { pose proof (Hp 0 (tx st) eq_refl) as Hi.
        replace (i + 0) with i in Hi by lia.
        cbn. rewrite He, Hi. cbn.
        rewrite N.eqb_refl, Hb; cbn.
        destruct (list_eq_dec _ _ _); congruence. }
      apply sat_bind. eapply sat_weaken.
      * eapply sat_emits with (I := eq _) (P := attemptEvent);
          [ | apply sendTx_emits | reflexivity ].
        apply discipline_quiet. by_event.
      * cbv beta. intros o c' s' (<- & -> & ->).
        destruct (outcome (sendTx _ _ _ _ _ _)); auto.
        apply sat_bind. eapply sat_weaken.
        -- apply IH; auto. apply Nat.ltb_lt; lia.
        -- intros [rest'| |] c'' s'' _; auto. apply sat_ret; auto.
Qed.
End DisciplineProofs.

Section Shape2.
Variable this : RollupPublisher.
Variable interrupts : nat -> bool.

Lemma sendBatch_shape fuel gas signer sts c sts' :
  outcome (sendBatch this interrupts fuel gas signer sts c) = Returned (Some sts') ->
  map tx sts' = map tx sts /\ map success sts' = map success sts.
Proof.
  unfold sendBatch. intros H.
  apply bind_returned in H as (u & _ & H).
  apply bind_returned in H as (stop & _ & H).
  destruct stop; [discriminate|].
  apply bind_returned in H as (nonce & _ & H).
  apply bind_returned in H as (sts1 & H1 & H2).
  cbn in H2. injection H2 as <-. eapply sendLoop_shape; eauto.
Qed.

Lemma confirmBatch_shape fuel rollup sts c ex sts' :
  outcome (confirmBatch this interrupts fuel rollup sts c) = Returned (ex, sts') ->
  map tx sts' = map tx sts /\
  Forall2 (fun a b => success a = true -> success b = true) sts sts' /\
  (ex = AllSucceeded -> Forall (fun s => success s = true) sts').
Proof.
  unfold confirmBatch. destruct (existsb _ _).
  - cbn. intros [= <- <-]. repeat split; [|discriminate].
    induction sts; constructor; auto.
  - destruct (lastStatus sts); [|discriminate].
    intros H. apply bind_returned in H as (u & _ & H).
    apply bind_returned in H as ([ex1 sts1] & H1 & H2).
    apply receiptLoop_shape in H1 as (E1 & E2 & HF & HA).
    assert (E : (ex1, sts1) = (ex, sts')).
    { destruct ex1; cbn in H2; congruence. }
    injection E as <- <-. auto.
Qed.
End Shape2.

Section DisciplineProofs2.
Variable this : RollupPublisher.
Variable interrupts : nat -> bool.
Variable payloads : list Buffer.

Let step := disciplineStep payloads.

Lemma sendBatch_discipline fuel gas signer sts c s :
  map tx sts = payloads ->
  sat step s (sendBatch this interrupts fuel gas signer sts c) (fun _ _ _ => True).
Proof.
  intros Hp. unfold sendBatch. apply sat_bind. eapply sat_weaken.
  - eapply sat_emits with (I := eq s) (P := gateEvent);
      [ | apply gate_emits | reflexivity ].
    apply discipline_quiet. by_event.
  - cbv beta. intros o c' s' (<- & -> & ->).
    destruct (outcome _); auto.
    apply sat_bind, sat_isInterrupted.
    destruct (interrupted _); [apply sat_ret; auto|].
    apply sat_bind.
    apply sat_await_any. intros [n|e] _; eexists; (split; [reflexivity|]); auto.
    apply sat_bind. eapply sat_weaken.
    + apply sendLoop_discipline; auto.
      intros k d Hk. rewrite <- Hp. exact Hk.
    + intros [x| |] ? ? _; auto. apply sat_ret; auto.
Qed.

Lemma confirmBatch_discipline fuel rollup sts c s :
  sat step s (confirmBatch this interrupts fuel rollup sts c) (fun _ _ _ => True).
Proof.
  eapply sat_weaken.
  - eapply sat_emits with (I := eq s) (P := confirmEvent);
      [ | apply confirmBatch_emits | reflexivity ].
    apply discipline_quiet. by_event.
  - auto.
Qed.

Lemma mainLoop_discipline fuel rollup gas signer sts c s :
  map tx sts = payloads ->
  sat step s (mainLoop this interrupts fuel rollup gas signer sts c) (fun _ _ _ => True).
Proof.
  revert sts c s; induction fuel as [|fuel IH]; intros sts c s Hp.
  - apply sat_running; auto.
  - cbn [mainLoop]. apply sat_bind, sat_isInterrupted.
    destruct (interrupted c); [apply sat_ret; auto|].
    apply sat_bind. eapply sat_weaken.
    + apply sat_run, sendBatch_discipline, Hp.
    + cbv beta. intros [[sts1|]| |] c1 s1 (_ & E1 & ->); auto; [|apply sat_ret; auto].
      symmetry in E1. apply sendBatch_shape in E1 as [E1 _].
      apply sat_bind. eapply sat_weaken.
      * apply sat_run, confirmBatch_discipline.
      * cbv beta. intros [[ex sts2]| |] c2 s2 (_ & E2 & ->); auto.
        symmetry in E2. apply confirmBatch_shape in E2 as [E2 _].
        destruct ex; cbn; try (apply sat_ret; auto).
        apply IH. congruence.
Qed.
End DisciplineProofs2.

Lemma broadcastStatuses_tx i len l : map tx (broadcastStatuses i len l) = l.
Proof. revert i; induction l as [|b l IH]; intros i; cbn; [|rewrite IH]; reflexivity. Qed.

Lemma initialStatuses_tx rt :
  map tx (initialStatuses rt) = offchainDataTxs rt ++ [rollupProofTx rt].
Proof. unfold initialStatuses. rewrite map_app, broadcastStatuses_tx. reflexivity. Qed.

Section Whole.
Variable this : RollupPublisher.
Variable interrupts : nat -> bool.

Lemma publishRollup_emitted fuel rollup gas c :
  emitted (publishRollup this interrupts fuel rollup gas c) =
  emitted (publishRollup_statuses this interrupts fuel rollup gas c).
Proof.
  unfold publishRollup, bind at 1.
  destruct (outcome (publishRollup_statuses _ _ _ _ _ _)); cbn;
    rewrite ?app_nil_r; reflexivity.
Qed.

Lemma publishRollup_outcome fuel rollup gas c :
  outcome (publishRollup this interrupts fuel rollup gas c) =
  match outcome (publishRollup_statuses this interrupts fuel rollup gas c) with
  | Returned r => Returned (fst r)
  | Thrown e => Thrown e
  | Running => Running
  end.
Proof.
  unfold publishRollup, bind at 1.
  destruct (outcome (publishRollup_statuses _ _ _ _ _ _)); reflexivity.
Qed.

Lemma publishRollup_discipline fuel rollup gas c s :
  exists payloads,
    (forall rt, outcome (createTxData this interrupts rollup c) = Returned rt ->
                payloads = offchainDataTxs rt ++ [rollupProofTx rt]) /\
    sat (disciplineStep payloads) s (publishRollup_statuses this interrupts fuel rollup gas c)
        (fun _ _ _ => True).
Proof.
  exists (match outcome (createTxData this interrupts rollup c) with
          | Returned rt => offchainDataTxs rt ++ [rollupProofTx rt]
          | _ => []
          end).
  split; [intros rt ->; reflexivity|].
  unfold publishRollup_statuses.
  apply sat_bind. eapply sat_mark; [reflexivity|].
  apply sat_bind. eapply sat_weaken.
  - eapply sat_emits with (I := eq s) (P := createEvent);
      [ | apply createTxData_emits | reflexivity ].
    apply discipline_quiet. by_event.
  - cbv beta. intros o c' s' (<- & -> & ->).
    destruct (outcome (createTxData _ _ _ _)) as [rt| |]; auto.
    apply sat_bind, sat_await_any. intros [u|e] _; eexists; (split; [reflexivity|]); auto.
    apply sat_bind, sat_await_any. intros [accounts|e] _; eexists; (split; [reflexivity|]); auto.
    apply mainLoop_discipline, initialStatuses_tx.
Qed.
End Whole.

(** ** From accepted traces to the properties *)

Section DisciplineTraces.
Variable payloads : list Buffer.
Let step := disciplineStep payloads.

Lemma increment_exact (n : N) : (n <? 9007199254740992)%N = true -> increment n = (n + 1)%N.
Proof.
  intros H. apply N.ltb_lt in H. unfold increment, roundToDouble.
  destruct (n + 1 <? 9007199254740992)%N eqn:E; [reflexivity|].
  apply N.ltb_ge in E.
  assert (n + 1 = 9007199254740992)%N as -> by lia.
  reflexivity.
Qed.

Lemma discipline_contiguous t : forall s s',
  accepts step s t = Some s' -> forallb nonceInRange t = true ->
  contiguousNonces (expect s) t.
Proof.
  induction t as [|e t IH]; intros s s' H Hr; [exact I|].
  cbn [accepts] in H. destruct (step s e) as [s1|] eqn:E; [|discriminate].
  cbn [forallb] in Hr. apply andb_true_iff in Hr as [Hr0 Hr].
  apply IH in H; [|exact Hr].
  destruct e; cbn in E |- *; try (injection E as <-; exact H).
  - destruct r; injection E as <-; exact H.
  - destruct (expect s) as [n|]; [|discriminate].
    destruct (nth_error payloads i); [|discriminate].
    destruct ((n =? nonce o)%N && below (latest s) i) eqn:Hc; [|discriminate].
    destruct (list_eq_dec _ _ _); [|discriminate].
    injection E as <-. apply andb_true_iff in Hc as [Hn _].
    apply N.eqb_eq in Hn. subst n. split; auto.
    cbn [expect] in H. rewrite (increment_exact _ Hr0) in H. exact H.
Qed.

Lemma discipline_send s i d o s' :
  step s (EvSend i d o) = Some s' ->
  expect s = Some (nonce o) /\ below (latest s) i = true /\
  nth_error payloads i = Some d /\
  s' = {| expect := Some (increment (nonce o)); latest := Some i |}.
Proof.
  cbn. destruct (expect s) as [n|]; [|discriminate].
  destruct (nth_error payloads i); [|discriminate].
  destruct ((n =? nonce o)%N && below (latest s) i) eqn:Hc; [|discriminate].
  destruct (list_eq_dec _ _ _); [|discriminate].
  intros [= <-]. apply andb_true_iff in Hc as [Hn Hb].
  apply N.eqb_eq in Hn. subst. auto.
Qed.

Lemma discipline_payload t : forall s s' i d o,
  accepts step s t = Some s' -> In (EvSend i d o) t -> nth_error payloads i = Some d.
Proof.
  induction t as [|e t IH]; intros s s' i d o H Hin; [destruct Hin|].
  cbn [accepts] in H. destruct (step s e) as [s1|] eqn:E; [|discriminate].
  destruct Hin as [->|Hin]; [|eauto].
  apply discipline_send in E. tauto.
Qed.

(** Within a pass, the index of the sends only grows, and so does the nonce
    as long as the nonces sent are below 2^53. *)
Lemma discipline_pass mid : forall s s' m l,
  accepts step s mid = Some s' ->
  forallb (fun e => negb (isCount e)) mid = true ->
  expect s = Some m -> latest s = Some l ->
  exists m' l', expect s' = Some m' /\ latest s' = Some l' /\ l <= l' /\
                (forallb nonceInRange mid = true -> (m <= m')%N).
Proof.
  induction mid as [|e mid IH]; intros s s' m l H Hm He Hl.
  - injection H as <-. exists m, l. repeat split; auto; lia.
  - cbn [accepts] in H. destruct (step s e) as [s1|] eqn:E; [|discriminate].
    cbn in Hm. apply andb_true_iff in Hm as [Hc Hm].
    destruct (isSend e) eqn:Hsend.
    + destruct e; try discriminate.
      apply discipline_send in E as (E1 & E2 & _ & ->).
      rewrite Hl in E2. cbn in E2. apply Nat.ltb_lt in E2.
      eapply IH in H as (m' & l' & ? & ? & ? & Hle);
        [ | exact Hm | reflexivity | reflexivity ].
      exists m', l'. repeat split; auto; try lia.
      intros Hr. cbn [forallb nonceInRange] in Hr.
      apply andb_true_iff in Hr as [Hr0 Hr].
      rewrite (increment_exact _ Hr0) in Hle. specialize (Hle Hr).
      rewrite He in E1. injection E1 as ->. lia.
    + assert (s1 = s) as ->.
      { destruct e; try discriminate; cbn in E; congruence. }
      destruct (IH _ _ _ _ H Hm He Hl) as (m' & l' & ? & ? & ? & Hle).
      exists m', l'. repeat split; auto.
      intros Hr. cbn [forallb] in Hr. apply andb_true_iff in Hr as [_ Hr]. auto.
Qed.

Lemma discipline_ordered pre mid post i d o j d' o' s s' :
  accepts step s (pre ++ EvSend i d o :: mid ++ EvSend j d' o' :: post) = Some s' ->
  forallb (fun e => negb (isCount e)) mid = true ->
  i < j /\
  (forallb nonceInRange (EvSend i d o :: mid) = true -> (nonce o < nonce o')%N).
Proof.
  intros H Hm. rewrite accepts_app in H.
  destruct (accepts step s pre) as [s1|]; [|discriminate].
  cbn [accepts] in H. destruct (step s1 _) as [s2|] eqn:E; [|discriminate].
  apply discipline_send in E as (_ & _ & _ & ->).
  rewrite accepts_app in H.
  destruct (accepts step _ mid) as [s3|] eqn:E3; [|discriminate].
  eapply discipline_pass in E3 as (m' & l' & Hm' & Hl' & ? & Hle);
    [ | exact Hm | reflexivity | reflexivity ].
  cbn [accepts] in H. destruct (step s3 _) as [s4|] eqn:E4; [|discriminate].
  apply discipline_send in E4 as (E5 & E6 & _).
  rewrite Hl' in E6. cbn in E6. apply Nat.ltb_lt in E6.
  rewrite Hm' in E5. injection E5 as <-. split; [lia|].
  intros Hr. cbn [forallb nonceInRange] in Hr.
  apply andb_true_iff in Hr as [Hr0 Hr].
  rewrite (increment_exact _ Hr0) in Hle. specialize (Hle Hr). lia.
Qed.
End DisciplineTraces.

Lemma nonceInRange_sends (t : list Event) :
  forallb nonceInRange (filter isSend t) = forallb nonceInRange t.
Proof.
  induction t as [|e t IH]; [reflexivity|].
  destruct e; cbn [filter isSend forallb nonceInRange andb]; rewrite IH; reflexivity.
Qed.

Lemma filter_none (P Q : Event -> bool) (t : list Event) :
  forallb P t = true -> (forall e, P e = true -> Q e = false) -> filter Q t = [].
Proof.
  intros Ht HPQ. induction t as [|e t IH]; [reflexivity|].
  cbn in Ht |- *. apply andb_true_iff in Ht as [He Ht].
  rewrite (HPQ e He). auto.
Qed.

Lemma bind_run A B (m : M A) (f : A -> M B) (c : Clock) :
  bind m f c =
  match outcome (m c) with
  | Returned a =>
      {| outcome := outcome (f a (clock (m c)));
         clock := clock (f a (clock (m c)));
         emitted := emitted (m c) ++ emitted (f a (clock (m c))) |}
  | Thrown e => {| outcome := Thrown e; clock := clock (m c); emitted := emitted (m c) |}
  | Running => {| outcome := Running; clock := clock (m c); emitted := emitted (m c) |}
  end.
Proof. reflexivity. Qed.

Section Planned.
Variable this : RollupPublisher.
Variable interrupts : nat -> bool.

Lemma sendTx_no_send fuel data o c :
  filter isSend (emitted (sendTx this interrupts fuel data o c)) = [].
Proof.
  eapply filter_none; [apply sendTx_emits|].
  by_event.
Qed.

Lemma sendLoop_unconfirmed fuel i s rest nonce c :
  interrupted c = false -> success s = false ->
  let r1 := sendTx this interrupts fuel (tx s) (sendOptions this nonce) c in
  let r2 := sendLoop this interrupts fuel (S i) rest (increment nonce) (clock r1) in
  let r := sendLoop this interrupts fuel i (s :: rest) nonce c in
  filter isSend (emitted r) =
  EvSend i (tx s) (sendOptions this nonce) ::
    match outcome r1 with
    | Returned h => filter isSend (emitted r2)
    | _ => []
    end /\
  (forall todo', outcome r = Returned todo' ->
     exists h rest', outcome r1 = Returned h /\ outcome r2 = Returned rest' /\
                     clock r = clock r2).
Proof.
  intros Hc Hs r1 r2 r. unfold r. cbn [sendLoop].
  rewrite !bind_run; cbn. rewrite Hc, Hs; cbn.
  rewrite bind_run. fold r1.
  destruct (outcome r1) as [h| |]; cbn -[filter].
  - rewrite bind_run. fold r2.
    rewrite filter_app. unfold r1 at 1. rewrite sendTx_no_send.
    destruct (outcome r2) as [rest'| |]; cbn -[filter]; rewrite ?app_nil_r;
      (split; [reflexivity|]); try discriminate. eauto.
  - unfold r1. rewrite sendTx_no_send. split; [reflexivity|discriminate].
  - unfold r1. rewrite sendTx_no_send. split; [reflexivity|discriminate].
Qed.

Lemma sendLoop_confirmed_entry fuel i s rest nonce c :
  interrupted c = false -> success s = true ->
  emitted (sendLoop this interrupts fuel i (s :: rest) nonce c) =
  emitted (sendLoop this interrupts fuel (S i) rest nonce c) /\
  clock (sendLoop this interrupts fuel i (s :: rest) nonce c) =
  clock (sendLoop this interrupts fuel (S i) rest nonce c) /\
  (forall todo', outcome (sendLoop this interrupts fuel i (s :: rest) nonce c) = Returned todo' ->
     exists rest', outcome (sendLoop this interrupts fuel (S i) rest nonce c) = Returned rest').
Proof.
  intros Hc Hs. cbn [sendLoop]. unfold bind at 1 3 5; cbn. rewrite Hc, Hs.
  unfold bind. destruct (outcome (sendLoop _ _ _ _ _ _ _)); cbn;
    rewrite ?app_nil_r; repeat split; eauto; discriminate.
Qed.

Lemma sendLoop_inRange fuel i s rest n c :
  interrupted c = false -> success s = false ->
  forallb nonceInRange (emitted (sendLoop this interrupts fuel i (s :: rest) n c)) = true ->
  increment n = (n + 1)%N /\
  (forall h,
     outcome (sendTx this interrupts fuel (tx s) (sendOptions this n) c) = Returned h ->
     forallb nonceInRange
       (emitted (sendLoop this interrupts fuel (S i) rest (n + 1)
                   (clock (sendTx this interrupts fuel (tx s) (sendOptions this n) c))))
     = true).
Proof.
  intros Hc Hs Hr. rewrite <- nonceInRange_sends in Hr.
  destruct (sendLoop_unconfirmed fuel i s rest n c Hc Hs) as (E & _).
  rewrite E in Hr. cbn [forallb nonceInRange sendOptions nonce] in Hr.
  apply andb_true_iff in Hr as [H0 Hr].
  pose proof (increment_exact _ H0) as Hi. split; [exact Hi|].
  intros h Ho. rewrite Ho, Hi, nonceInRange_sends in Hr. exact Hr.
Qed.

Lemma sendLoop_planned_prefix fuel i todo nonce c :
  forallb nonceInRange (emitted (sendLoop this interrupts fuel i todo nonce c)) = true ->
  exists k, filter isSend (emitted (sendLoop this interrupts fuel i todo nonce c)) =
            firstn k (plannedSends this i todo nonce).
Proof.
  revert i nonce c; induction todo as [|s rest IH]; intros i nonce c Hr.
  - exists 0; reflexivity.
  - destruct (interrupted c) eqn:Hc.
    { exists 0. cbn [sendLoop]. unfold bind; cbn. rewrite Hc. reflexivity. }
    destruct (success s) eqn:Hs.
    + destruct (sendLoop_confirmed_entry fuel i s rest nonce c Hc Hs) as (He & _).
      rewrite He in Hr |- *. cbn [plannedSends]. rewrite Hs. apply IH, Hr.
    + destruct (sendLoop_inRange fuel i s rest nonce c Hc Hs Hr) as (Hi & Hr').
      destruct (sendLoop_unconfirmed fuel i s rest nonce c Hc Hs) as (-> & _).
      cbn [plannedSends]. rewrite Hs, Hi.
      destruct (outcome (sendTx _ _ _ _ _ _)) as [h| |].
      * destruct (IH (S i) (nonce + 1)%N
                     (clock (sendTx this interrupts fuel (tx s) (sendOptions this nonce) c))
                     (Hr' h eq_refl))
          as (k & ->).
        exists (S k); reflexivity.
      * exists 1; reflexivity.
      * exists 1; reflexivity.
Qed.

Lemma sendLoop_planned_all fuel i todo nonce c todo' :
  forallb nonceInRange (emitted (sendLoop this interrupts fuel i todo nonce c)) = true ->
  outcome (sendLoop this interrupts fuel i todo nonce c) = Returned todo' ->
  interrupted (clock (sendLoop this interrupts fuel i todo nonce c)) = false ->
  filter isSend (emitted (sendLoop this interrupts fuel i todo nonce c)) =
  plannedSends this i todo nonce.
Proof.
  revert i nonce c todo'; induction todo as [|s rest IH]; intros i nonce c todo' Hr Ho Hc'.
  - reflexivity.
  - destruct (interrupted c) eqn:Hc.
    { exfalso. revert Hc'. cbn [sendLoop]. unfold bind; cbn. rewrite Hc. cbn. congruence. }
    destruct (success s) eqn:Hs.
    + destruct (sendLoop_confirmed_entry fuel i s rest nonce c Hc Hs) as (He & Hk & Hr0).
      rewrite He in Hr |- *. rewrite Hk in Hc'. destruct (Hr0 _ Ho) as (rest' & Ho').
      cbn [plannedSends]. rewrite Hs. eauto.
    + destruct (sendLoop_inRange fuel i s rest nonce c Hc Hs Hr) as (Hi & Hr').
      destruct (sendLoop_unconfirmed fuel i s rest nonce c Hc Hs) as (He & Hr0).
      rewrite Hi in He, Hr0. rewrite He.
      destruct (Hr0 _ Ho) as (h & rest' & Ho1 & Ho2 & Hk).
      rewrite Ho1. cbn [plannedSends]. rewrite Hs. f_equal.
      rewrite Hk in Hc'. eapply IH; eauto.
Qed.
End Planned.

Section Shape3.
Variable this : RollupPublisher.
Variable interrupts : nat -> bool.

Lemma mainLoop_shape fuel rollup gas signer : forall sts c b sts',
  outcome (mainLoop this interrupts fuel rollup gas signer sts c) = Returned (b, sts') ->
  map tx sts' = map tx sts /\
  (b = true -> Forall (fun s => success s = true) sts').
Proof.
  induction fuel as [|fuel IH]; intros sts c b sts' H; [discriminate|].
  cbn [mainLoop] in H.
  apply bind_returned in H as (stop & _ & H).
  destruct stop; [cbn in H; injection H as <- <-; split; [auto|discriminate]|].
  apply bind_returned in H as ([sts1|] & H1 & H);
    [|cbn in H; injection H as <- <-; split; [auto|discriminate]].
  apply sendBatch_shape in H1 as [E1 _].
  apply bind_returned in H as ([ex sts2] & H2 & H).
  apply confirmBatch_shape in H2 as (E2 & _ & HA).
  destruct ex; cbn in H.
  - injection H as <- <-. split; [congruence|auto].
  - injection H as <- <-. split; [congruence|discriminate].
  - apply IH in H as [E3 HB]. split; [congruence|auto].
Qed.

Lemma publishRollup_statuses_shape fuel rollup gas c b sts :
  outcome (publishRollup_statuses this interrupts fuel rollup gas c) = Returned (b, sts) ->
  exists rt, outcome (createTxData this interrupts rollup c) = Returned rt /\
    map tx sts = offchainDataTxs rt ++ [rollupProofTx rt] /\
    (b = true -> Forall (fun s => success s = true) sts).
Proof.
  unfold publishRollup_statuses. intros H.
  apply bind_returned in H as (u & _ & H). cbn [mark clock] in H.
  apply bind_returned in H as (rt & Hrt & H).
  apply bind_returned in H as (u' & _ & H).
  apply bind_returned in H as (accounts & _ & H).
  apply mainLoop_shape in H as [E HB].
  exists rt. rewrite E, initialStatuses_tx. auto.
Qed.
End Shape3.


Lemma lastStatus_some sts : sts <> [] -> exists s, lastStatus sts = Some s.
Proof.
  intros H. unfold lastStatus.
  destruct (nth_error sts (List.length sts - 1)) eqn:E; [eauto|].
  apply nth_error_None in E. destruct sts; [congruence|]. cbn in E. lia.
Qed.

Lemma map_tx_nonempty (sts sts' : list TxStatus) :
  map tx sts' = map tx sts -> sts <> [] -> sts' <> [].
Proof. destruct sts, sts'; cbn; congruence. Qed.

(** ** Confirmed entries are not sent again *)

Lemma covered_same_success i todo todo' conf :
  covered i todo conf -> map success todo' = map success todo -> covered i todo' conf.
Proof.
  intros H E j Hj. destruct (H j Hj) as [Hlt|(s & Hn & Hs)]; [left; exact Hlt|right].
  assert (Hm : nth_error (map success todo') (j - i) = Some true).
  { rewrite E, nth_error_map, Hn. cbn. rewrite Hs. reflexivity. }
  rewrite nth_error_map in Hm.
  destruct (nth_error todo' (j - i)) as [s'|]; [|discriminate].
  exists s'. split; [reflexivity|]. cbn in Hm. congruence.
Qed.

Lemma covered_tail i s rest conf :
  covered i (s :: rest) conf -> covered (S i) rest conf.
Proof.
  intros H j Hj. destruct (H j Hj) as [Hlt|(s' & Hn & Hs)]; [left; lia|].
  destruct (j - i) as [|k] eqn:E; [left; lia|].
  right. exists s'. replace (j - S i) with k by lia. auto.
Qed.

Lemma covered_cons i s rest conf :
  success s = true -> covered (S i) rest conf -> covered i (s :: rest) conf.
Proof.
  intros Hs H j Hj. destruct (Nat.lt_ge_cases j i) as [Hlt|Hge]; [left; exact Hlt|right].
  destruct (Nat.eq_dec j i) as [->|Hne].
  - exists s. rewrite Nat.sub_diag. auto.
  - destruct (H j Hj) as [Hlt|(s' & Hn & Hs')]; [lia|].
    exists s'. replace (j - i) with (S (j - S i)) by lia. auto.
Qed.

Lemma covered_unsent i s rest conf :
  covered i (s :: rest) conf -> success s = false -> existsb (Nat.eqb i) conf = false.
Proof.
  intros H Hs. destruct (existsb (Nat.eqb i) conf) eqn:E; [|reflexivity].
  apply existsb_exists in E as (j & Hj & Hij). apply Nat.eqb_eq in Hij. subst j.
  destruct (H i Hj) as [Hlt|(s' & Hn & Hs')]; [lia|].
  rewrite Nat.sub_diag in Hn. cbn in Hn. congruence.
Qed.

Section ConfirmedProofs.
Variable this : RollupPublisher.
Variable interrupts : nat -> bool.

Lemma confirmed_quiet (conf : list nat) (P : Event -> bool) :
  (forall e, P e = true -> isSend e = false /\ isSuccess e = false) ->
  preserves confirmedStep (eq conf) P.
Proof.
  intros HP s' e <- He. apply HP in He as [H1 H2].
  exists conf; split; auto. destruct e; try discriminate; reflexivity.
Qed.

Lemma sendLoop_confirmed fuel i todo nonce c conf :
  covered i todo conf ->
  sat confirmedStep conf (sendLoop this interrupts fuel i todo nonce c)
      (fun _ _ conf' => conf' = conf).
Proof.
  revert i nonce c; induction todo as [|s rest IH]; intros i nonce c Hcov.
  - apply sat_ret; auto.
  - cbn [sendLoop]. apply sat_bind, sat_isInterrupted.
    destruct (interrupted c); [apply sat_ret; auto|].
    destruct (success s) eqn:Hs.
    + apply sat_bind. eapply sat_weaken; [apply IH; eapply covered_tail; eauto|].
      cbv beta. intros [rest'| |] c' s' ->; auto. apply sat_ret; auto.
    + apply sat_bind. eapply sat_mark.
      { cbn. rewrite (covered_unsent _ _ _ _ Hcov Hs). reflexivity. }
      apply sat_bind. eapply sat_weaken.
      * eapply sat_emits with (I := eq conf) (P := attemptEvent);
          [ | apply sendTx_emits | reflexivity ].
        apply confirmed_quiet. by_event.
      * cbv beta. intros o c' s' (<- & -> & ->).
        destruct (outcome (sendTx _ _ _ _ _ _)); auto.
        apply sat_bind. eapply sat_weaken; [apply IH; eapply covered_tail; eauto|].
        cbv beta. intros [rest'| |] c'' s'' ->; auto. apply sat_ret; auto.
Qed.

Lemma receiptLoop_confirmed fuel i todo c conf :
  covered i todo conf ->
  sat confirmedStep conf (receiptLoop this interrupts fuel i todo c)
      (fun o _ conf' => forall ex todo', o = Returned (ex, todo') -> covered i todo' conf').
Proof.
  revert i c conf; induction todo as [|s rest IH]; intros i c conf Hcov.
  - apply sat_ret. intros ex todo' [= <- <-]. exact Hcov.
  - cbn [receiptLoop]. destruct (success s) eqn:Hs.
    + apply sat_bind. eapply sat_weaken; [apply IH; eapply covered_tail; eauto|].
      cbv beta. intros [[ex rest']| |] c' s' H; try (intros; discriminate).
      apply sat_ret. cbn. intros ex' todo' [= <- <-].
      apply covered_cons; eauto.
    + apply sat_bind. eapply sat_weaken.
      * eapply sat_emits with (I := eq conf) (P := receiptEvent);
          [ | apply getTransactionReceipt_emits | reflexivity ].
        apply confirmed_quiet. by_event.
      * cbv beta. intros o c' s' (<- & -> & ->).
        destruct (outcome (getTransactionReceipt _ _ _ _ _)) as [[r|]| |];
          try (intros; discriminate).
        2:{ apply sat_ret. intros ex todo' [= <- <-]. exact Hcov. }
        assert (Hsleep : forall c1,
                  sat confirmedStep conf
                    ((sleepOrInterrupted interrupts 60000 ;; ret (ContinueMainLoop, s :: rest)) c1)
                    (fun o _ conf' => forall ex todo',
                         o = Returned (ex, todo') -> covered i todo' conf')).
        { intros c1. apply sat_bind. eapply sat_await; [reflexivity|].
          apply sat_ret. intros ex todo' [= <- <-]. exact Hcov. }
        destruct (status r).
        -- apply sat_bind. eapply sat_mark; [reflexivity|].
           apply sat_bind. eapply sat_weaken.
           ++ apply IH. intros j [<-|Hj]; [left; lia|].
              eapply covered_tail; eauto.
           ++ cbv beta. intros [[ex rest']| |] c'' s'' H; try (intros; discriminate).
              apply sat_ret. cbn. intros ex' todo' [= <- <-].
              apply covered_cons; eauto.
        -- destruct (revertError r) as [e|]; [destruct (String.eqb _ _)|]; auto.
           apply sat_ret. intros ex todo' [= <- <-]. exact Hcov.
Qed.

Lemma sendBatch_confirmed fuel gas signer sts c conf :
  covered 0 sts conf ->
  sat confirmedStep conf (sendBatch this interrupts fuel gas signer sts c)
      (fun _ _ conf' => conf' = conf).
Proof.
  intros Hcov. unfold sendBatch. apply sat_bind. eapply sat_weaken.
  - eapply sat_emits with (I := eq conf) (P := gateEvent);
      [ | apply gate_emits | reflexivity ].
    apply confirmed_quiet. by_event.
  - cbv beta. intros o c' s' (<- & -> & ->).
    destruct (outcome _); auto.
    apply sat_bind, sat_isInterrupted.
    destruct (interrupted _); [apply sat_ret; auto|].
    apply sat_bind, sat_await_any.
    intros [n|e] _; eexists; (split; [reflexivity|]); auto.
    apply sat_bind. eapply sat_weaken; [apply sendLoop_confirmed, Hcov|].
    cbv beta. intros [x| |] ? ? ->; auto. apply sat_ret; auto.
Qed.

Lemma confirmBatch_confirmed fuel rollup sts c conf :
  covered 0 sts conf ->
  sat confirmedStep conf (confirmBatch this interrupts fuel rollup sts c)
      (fun o _ conf' => forall ex sts', o = Returned (ex, sts') -> covered 0 sts' conf').
Proof.
  intros Hcov. unfold confirmBatch.
  destruct (existsb _ _).
  { apply sat_ret. intros ex sts' [= <- <-]. exact Hcov. }
  destruct (lastStatus sts); [|apply sat_throw; intros; discriminate].
  apply sat_bind, sat_await_any.
  intros [u|e] _; eexists; (split; [reflexivity|]); try (intros; discriminate).
  apply sat_bind. eapply sat_weaken; [apply receiptLoop_confirmed, Hcov|].
  cbv beta. intros [[ex sts']| |] c' conf' H; try (intros; discriminate).
  destruct ex; cbn [fst].
  - apply sat_bind. eapply sat_mark; [reflexivity|].
    apply sat_ret. intros ex sts2 [= <- <-]. eauto.
  - apply sat_ret. intros ex sts2 [= <- <-]. eauto.
  - apply sat_ret. intros ex sts2 [= <- <-]. eauto.
Qed.

Lemma mainLoop_confirmed fuel rollup gas signer : forall sts c conf,
  covered 0 sts conf ->
  sat confirmedStep conf (mainLoop this interrupts fuel rollup gas signer sts c)
      (fun _ _ _ => True).
Proof.
  induction fuel as [|fuel IH]; intros sts c conf Hcov.
  - apply sat_running; auto.
  - cbn [mainLoop]. apply sat_bind, sat_isInterrupted.
    destruct (interrupted c); [apply sat_ret; auto|].
    apply sat_bind. eapply sat_weaken.
    + apply sat_run, sendBatch_confirmed, Hcov.
    + cbv beta. intros [[sts1|]| |] c1 s1 (-> & E1 & ->); auto; [|apply sat_ret; auto].
      symmetry in E1. apply sendBatch_shape in E1 as [_ E1].
      apply sat_bind. eapply sat_weaken.
      * apply confirmBatch_confirmed. eapply covered_same_success; eauto.
      * cbv beta. intros [[ex sts2]| |] c2 s2 H; auto.
        destruct ex; cbn [fst snd]; try (apply sat_ret; auto).
        apply IH. eauto.
Qed.

Lemma publishRollup_confirmed fuel rollup gas c :
  sat confirmedStep [] (publishRollup_statuses this interrupts fuel rollup gas c)
      (fun _ _ _ => True).
Proof.
  unfold publishRollup_statuses.
  apply sat_bind. eapply sat_mark; [reflexivity|].
  apply sat_bind. eapply sat_weaken.
  - eapply sat_emits with (I := eq []) (P := createEvent);
      [ | apply createTxData_emits | reflexivity ].
    apply confirmed_quiet. by_event.
  - cbv beta. intros o c' s' (<- & -> & ->).
    destruct (outcome (createTxData _ _ _ _)) as [rt| |]; auto.
    apply sat_bind, sat_await_any. intros [u|e] _; eexists; (split; [reflexivity|]); auto.
    apply sat_bind, sat_await_any. intros [accounts|e] _; eexists; (split; [reflexivity|]); auto.
    apply mainLoop_confirmed. intros j [].
Qed.
End ConfirmedProofs.

Lemma confirmed_grows t : forall conf conf' i,
  accepts confirmedStep conf t = Some conf' -> In i conf -> In i conf'.
Proof.
  induction t as [|e t IH]; intros conf conf' i H Hi.
  - injection H as <-. exact Hi.
  - cbn [accepts] in H. destruct (confirmedStep conf e) as [c1|] eqn:E; [|discriminate].
    eapply IH; [exact H|].
    destruct e; cbn in E; try (injection E as <-; auto; fail).
    + destruct (existsb _ _); [discriminate|]. injection E as <-. auto.
    + injection E as <-. right; auto.
Qed.

Lemma confirmed_not_sent t : forall conf conf' i d o,
  accepts confirmedStep conf t = Some conf' -> In i conf -> ~ In (EvSend i d o) t.
Proof.
  induction t as [|e t IH]; intros conf conf' i d o H Hi Hin; [destruct Hin|].
  cbn [accepts] in H. destruct (confirmedStep conf e) as [c1|] eqn:E; [|discriminate].
  destruct Hin as [->|Hin].
  - cbn in E. destruct (existsb (Nat.eqb i) conf) eqn:Hex; [discriminate|].
    assert (existsb (Nat.eqb i) conf = true); [|congruence].
    apply existsb_exists. exists i. split; auto. apply Nat.eqb_refl.
  - eapply IH; [exact H| |exact Hin].
    eapply (confirmed_grows [e]); [|exact Hi]. cbn. rewrite E. reflexivity.
Qed.

(** ** Fatal receipts end the call *)

Lemma fatal_quiet (P : Event -> bool) :
  (forall e, P e = true -> fatalReceipt e = false) ->
  preserves fatalStep (eq false) P.
Proof.
  intros HP s e <- He. exists false. split; auto.
  unfold fatalStep. rewrite (HP e He). reflexivity.
Qed.

Lemma stateHashChanged_true r :
  stateHashChanged r = true ->
  status r = false /\
  exists e, revertError r = Some e /\ String.eqb (name e) INCORRECT_STATE_HASH = true.
Proof.
  unfold stateHashChanged. intros H. apply andb_true_iff in H as [H1 H2].
  apply negb_true_iff in H1. split; auto.
  destruct (revertError r) as [e|]; [eauto|discriminate].
Qed.

Lemma forallb_impl (P Q : Event -> bool) (t : list Event) :
  (forall e, P e = true -> Q e = true) -> forallb P t = true -> forallb Q t = true.
Proof.
  intros HPQ Ht. apply forallb_forall. intros e He.
  rewrite forallb_forall in Ht. auto.
Qed.

Section Emits3.
Variable this : RollupPublisher.
Variable interrupts : nat -> bool.

Lemma sendLoop_emits fuel i todo : forall nonce c,
  forallb batchEvent (emitted (sendLoop this interrupts fuel i todo nonce c)) = true.
Proof.
  revert i; induction todo as [|s rest IH]; intros i nonce c; [reflexivity|].
  cbn [sendLoop]. rewrite bind_run; cbn.
  destruct (interrupted c); [reflexivity|].
  destruct (success s).
  - rewrite bind_run. destruct (outcome (sendLoop _ _ _ _ _ _ _)); cbn;
      rewrite ?app_nil_r; apply IH.
  - rewrite bind_run; cbn. rewrite bind_run.
    assert (Hs : forall c', forallb batchEvent
               (emitted (sendTx this interrupts fuel (tx s) (sendOptions this nonce) c')) = true).
    { intros c'. eapply forallb_impl; [|apply sendTx_emits].
      intros e He. unfold batchEvent. rewrite He. apply orb_true_r. }
    destruct (outcome (sendTx _ _ _ _ _ _)); cbn; rewrite ?Hs; auto.
    rewrite bind_run, forallb_app, Hs.
    destruct (outcome (sendLoop _ _ _ _ _ _ _)); cbn;
      rewrite ?app_nil_r; apply IH.
Qed.

Lemma sendBatch_emits fuel gas signer sts c :
  forallb batchEvent (emitted (sendBatch this interrupts fuel gas signer sts c)) = true.
Proof.
  unfold sendBatch. rewrite bind_run.
  assert (Hg : forall c', forallb batchEvent
             (emitted (awaitGasPriceBelowThresholdAndSufficientBalance
                         this interrupts fuel signer gas c')) = true).
  { intros c'. eapply forallb_impl; [|apply gate_emits].
    intros e He. unfold batchEvent. rewrite He. reflexivity. }
  destruct (outcome (awaitGasPriceBelowThresholdAndSufficientBalance _ _ _ _ _ _));
    cbn [emitted]; auto.
  rewrite forallb_app, Hg. rewrite bind_run; cbn.
  destruct (interrupted _); [reflexivity|].
  rewrite bind_run; cbn.
  destruct (EthereumRpc.getTransactionCount _ _ _); cbn; [|reflexivity].
  rewrite bind_run.
  destruct (outcome (sendLoop _ _ _ _ _ _ _)); cbn;
    rewrite ?app_nil_r; apply sendLoop_emits.
Qed.
End Emits3.

Section FatalProofs.
Variable this : RollupPublisher.
Variable interrupts : nat -> bool.

Lemma getTransactionReceipt_fatal fuel h : forall c,
  sat fatalStep false (getTransactionReceipt this interrupts fuel h c)
      (fun o _ dead =>
         (dead = true ->
          o = Returned None \/ exists r, o = Returned (Some r) /\ stateHashChanged r = true) /\
         (dead = false -> forall r, o = Returned (Some r) -> stateHashChanged r = false)).
Proof.
  induction fuel as [|fuel IH]; intros c.
  - apply sat_running. split; intros; discriminate.
  - cbn [getTransactionReceipt]. apply sat_bind, sat_isInterrupted.
    destruct (interrupted c).
    { apply sat_ret. split; intros; discriminate. }
    apply sat_try_catch, sat_await_any.
    intros [[r|]|e] _; eexists; (split; [reflexivity|]); cbv beta iota.
    + cbn [fatalReceipt]. split.
      * intros Hd. right. exists r. auto.
      * intros Hd r' [= <-]. exact Hd.
    + split; [auto|discriminate].
    + apply sat_bind. eapply sat_await; [reflexivity|]. apply IH.
Qed.

Lemma receiptLoop_fatal fuel i todo : forall c,
  sat fatalStep false (receiptLoop this interrupts fuel i todo c)
      (fun o _ dead => dead = true -> exists todo', o = Returned (ReturnFalse, todo')).
Proof.
  revert i; induction todo as [|s rest IH]; intros i c.
  - apply sat_ret. discriminate.
  - cbn [receiptLoop]. destruct (success s).
    + apply sat_bind. eapply sat_weaken; [apply IH|].
      cbv beta. intros [[ex rest']| |] c' dead H.
      * destruct dead.
        -- destruct (H eq_refl) as (todo' & [= -> ->]).
           apply sat_ret. eauto.
        -- apply sat_ret. discriminate.
      * intros Hd. destruct (H Hd) as (? & ?). discriminate.
      * intros Hd. destruct (H Hd) as (? & ?). discriminate.
    + apply sat_bind. eapply sat_weaken; [apply getTransactionReceipt_fatal|].
      cbv beta. intros o c' dead [H1 H2]. destruct dead.
      * destruct (H1 eq_refl) as [->|(r & -> & Hr)].
        -- apply sat_ret. eauto.
        -- apply stateHashChanged_true in Hr as (Hs & e & He & Hn).
           rewrite Hs, He, Hn. apply sat_ret. eauto.
      * destruct o as [[r|]| |]; try discriminate.
        2:{ apply sat_ret. discriminate. }
        pose proof (H2 eq_refl r eq_refl) as Hr.
        unfold stateHashChanged in Hr.
        destruct (status r); cbn in Hr.
        -- apply sat_bind. eapply sat_mark; [reflexivity|].
           apply sat_bind. eapply sat_weaken; [apply IH|].
           cbv beta. intros [[ex rest']| |] c'' dead H.
           ++ destruct dead.
              ** destruct (H eq_refl) as (todo' & [= -> ->]). apply sat_ret. eauto.
              ** apply sat_ret. discriminate.
           ++ intros Hd. destruct (H Hd) as (? & ?). discriminate.
           ++ intros Hd. destruct (H Hd) as (? & ?). discriminate.
        -- destruct (revertError r) as [e|]; [rewrite Hr|];
             (apply sat_bind; eapply sat_await; [reflexivity|];
              apply sat_ret; discriminate).
Qed.

Lemma confirmBatch_fatal fuel rollup sts c :
  sat fatalStep false (confirmBatch this interrupts fuel rollup sts c)
      (fun o _ dead => dead = true -> exists sts', o = Returned (ReturnFalse, sts')).
Proof.
  unfold confirmBatch. destruct (existsb _ _); [apply sat_ret; discriminate|].
  destruct (lastStatus sts); [|apply sat_throw; discriminate].
  apply sat_bind, sat_await_any.
  intros [u|e] _; eexists; (split; [reflexivity|]); try discriminate.
  apply sat_bind. eapply sat_weaken; [apply receiptLoop_fatal|].
  cbv beta. intros [[ex sts']| |] c' dead H.
  - destruct dead.
    + destruct (H eq_refl) as (todo' & [= -> ->]). cbn [fst]. apply sat_ret. eauto.
    + destruct ex; cbn [fst]; try (apply sat_ret; discriminate).
      apply sat_bind. eapply sat_mark; [reflexivity|]. apply sat_ret; discriminate.
  - intros Hd. destruct (H Hd) as (? & ?). discriminate.
  - intros Hd. destruct (H Hd) as (? & ?). discriminate.
Qed.

Lemma sendBatch_fatal fuel gas signer sts c :
  sat fatalStep false (sendBatch this interrupts fuel gas signer sts c)
      (fun o c' dead =>
         dead = false /\
         o = outcome (sendBatch this interrupts fuel gas signer sts c) /\
         c' = clock (sendBatch this interrupts fuel gas signer sts c)).
Proof.
  eapply sat_weaken.
  - eapply sat_emits with (I := eq false) (P := batchEvent);
      [ | apply sendBatch_emits | reflexivity ].
    apply fatal_quiet. by_event.
  - cbv beta. intros o c' dead (<- & -> & ->). auto.
Qed.

Lemma mainLoop_fatal fuel rollup gas signer : forall sts c,
  sat fatalStep false (mainLoop this interrupts fuel rollup gas signer sts c)
      (fun o _ dead => dead = true -> exists sts', o = Returned (false, sts')).
Proof.
  induction fuel as [|fuel IH]; intros sts c.
  - apply sat_running. discriminate.
  - cbn [mainLoop]. apply sat_bind, sat_isInterrupted.
    destruct (interrupted c); [apply sat_ret; discriminate|].
    apply sat_bind. eapply sat_weaken; [apply sendBatch_fatal|].
    cbv beta. intros o c1 dead (-> & _ & _).
    destruct o as [[sts1|]| |]; try discriminate; [|apply sat_ret; discriminate].
    apply sat_bind. eapply sat_weaken; [apply confirmBatch_fatal|].
    cbv beta. intros [[ex sts2]| |] c2 dead H.
    + destruct dead.
      * destruct (H eq_refl) as (sts' & [= -> ->]). cbn [fst snd].
        apply sat_ret. eauto.
      * destruct ex; cbn [fst snd]; try (apply sat_ret; discriminate). apply IH.
    + intros Hd. destruct (H Hd) as (? & ?). discriminate.
    + intros Hd. destruct (H Hd) as (? & ?). discriminate.
Qed.

Lemma publishRollup_fatal fuel rollup gas c :
  sat fatalStep false (publishRollup this interrupts fuel rollup gas c)
      (fun o _ dead => dead = true -> o = Returned false).
Proof.
  unfold publishRollup, publishRollup_statuses.
  apply sat_bind, sat_bind. eapply sat_mark; [reflexivity|].
  apply sat_bind. eapply sat_weaken.
  - eapply sat_emits with (I := eq false) (P := createEvent);
      [ | apply createTxData_emits | reflexivity ].
    apply fatal_quiet. by_event.
  - cbv beta. intros o c' s' (<- & -> & ->).
    destruct (outcome (createTxData _ _ _ _)) as [rt| |]; try discriminate.
    apply sat_bind, sat_await_any.
    intros [u|e] _; eexists; (split; [reflexivity|]); try discriminate.
    apply sat_bind, sat_await_any.
    intros [accounts|e] _; eexists; (split; [reflexivity|]); try discriminate.
    eapply sat_weaken; [apply mainLoop_fatal|].
    cbv beta. intros [[b sts]| |] c2 dead H.
    + destruct dead.
      * destruct (H eq_refl) as (sts' & [= -> ->]). apply sat_ret. reflexivity.
      * apply sat_ret. discriminate.
    + intros Hd. destruct (H Hd) as (? & ?). discriminate.
    + intros Hd. destruct (H Hd) as (? & ?). discriminate.
Qed.
End FatalProofs.

Lemma fatal_is_last pre e post dead :
  accepts fatalStep false (pre ++ e :: post) = Some dead ->
  fatalReceipt e = true -> post = [] /\ dead = true.
Proof.
  intros H He. rewrite accepts_app in H.
  destruct (accepts fatalStep false pre) as [[|]|] eqn:E; try discriminate.
  cbn in H. rewrite He in H.
  destruct post as [|e' post]; [|discriminate].
  injection H as <-. auto.
Qed.


(** ** What is thrown *)

Lemma doesNotThrow_bind A B (m : M A) (f : A -> M B) (c : Clock) :
  doesNotThrow (m c) ->
  (forall a, outcome (m c) = Returned a -> doesNotThrow (f a (clock (m c)))) ->
  doesNotThrow (bind m f c).
Proof.
  intros Hm Hf e. rewrite bind_run.
  destruct (outcome (m c)) as [a|e'|] eqn:E; cbn.
  - apply Hf; reflexivity.
  - exfalso. exact (Hm e' E).
  - discriminate.
Qed.

Lemma doesNotThrow_try_catch A (m : M A) (h : JsError -> M A) (c : Clock) :
  (forall e, outcome (m c) = Thrown e -> doesNotThrow (h e (clock (m c)))) ->
  doesNotThrow (try_catch m h c).
Proof.
  intros Hh e. unfold try_catch.
  destruct (outcome (m c)) as [a|e'|] eqn:E; cbn; try (rewrite E; discriminate).
  apply Hh; reflexivity.
Qed.

Lemma doesNotThrow_ret A (a : A) (c : Clock) : doesNotThrow (ret a c).
Proof. intros e; discriminate. Qed.

Lemma doesNotThrow_await A interrupts (ask : nat -> Res A) (ev : Res A -> Event) (c : Clock) :
  (forall e, ask (tick c) <> Err e) -> doesNotThrow (await interrupts ask ev c).
Proof. intros H e. cbn. destruct (ask (tick c)) eqn:E; [discriminate|]. exfalso; eapply H; eauto. Qed.

Section NoThrow.
Variable this : RollupPublisher.
Variable interrupts : nat -> bool.
Hypothesis ok : CollaboratorsDoNotThrow this.

Lemma sleep_no_throw ms c : doesNotThrow (sleepOrInterrupted interrupts ms c).
Proof. intros e; discriminate. Qed.

Lemma gate_no_throw fuel a (gas : Z) : forall c,
  doesNotThrow (awaitGasPriceBelowThresholdAndSufficientBalance this interrupts fuel (Some a) gas c).
Proof.
  induction fuel as [|fuel IH]; intros c; [intros e; discriminate|].
  cbn [awaitGasPriceBelowThresholdAndSufficientBalance].
  apply doesNotThrow_bind; [intros e; discriminate|]. intros stop _.
  destruct stop; [apply doesNotThrow_ret|].
  apply doesNotThrow_bind; [apply doesNotThrow_await, (getBlockByNumber_ok _ ok)|].
  intros fee _.
  apply doesNotThrow_bind.
  { apply doesNotThrow_await. intros e. apply (getBalance_ok _ ok). }
  intros bal _. cbn [BigInt].
  apply doesNotThrow_bind; [apply doesNotThrow_ret|]. intros _ _.
  destruct (_ >? _)%Z; [|destruct (_ <? _)%Z]; try apply doesNotThrow_ret;
    (apply doesNotThrow_bind; [apply sleep_no_throw | intros; apply IH]).
Qed.

Lemma collectSignatures_no_throw jsTxs : forall sigs c,
  doesNotThrow (collectSignatures this interrupts jsTxs sigs c).
Proof.
  induction jsTxs as [|t rest IH]; intros sigs c; [apply doesNotThrow_ret|].
  cbn [collectSignatures].
  destruct (fromBuffer this (proofData t)) as [[owner txId]|e] eqn:E.
  2:{ exfalso. eapply (fromBuffer_ok _ ok); eauto. }
  apply doesNotThrow_bind.
  { apply doesNotThrow_await. intros e. apply (getUserProofApprovalStatus_ok _ ok). }
  intros approval _. destruct approval; [apply IH|].
  destruct (signature t); apply IH.
Qed.

Lemma createTxData_no_throw rollup c :
  doesNotThrow (createTxData this interrupts rollup c).
Proof.
  unfold createTxData.
  apply doesNotThrow_bind; [apply collectSignatures_no_throw|]. intros sigs _.
  apply doesNotThrow_await. intros e. apply (createRollupTxs_ok _ ok).
Qed.

Lemma sendTx_no_throw fuel data o : forall c,
  doesNotThrow (sendTx this interrupts fuel data o c).
Proof.
  induction fuel as [|fuel IH]; intros c; [intros e; discriminate|].
  cbn [sendTx].
  apply doesNotThrow_bind; [intros e; discriminate|]. intros stop _.
  destruct stop; [apply doesNotThrow_ret|].
  apply doesNotThrow_try_catch. intros e He.
  rewrite bind_run in He. cbn in He.
  destruct (Blockchain.sendTx _ _ _ _) as [h|e'] eqn:E; [discriminate|].
  cbn in He. injection He as ->.
  pose proof (sendTx_message _ ok _ _ _ _ E) as Hm.
  destruct (message e); [|congruence].
  apply doesNotThrow_bind; [apply sleep_no_throw | intros; apply IH].
Qed.

Lemma getTransactionReceipt_no_throw fuel h : forall c,
  doesNotThrow (getTransactionReceipt this interrupts fuel h c).
Proof.
  induction fuel as [|fuel IH]; intros c; [intros e; discriminate|].
  cbn [getTransactionReceipt].
  apply doesNotThrow_bind; [intros e; discriminate|]. intros stop _.
  destruct stop; [apply doesNotThrow_ret|].
  apply doesNotThrow_try_catch. intros e He.
  apply doesNotThrow_bind; [apply sleep_no_throw | intros; apply IH].
Qed.

Lemma sendLoop_no_throw fuel i todo : forall nonce c,
  doesNotThrow (sendLoop this interrupts fuel i todo nonce c).
Proof.
  revert i; induction todo as [|s rest IH]; intros i nonce c; [apply doesNotThrow_ret|].
  cbn [sendLoop].
  apply doesNotThrow_bind; [intros e; discriminate|]. intros stop _.
  destruct stop; [apply doesNotThrow_ret|].
  destruct (success s).
  - apply doesNotThrow_bind; [apply IH|]. intros; apply doesNotThrow_ret.
  - apply doesNotThrow_bind; [intros e; discriminate|]. intros _ _.
    apply doesNotThrow_bind; [apply sendTx_no_throw|]. intros h _.
    apply doesNotThrow_bind; [apply IH|]. intros; apply doesNotThrow_ret.
Qed.

Lemma receiptLoop_no_throw fuel i todo : forall c,
  doesNotThrow (receiptLoop this interrupts fuel i todo c).
Proof.
  revert i; induction todo as [|s rest IH]; intros i c; [apply doesNotThrow_ret|].
  cbn [receiptLoop]. destruct (success s).
  - apply doesNotThrow_bind; [apply IH|]. intros; apply doesNotThrow_ret.
  - apply doesNotThrow_bind; [apply getTransactionReceipt_no_throw|].
    intros [r|] _; [|apply doesNotThrow_ret].
    destruct (status r).
    + apply doesNotThrow_bind; [intros e; discriminate|]. intros _ _.
      apply doesNotThrow_bind; [apply IH|]. intros; apply doesNotThrow_ret.
    + destruct (revertError r) as [e|]; [destruct (String.eqb _ _)|];
        try apply doesNotThrow_ret;
        (apply doesNotThrow_bind; [apply sleep_no_throw|]; intros; apply doesNotThrow_ret).
Qed.

Lemma sendBatch_no_throw fuel (gas : Z) a sts c :
  doesNotThrow (sendBatch this interrupts fuel gas (Some a) sts c).
Proof.
  unfold sendBatch.
  apply doesNotThrow_bind; [apply gate_no_throw|]. intros _ _.
  apply doesNotThrow_bind; [intros e; discriminate|]. intros stop _.
  destruct stop; [apply doesNotThrow_ret|].
  apply doesNotThrow_bind.
  { apply doesNotThrow_await. intros e. apply (getTransactionCount_ok _ ok). }
  intros nonce _.
  apply doesNotThrow_bind; [apply sendLoop_no_throw|]. intros; apply doesNotThrow_ret.
Qed.

Lemma confirmBatch_no_throw fuel rollup sts c :
  sts <> [] -> doesNotThrow (confirmBatch this interrupts fuel rollup sts c).
Proof.
  intros Hne. unfold confirmBatch.
  destruct (existsb _ _); [apply doesNotThrow_ret|].
  destruct (lastStatus_some sts Hne) as (final & ->).
  apply doesNotThrow_bind.
  { apply doesNotThrow_await. intros e. apply (confirmSent_ok _ ok). }
  intros _ _.
  apply doesNotThrow_bind; [apply receiptLoop_no_throw|].
  intros [ex sts'] _. destruct ex; cbn [fst]; intros e; discriminate.
Qed.

Lemma mainLoop_no_throw fuel rollup (gas : Z) a : forall sts c,
  sts <> [] -> doesNotThrow (mainLoop this interrupts fuel rollup gas (Some a) sts c).
Proof.
  induction fuel as [|fuel IH]; intros sts c Hne; [intros e; discriminate|].
  cbn [mainLoop].
  apply doesNotThrow_bind; [intros e; discriminate|]. intros stop _.
  destruct stop; [apply doesNotThrow_ret|].
  apply doesNotThrow_bind; [apply sendBatch_no_throw|].
  intros [sts1|] H1; [|apply doesNotThrow_ret].
  apply sendBatch_shape in H1 as [E1 _].
  pose proof (map_tx_nonempty _ _ E1 Hne) as Hne1.
  apply doesNotThrow_bind; [apply confirmBatch_no_throw, Hne1|].
  intros [ex sts2] H2. apply confirmBatch_shape in H2 as [E2 _].
  destruct ex; cbn [fst snd]; try apply doesNotThrow_ret.
  apply IH. eapply map_tx_nonempty; eauto.
Qed.

Lemma publishRollup_no_throw fuel rollup (gas : Z) c :
  doesNotThrow (publishRollup this interrupts fuel rollup gas c).
Proof.
  unfold publishRollup, publishRollup_statuses.
  apply doesNotThrow_bind; [|intros; apply doesNotThrow_ret].
  apply doesNotThrow_bind; [intros e; discriminate|]. intros _ _.
  apply doesNotThrow_bind; [apply createTxData_no_throw|]. intros rt _.
  apply doesNotThrow_bind.
  { apply doesNotThrow_await. intros e. apply (setCallData_ok _ ok). }
  intros _ _.
  apply doesNotThrow_bind.
  { apply doesNotThrow_await. intros e.
    destruct (getAccounts_ok _ ok (tick (clock
       (await interrupts (fun n => RollupDb.setCallData (rollupDb this) n (id rollup) (rollupProofTx rt))
          (EvSetCallData (id rollup) (rollupProofTx rt))
          (clock (createTxData this interrupts rollup (clock (mark EvPublishTimer c)))))))) as (a & rest & E).
    rewrite E. discriminate. }
  intros accounts Ha. cbn in Ha.
  destruct (getAccounts_ok _ ok (S (tick (clock (createTxData this interrupts rollup c)))))
    as (a & rest & E).
  rewrite E in Ha. injection Ha as <-. cbn [hd_error].
  apply mainLoop_no_throw.
  unfold initialStatuses. intros H. apply app_eq_nil in H as [_ H]. discriminate.
Qed.
End NoThrow.

(** ** The gate *)

Section Gate.
Variable this : RollupPublisher.
Variable interrupts : nat -> bool.

Let gate := awaitGasPriceBelowThresholdAndSufficientBalance this interrupts.

Lemma gate_poll fuel a (gas : Z) c fee bal :
  interrupted c = false ->
  EthereumRpc.getBlockByNumber (ethereumRpc this) (tick c) = Ok fee ->
  EthereumRpc.getBalance (ethereumRpc this) (S (tick c)) (Some a) = Ok bal ->
  let c2 := {| tick := S (S (tick c));
               interrupted := interrupts (tick c) || interrupts (S (tick c)) |} in
  let c3 := {| tick := S (S (S (tick c)));
               interrupted := interrupts (tick c) || interrupts (S (tick c))
                              || interrupts (S (S (tick c))) |} in
  let polled := [EvGetBlockByNumber (Ok fee); EvGetBalance (Some a) (Ok bal)] in
  gate (S fuel) (Some a) gas c =
  if ((fee + this_maxPriorityFeePerGas this >? this_maxFeePerGas this)%Z
      || (bal <? this_maxFeePerGas this * gas)%Z)%bool
  then {| outcome := outcome (gate fuel (Some a) gas c3);
          clock := clock (gate fuel (Some a) gas c3);
          emitted := polled ++ EvSleep 60000 :: emitted (gate fuel (Some a) gas c3) |}
  else {| outcome := Returned tt; clock := c2; emitted := polled |}.
Proof.
  intros Hc Hfee Hbal c2 c3 polled. unfold gate.
  cbn [awaitGasPriceBelowThresholdAndSufficientBalance].
  rewrite bind_run; cbn -[bind]. rewrite Hc.
  rewrite bind_run; cbn -[bind]. rewrite Hfee; cbn -[bind].
  rewrite bind_run; cbn -[bind]. rewrite Hbal; cbn -[bind].
  rewrite bind_run; cbn -[bind]. rewrite Hc. cbn [orb]. fold c2.
  destruct (_ >? _)%Z; cbn [orb].
  - rewrite bind_run; cbn -[bind]. fold c3. reflexivity.
  - destruct (_ <? _)%Z; [|reflexivity].
    rewrite bind_run; cbn -[bind]. fold c3. reflexivity.
Qed.

Lemma gate_returns_clear fuel a (gas : Z) : forall c,
  outcome (gate fuel (Some a) gas c) = Returned tt ->
  interrupted (clock (gate fuel (Some a) gas c)) = false ->
  exists pre fee bal,
    emitted (gate fuel (Some a) gas c) =
    pre ++ [EvGetBlockByNumber (Ok fee); EvGetBalance (Some a) (Ok bal)] /\
    (fee + this_maxPriorityFeePerGas this <= this_maxFeePerGas this)%Z /\
    (this_maxFeePerGas this * gas <= bal)%Z.
Proof.
  induction fuel as [|fuel IH]; intros c; [discriminate|].
  destruct (interrupted c) eqn:Hc.
  { unfold gate. cbn [awaitGasPriceBelowThresholdAndSufficientBalance].
    rewrite bind_run; cbn -[bind]. rewrite Hc. cbn. congruence. }
  destruct (EthereumRpc.getBlockByNumber (ethereumRpc this) (tick c)) as [fee|e] eqn:Hfee.
  2:{ unfold gate. cbn [awaitGasPriceBelowThresholdAndSufficientBalance].
      rewrite bind_run; cbn -[bind]. rewrite Hc.
      rewrite bind_run; cbn -[bind]. rewrite Hfee. discriminate. }
  destruct (EthereumRpc.getBalance (ethereumRpc this) (S (tick c)) (Some a)) as [bal|e] eqn:Hbal.
  2:{ unfold gate. cbn [awaitGasPriceBelowThresholdAndSufficientBalance].
      rewrite bind_run; cbn -[bind]. rewrite Hc.
      rewrite bind_run; cbn -[bind]. rewrite Hfee; cbn -[bind].
      rewrite bind_run; cbn -[bind]. rewrite Hbal. discriminate. }
  rewrite (gate_poll fuel a gas c fee bal Hc Hfee Hbal).
  destruct (_ || _)%bool eqn:Hcond; cbn [outcome clock emitted].
  - intros Ho Hk. destruct (IH _ Ho Hk) as (pre & fee' & bal' & -> & H1 & H2).
    exists ([EvGetBlockByNumber (Ok fee); EvGetBalance (Some a) (Ok bal)]
              ++ EvSleep 60000 :: pre), fee', bal'.
    split; [|auto]. rewrite <- app_assoc. reflexivity.
  - intros _ _. exists [], fee, bal. split; [reflexivity|].
    apply orb_false_iff in Hcond as [H1 H2].
    rewrite Z.gtb_ltb in H1. apply Z.ltb_ge in H1. apply Z.ltb_ge in H2. auto.
Qed.
End Gate.

(** ** Each pass confirms what it sent *)

Lemma bind_emitted A B (m : M A) (f : A -> M B) (c : Clock) :
  emitted (bind m f c) =
  emitted (m c) ++
  match outcome (m c) with
  | Returned a => emitted (f a (clock (m c)))
  | _ => []
  end.
Proof. rewrite bind_run. destruct (outcome (m c)); cbn; rewrite ?app_nil_r; reflexivity. Qed.

Lemma lastStatus_last sts s :
  lastStatus sts = Some s -> exists init, sts = init ++ [s].
Proof.
  unfold lastStatus. intros H.
  assert (Hne : sts <> []) by (intros ->; discriminate).
  destruct (exists_last Hne) as (init & x & ->).
  rewrite length_app in H. cbn in H.
  replace (List.length init + 1 - 1) with (List.length init) in H by lia.
  rewrite nth_error_app2, Nat.sub_diag in H by lia. cbn in H.
  injection H as ->. eauto.
Qed.

Section EachPass.
Variable this : RollupPublisher.
Variable interrupts : nat -> bool.

Lemma mainLoop_confirmSent fuel rollup gas signer sts c sts' :
  interrupted c = false ->
  outcome (sendBatch this interrupts fuel gas signer sts c) = Returned (Some sts') ->
  sts <> [] ->
  existsb hashUndefined sts' = false ->
  exists init final rest,
    sts' = init ++ [final] /\
    emitted (mainLoop this interrupts (S fuel) rollup gas signer sts c) =
    emitted (sendBatch this interrupts fuel gas signer sts c) ++
    EvConfirmSent (id rollup) (txHash final)
      (RollupDb.confirmSent (rollupDb this)
         (tick (clock (sendBatch this interrupts fuel gas signer sts c)))
         (id rollup) (txHash final)) :: rest.
Proof.
  intros Hc Hs Hne Hh.
  pose proof (sendBatch_shape _ _ _ _ _ _ _ _ Hs) as [Etx _].
  destruct (lastStatus_some sts' (map_tx_nonempty _ _ Etx Hne)) as (final & Hl).
  destruct (lastStatus_last _ _ Hl) as (init & Hinit).
  exists init, final. eexists. split; [exact Hinit|].
  cbn [mainLoop]. rewrite bind_emitted. cbn [isInterrupted outcome emitted clock].
  rewrite Hc. rewrite bind_emitted, Hs. cbn [app]. f_equal.
  rewrite bind_emitted. unfold confirmBatch at 1. rewrite Hh, Hl.
  rewrite bind_emitted. cbn [await emitted app]. reflexivity.
Qed.
End EachPass.

(** ** An interrupted publisher *)

Lemma stoppedEarly_bind A B (m : M A) (f : A -> M B) (c : Clock) :
  stoppedEarly (m c) ->
  (forall a, outcome (m c) = Returned a -> stoppedEarly (f a (clock (m c)))) ->
  stoppedEarly (bind m f c).
Proof.
  intros (H1 & H2 & H3) Hf. rewrite bind_run. unfold stoppedEarly.
  destruct (outcome (m c)) as [a|e|] eqn:E; cbn [outcome clock emitted].
  - destruct (Hf a eq_refl) as (F1 & F2 & F3).
    repeat split; auto. rewrite forallb_app, H3, F3. reflexivity.
  - repeat split; auto. discriminate.
  - congruence.
Qed.

Lemma stoppedEarly_await A interrupts (ask : nat -> Res A) (ev : Res A -> Event) (c : Clock) :
  interrupted c = true -> preludeEvent (ev (ask (tick c))) = true ->
  stoppedEarly (await interrupts ask ev c).
Proof.
  intros Hc He. unfold stoppedEarly; cbn. rewrite Hc, He.
  repeat split. destruct (ask (tick c)); discriminate.
Qed.

Section Interrupted.
Variable this : RollupPublisher.
Variable interrupts : nat -> bool.

Lemma collectSignatures_stoppedEarly jsTxs : forall sigs c,
  interrupted c = true -> stoppedEarly (collectSignatures this interrupts jsTxs sigs c).
Proof.
  induction jsTxs as [|t rest IH]; intros sigs c Hc.
  - repeat split; auto. discriminate.
  - cbn [collectSignatures].
    destruct (fromBuffer this (proofData t)) as [[owner txId]|e].
    2:{ repeat split; auto. discriminate. }
    apply stoppedEarly_bind; [apply stoppedEarly_await; auto|].
    intros approval _.
    assert (Hc' : interrupted (clock (await interrupts
              (fun n => Blockchain.getUserProofApprovalStatus (blockchain this) n owner txId)
              (EvGetUserProofApprovalStatus owner txId) c)) = true).
    { cbn. rewrite Hc. reflexivity. }
    destruct approval; [|destruct (signature t)]; apply IH; exact Hc'.
Qed.

Lemma publishRollup_interrupted fuel rollup gas c :
  interrupted c = true ->
  stoppedEarly (publishRollup this interrupts (S fuel) rollup gas c) /\
  outcome (publishRollup this interrupts (S fuel) rollup gas c) <> Returned true.
Proof.
  intros Hc.
  assert (H : stoppedEarly (publishRollup_statuses this interrupts (S fuel) rollup gas c) /\
              forall sts, outcome (publishRollup_statuses this interrupts (S fuel) rollup gas c)
                          <> Returned (true, sts)).
  { unfold publishRollup_statuses. rewrite bind_run. cbn [mark outcome clock emitted].
    set (k := fun rollupTxs : RollupTxs => _).
    assert (Hk : forall rt c1, interrupted c1 = true ->
                   stoppedEarly (k rt c1) /\ forall sts, outcome (k rt c1) <> Returned (true, sts)).
    { intros rt c1 Hc1. unfold k. rewrite bind_run. cbn [await outcome clock emitted].
      destruct (RollupDb.setCallData _ _ _ _) as [u|e].
      2:{ split; [repeat split; cbn; rewrite ?Hc1; auto; discriminate | cbn; discriminate]. }
      rewrite bind_run. cbn [await outcome clock emitted tick].
      destruct (EthereumRpc.getAccounts _ _) as [accounts|e].
      2:{ split; [repeat split; cbn; rewrite ?Hc1; auto; discriminate | cbn; discriminate]. }
      cbn [mainLoop]. rewrite bind_run. cbn. rewrite Hc1. cbn.
      split; [repeat split; cbn; rewrite ?Hc1; auto; discriminate | cbn; discriminate]. }
    assert (Hcr : stoppedEarly (createTxData this interrupts rollup c)).
    { unfold createTxData. apply stoppedEarly_bind.
      - apply collectSignatures_stoppedEarly, Hc.
      - intros sigs _. apply stoppedEarly_await; [|reflexivity].
        apply collectSignatures_stoppedEarly, Hc. }
    destruct Hcr as (C1 & C2 & C3).
    rewrite bind_run. unfold stoppedEarly.
    destruct (outcome (createTxData this interrupts rollup c)) as [rt|e|] eqn:E;
      cbn [outcome clock emitted].
    - destruct (Hk rt _ C1) as ((K1 & K2 & K3) & K4).
      split; [|exact K4]. repeat split; auto.
      rewrite !forallb_app, C3, K3. reflexivity.
    - split; [|discriminate]. repeat split; auto; try discriminate.
    - congruence. }
  destruct H as ((H1 & H2 & H3) & H4).
  rewrite publishRollup_outcome. unfold stoppedEarly.
  rewrite publishRollup_emitted.
  unfold publishRollup. rewrite bind_run.
  destruct (outcome (publishRollup_statuses _ _ _ _ _ _)) as [[b sts]| |] eqn:E;
    cbn [outcome clock emitted ret fst]; repeat split; auto; try discriminate.
  intros [= ->]. eapply H4; reflexivity.
Qed.
End Interrupted.

(** Receipt fetches that always raise. *)
Section Unreachable.
Variable this : RollupPublisher.
Variable interrupts : nat -> bool.
Hypothesis quiet : forall t, interrupts t = false.
Hypothesis raises : forall t h n,
  exists e, Blockchain.getTransactionReceiptSafe (blockchain this) t h n = Err e.
Hypothesis confirms : forall t i h, RollupDb.confirmSent (rollupDb this) t i h = Ok tt.

Lemma unreachable_receipt fuel h : forall c,
  interrupted c = false ->
  outcome (getTransactionReceipt this interrupts fuel h c) = Running.
Proof.
  induction fuel as [|fuel IH]; intros c Hc; [reflexivity|].
  cbn [getTransactionReceipt]. rewrite bind_run. cbn -[bind getTransactionReceipt].
  rewrite Hc. unfold try_catch. cbn -[bind getTransactionReceipt].
  destruct (raises (tick c) h 300%N) as (e & ->).
  rewrite bind_run. cbn -[bind getTransactionReceipt].
  apply IH. cbn. rewrite Hc, !quiet. reflexivity.
Qed.

Lemma unreachable_confirmBatch fuel rollup s rest c :
  success s = false -> interrupted c = false ->
  existsb hashUndefined (s :: rest) = false ->
  outcome (confirmBatch this interrupts fuel rollup (s :: rest) c) = Running.
Proof.
  intros Hs Hc Hh. unfold confirmBatch. rewrite Hh.
  destruct (lastStatus_some (s :: rest)) as (final & ->); [discriminate|].
  rewrite bind_run. cbn [await outcome clock emitted]. rewrite confirms.
  rewrite bind_run. cbn [receiptLoop]. rewrite Hs.
  rewrite bind_run. rewrite unreachable_receipt; [reflexivity|].
  cbn. rewrite Hc, quiet. reflexivity.
Qed.
End Unreachable.

Lemma unreachable_never_returns fuel :
  outcome (publishRollup unreachablePublisher noInterrupts fuel demoRollup 100 start) = Running.
Proof.
  destruct fuel as [|[|fuel]]; [reflexivity|reflexivity|].
  unfold publishRollup. rewrite bind_run.
  assert (H : outcome (publishRollup_statuses unreachablePublisher noInterrupts
                         (S (S fuel)) demoRollup 100 start) = Running); [|rewrite H; reflexivity].
  unfold publishRollup_statuses. cbn -[confirmBatch].
  rewrite bind_run, unreachable_confirmBatch; try reflexivity.
  intros t h n. eexists. reflexivity.
Qed.

(** ** Attempts carry the nonce of their send *)

Lemma attempt_quiet cur (P : Event -> bool) :
  (forall e, P e = true -> isSend e = false /\ isAttempt e = false) ->
  preserves attemptStep (eq cur) P.
Proof.
  intros HP s e <- He. apply HP in He as [H1 H2].
  exists cur; split; auto. destruct e; try discriminate; reflexivity.
Qed.

Lemma attemptStep_same data o r :
  attemptStep (Some (data, o)) (EvBlockchainSendTx data o r) = Some (Some (data, o)).
Proof.
  cbn. destruct (Buffer_eq_dec data data); [|congruence].
  destruct (SendTxOptions_eq_dec o o); congruence.
Qed.

Section AttemptProofs.
Variable this : RollupPublisher.
Variable interrupts : nat -> bool.

Lemma sendTx_attempts fuel data o : forall c,
  sat attemptStep (Some (data, o)) (sendTx this interrupts fuel data o c)
      (fun _ _ cur => cur = Some (data, o)).
Proof.
  induction fuel as [|fuel IH]; intros c; [apply sat_running; reflexivity|].
  cbn [sendTx]. apply sat_bind, sat_isInterrupted.
  destruct (interrupted c); [apply sat_ret; reflexivity|].
  apply sat_try_catch, sat_bind, sat_await_any.
  intros [h|e] _; eexists; (split; [apply attemptStep_same|]); cbv beta iota.
  - apply sat_ret. reflexivity.
  - destruct (message e); [|apply sat_throw; reflexivity].
    apply sat_bind. eapply sat_await; [reflexivity|]. apply IH.
Qed.

Lemma sendLoop_attempts fuel i todo : forall nonce c cur,
  sat attemptStep cur (sendLoop this interrupts fuel i todo nonce c) (fun _ _ _ => True).
Proof.
  revert i; induction todo as [|s rest IH]; intros i nonce c cur.
  - apply sat_ret; auto.
  - cbn [sendLoop]. apply sat_bind, sat_isInterrupted.
    destruct (interrupted c); [apply sat_ret; auto|].
    destruct (success s).
    + apply sat_bind. eapply sat_weaken; [apply IH|].
      intros [rest'| |] ? ? _; auto. apply sat_ret; auto.
    + apply sat_bind. eapply sat_mark; [reflexivity|].
      apply sat_bind. eapply sat_weaken; [apply sendTx_attempts|].
      cbv beta. intros [h| |] c' cur' _; auto.
      apply sat_bind. eapply sat_weaken; [apply IH|].
      intros [rest'| |] ? ? _; auto. apply sat_ret; auto.
Qed.

Lemma sendBatch_attempts fuel gas signer sts c cur :
  sat attemptStep cur (sendBatch this interrupts fuel gas signer sts c) (fun _ _ _ => True).
Proof.
  unfold sendBatch. apply sat_bind. eapply sat_weaken.
  - eapply sat_emits with (I := eq cur) (P := gateEvent);
      [ | apply gate_emits | reflexivity ].
    apply attempt_quiet. by_event.
  - cbv beta. intros o c' s' (<- & -> & ->).
    destruct (outcome _); auto.
    apply sat_bind, sat_isInterrupted.
    destruct (interrupted _); [apply sat_ret; auto|].
    apply sat_bind, sat_await_any.
    intros [n|e] _; eexists; (split; [reflexivity|]); auto.
    apply sat_bind. eapply sat_weaken; [apply sendLoop_attempts|].
    intros [x| |] ? ? _; auto. apply sat_ret; auto.
Qed.

Lemma mainLoop_attempts fuel rollup gas signer : forall sts c cur,
  sat attemptStep cur (mainLoop this interrupts fuel rollup gas signer sts c)
      (fun _ _ _ => True).
Proof.
  induction fuel as [|fuel IH]; intros sts c cur.
  - apply sat_running; auto.
  - cbn [mainLoop]. apply sat_bind, sat_isInterrupted.
    destruct (interrupted c); [apply sat_ret; auto|].
    apply sat_bind. eapply sat_weaken; [apply sendBatch_attempts|].
    cbv beta. intros [[sts1|]| |] c1 cur1 _; auto; [|apply sat_ret; auto].
    apply sat_bind. eapply sat_weaken.
    + eapply sat_emits with (I := eq cur1) (P := confirmEvent);
        [ | apply confirmBatch_emits | reflexivity ].
      apply attempt_quiet. by_event.
    + cbv beta. intros o c2 cur2 (<- & -> & _).
      destruct (outcome (confirmBatch _ _ _ _ _ _)) as [[ex sts2]| |]; auto.
      destruct ex; cbn [fst snd]; try (apply sat_ret; auto). apply IH.
Qed.

Lemma publishRollup_attempts fuel rollup gas c :
  sat attemptStep None (publishRollup_statuses this interrupts fuel rollup gas c)
      (fun _ _ _ => True).
Proof.
  unfold publishRollup_statuses.
  apply sat_bind. eapply sat_mark; [reflexivity|].
  apply sat_bind. eapply sat_weaken.
  - eapply sat_emits with (I := eq None) (P := createEvent);
      [ | apply createTxData_emits | reflexivity ].
    apply attempt_quiet. by_event.
  - cbv beta. intros o c' s' (<- & -> & ->).
    destruct (outcome (createTxData _ _ _ _)) as [rt| |]; auto.
    apply sat_bind, sat_await_any. intros [u|e] _; eexists; (split; [reflexivity|]); auto.
    apply sat_bind, sat_await_any. intros [accounts|e] _; eexists; (split; [reflexivity|]); auto.
    apply mainLoop_attempts.
Qed.
End AttemptProofs.

Lemma attempts_accepted t : forall cur cur',
  accepts attemptStep cur t = Some cur' -> attemptsCarryTheSend cur t.
Proof.
  induction t as [|e t IH]; intros cur cur' H; [exact I|].
  cbn [accepts] in H. destruct (attemptStep cur e) as [c1|] eqn:E; [|discriminate].
  apply IH in H.
  destruct e; cbn in E |- *; try (injection E as <-; exact H).
  destruct cur as [[data' o']|]; [|discriminate].
  destruct (Buffer_eq_dec data data'); [|discriminate].
  destruct (SendTxOptions_eq_dec o o'); [|discriminate].
  injection E as <-. subst. auto.
Qed.

(** ** The order of the events of a pass *)

Lemma lastStatus_has_hash sts final :
  existsb hashUndefined sts = false -> lastStatus sts = Some final ->
  exists h, txHash final = Some h.
Proof.
  intros Hh Hl. unfold lastStatus in Hl. apply nth_error_In in Hl.
  destruct (txHash final) as [h|] eqn:E; [eauto|].
  assert (existsb hashUndefined sts = true); [|congruence].
  apply existsb_exists. exists final. split; auto. unfold hashUndefined. rewrite E. reflexivity.
Qed.

Section PassProofs.
Variable this : RollupPublisher.
Variable interrupts : nat -> bool.
Variable rollupId : N.

Let step := passStep rollupId.

Lemma sendLoop_pass fuel i todo : forall nonce c,
  sat step false (sendLoop this interrupts fuel i todo nonce c) (fun _ _ s' => s' = false).
Proof.
  revert i; induction todo as [|s rest IH]; intros i nonce c.
  - apply sat_ret; auto.
  - cbn [sendLoop]. apply sat_bind, sat_isInterrupted.
    destruct (interrupted c); [apply sat_ret; auto|].
    destruct (success s).
    + apply sat_bind. eapply sat_weaken; [apply IH|].
      cbv beta. intros [rest'| |] ? ? ->; auto. apply sat_ret; auto.
    + apply sat_bind. eapply sat_mark; [reflexivity|].
      apply sat_bind. eapply sat_weaken.
      * eapply sat_emits with (I := eq false) (P := attemptEvent);
          [ | apply sendTx_emits | reflexivity ].
        intros s0 e <- He. exists false. split; auto. destruct e; try discriminate; reflexivity.
      * cbv beta. intros o c' s' (<- & -> & ->).
        destruct (outcome (sendTx _ _ _ _ _ _)); auto.
        apply sat_bind. eapply sat_weaken; [apply IH|].
        cbv beta. intros [rest'| |] ? ? ->; auto. apply sat_ret; auto.
Qed.

Lemma sendBatch_pass fuel gas signer sts c s :
  sat step s (sendBatch this interrupts fuel gas signer sts c)
      (fun o _ s' => forall sts', o = Returned (Some sts') -> s' = false).
Proof.
  unfold sendBatch. apply sat_bind. eapply sat_weaken.
  - eapply sat_emits with (I := eq s) (P := gateEvent);
      [ | apply gate_emits | reflexivity ].
    intros s0 e <- He. exists s. split; auto. destruct e; try discriminate; reflexivity.
  - cbv beta. intros o c' s' (<- & -> & ->).
    destruct (outcome _); try (intros; discriminate).
    apply sat_bind, sat_isInterrupted.
    destruct (interrupted _); [apply sat_ret; intros; discriminate|].
    apply sat_bind, sat_await_any.
    intros [n|e] _; eexists; (split; [reflexivity|]); try (intros; discriminate).
    apply sat_bind. eapply sat_weaken; [apply sendLoop_pass|].
    cbv beta. intros [x| |] ? ? ->; try (intros; discriminate). apply sat_ret; auto.
Qed.

Lemma receiptLoop_pass fuel i todo : forall c,
  sat step true (receiptLoop this interrupts fuel i todo c) (fun _ _ s' => s' = true).
Proof.
  revert i; induction todo as [|s rest IH]; intros i c.
  - apply sat_ret; auto.
  - cbn [receiptLoop]. destruct (success s).
    + apply sat_bind. eapply sat_weaken; [apply IH|].
      cbv beta. intros [r| |] ? ? ->; auto. apply sat_ret; auto.
    + apply sat_bind. eapply sat_weaken.
      * eapply sat_emits with (I := eq true) (P := receiptEvent);
          [ | apply getTransactionReceipt_emits | reflexivity ].
        intros s0 e <- He. exists true. split; auto. destruct e; try discriminate; reflexivity.
      * cbv beta. intros o c' s' (<- & -> & ->).
        destruct (outcome (getTransactionReceipt _ _ _ _ _)) as [[r|]| |]; auto;
          [|apply sat_ret; auto].
        destruct (status r).
        -- apply sat_bind. eapply sat_mark; [reflexivity|].
           apply sat_bind. eapply sat_weaken; [apply IH|].
           cbv beta. intros [x| |] ? ? ->; auto. apply sat_ret; auto.
        -- destruct (revertError r) as [e|]; [destruct (String.eqb _ _)|];
             try (apply sat_ret; auto);
             (apply sat_bind; eapply sat_await; [reflexivity|]; apply sat_ret; auto).
Qed.

Lemma confirmBatch_pass fuel rollup sts c :
  id rollup = rollupId ->
  sat step false (confirmBatch this interrupts fuel rollup sts c) (fun _ _ _ => True).
Proof.
  intros Hid. unfold confirmBatch.
  destruct (existsb _ _) eqn:Hh; [apply sat_ret; auto|].
  destruct (lastStatus sts) as [final|] eqn:Hl; [|apply sat_throw; auto].
  destruct (lastStatus_has_hash _ _ Hh Hl) as (h & Hfinal).
  apply sat_bind. eapply sat_await with (s' := true).
  { cbn. rewrite Hfinal, Hid, N.eqb_refl. reflexivity. }
  destruct (RollupDb.confirmSent _ _ _ _); auto.
  apply sat_bind. eapply sat_weaken; [apply receiptLoop_pass|].
  cbv beta. intros [[ex sts']| |] ? ? ->; auto.
  destruct ex; cbn [fst]; try (apply sat_ret; auto).
  apply sat_bind. eapply sat_mark; [reflexivity|]. apply sat_ret; auto.
Qed.

Lemma mainLoop_pass fuel rollup gas signer : forall sts c s,
  id rollup = rollupId ->
  sat step s (mainLoop this interrupts fuel rollup gas signer sts c) (fun _ _ _ => True).
Proof.
  induction fuel as [|fuel IH]; intros sts c s Hid.
  - apply sat_running; auto.
  - cbn [mainLoop]. apply sat_bind, sat_isInterrupted.
    destruct (interrupted c); [apply sat_ret; auto|].
    apply sat_bind. eapply sat_weaken; [apply sendBatch_pass|].
    cbv beta. intros [[sts1|]| |] c1 s1 H; auto; [|apply sat_ret; auto].
    rewrite (H _ eq_refl).
    apply sat_bind. eapply sat_weaken; [apply confirmBatch_pass, Hid|].
    cbv beta. intros [[ex sts2]| |] c2 s2 _; auto.
    destruct ex; cbn [fst snd]; try (apply sat_ret; auto). apply IH, Hid.
Qed.
End PassProofs.

Lemma publishRollup_pass this interrupts fuel rollup gas c :
  sat (passStep (id rollup)) false (publishRollup_statuses this interrupts fuel rollup gas c)
      (fun _ _ _ => True).
Proof.
  unfold publishRollup_statuses.
  apply sat_bind. eapply sat_mark; [reflexivity|].
  apply sat_bind. eapply sat_weaken.
  - eapply sat_emits with (I := eq false) (P := createEvent);
      [ | apply createTxData_emits | reflexivity ].
    intros s0 e <- He. exists false. split; auto. destruct e; try discriminate; reflexivity.
  - cbv beta. intros o c' s' (<- & -> & ->).
    destruct (outcome (createTxData _ _ _ _)) as [rt| |]; auto.
    apply sat_bind, sat_await_any. intros [u|e] _; eexists; (split; [reflexivity|]); auto.
    apply sat_bind, sat_await_any. intros [accounts|e] _; eexists; (split; [reflexivity|]); auto.
    apply mainLoop_pass. reflexivity.
Qed.

(** ** The helper methods *)


Section CreateTxData.
Variable this : RollupPublisher.
Variable interrupts : nat -> bool.
Variable decode : Buffer -> EthAddress * Buffer.
Variable approved : EthAddress -> Buffer -> bool.
Hypothesis decodes : forall b, fromBuffer this b = Ok (decode b).
Hypothesis answers : forall t a b,
  Blockchain.getUserProofApprovalStatus (blockchain this) t a b = Ok (approved a b).

Lemma collectSignatures_spec jsTxs : forall sigs c,
  forallb isSigned jsTxs = true ->
  let r := collectSignatures this interrupts jsTxs sigs c in
  outcome r = Returned (sigs ++ neededSignatures decode approved jsTxs) /\
  tick (clock r) = tick c + List.length jsTxs /\
  emitted r = approvalLookups decode approved jsTxs.
Proof.
  induction jsTxs as [|t rest IH]; intros sigs c Hs r.
  - unfold r. cbn. rewrite app_nil_r, Nat.add_0_r. auto.
  - cbn in Hs. apply andb_true_iff in Hs as [Ht Hs].
    unfold r. cbn [collectSignatures]. rewrite decodes.
    destruct (decode (proofData t)) as [owner txId] eqn:Ed.
    rewrite bind_run. cbn -[bind collectSignatures]. rewrite answers.
    cbn -[bind collectSignatures].
    unfold neededSignatures, approvalLookups. cbn [flat_map filter map].
    rewrite Ht. cbn [map]. rewrite Ed. cbn [fst snd].
    unfold isSigned in Ht.
    destruct (signature t) as [s|] eqn:Es; [|discriminate].
    destruct (approved owner txId).
    + match goal with |- context [collectSignatures this interrupts rest sigs ?c2] =>
        destruct (IH sigs c2 Hs) as (H1 & H2 & H3) end.
      rewrite H1, H2, H3. cbn. repeat split; auto; lia.
    + match goal with |- context [collectSignatures this interrupts rest ?sg ?c2] =>
        destruct (IH sg c2 Hs) as (H1 & H2 & H3) end.
      rewrite H1, H2, H3. cbn. rewrite <- app_assoc. repeat split; auto; lia.
Qed.

Lemma neededSignatures_filter txs :
  neededSignatures decode approved (filter isSigned txs) = neededSignatures decode approved txs.
Proof.
  induction txs as [|t rest IH]; [reflexivity|].
  cbn [filter]. unfold isSigned at 1.
  destruct (signature t) as [s|] eqn:Es.
  - unfold neededSignatures in *. cbn [flat_map]. rewrite Es, IH. reflexivity.
  - unfold neededSignatures in *. cbn [flat_map]. rewrite Es, IH. reflexivity.
Qed.

End CreateTxData.

(** ** Classes of events, by the shape of the program *)

Lemma forallb_bind A B (P : Event -> bool) (m : M A) (f : A -> M B) (c : Clock) :
  forallb P (emitted (m c)) = true ->
  (forall a, outcome (m c) = Returned a -> forallb P (emitted (f a (clock (m c)))) = true) ->
  forallb P (emitted (bind m f c)) = true.
Proof.
  intros Hm Hf. rewrite bind_emitted, forallb_app, Hm.
  destruct (outcome (m c)) eqn:E; cbn; auto.
Qed.

Lemma forallb_try_catch A (P : Event -> bool) (m : M A) (h : JsError -> M A) (c : Clock) :
  forallb P (emitted (m c)) = true ->
  (forall e, outcome (m c) = Thrown e -> forallb P (emitted (h e (clock (m c)))) = true) ->
  forallb P (emitted (try_catch m h c)) = true.
Proof.
  intros Hm Hh. unfold try_catch.
  destruct (outcome (m c)) eqn:E; cbn; auto.
  rewrite forallb_app, Hm. cbn. auto.
Qed.

(** One step of a proof that a run emits only events of one class: by the
    shape of the program. *)
Ltac emits_step :=
  lazymatch goal with
  | |- forallb _ (emitted (bind _ _ _)) = true => apply forallb_bind; [|intros ? ?]
  | |- forallb _ (emitted (try_catch _ _ _)) = true => apply forallb_try_catch; [|intros ? ?]
  | |- forallb _ (emitted (isInterrupted _)) = true => reflexivity
  | |- forallb _ (emitted (ret _ _)) = true => reflexivity
  | |- forallb _ (emitted (throw _ _)) = true => reflexivity
  | |- forallb _ (emitted (running _)) = true => reflexivity
  | |- forallb _ (emitted (toString _ _)) = true => unfold toString
  | |- forallb _ (emitted (sleepOrInterrupted _ _ _)) = true => reflexivity
  | |- forallb _ (emitted (mark _ _)) = true => reflexivity
  | |- forallb _ (emitted (await _ _ _ _)) = true =>
      cbn [await emitted forallb]; rewrite andb_true_r
  | |- forallb _ (emitted ((if ?b then _ else _) _)) = true => destruct b eqn:?
  | |- forallb _ (emitted (if ?b then _ else _)) = true => destruct b eqn:?
  | |- forallb _ (emitted ((match ?x with _ => _ end) _)) = true => destruct x eqn:?
  | |- forallb _ (emitted (match ?x with _ => _ end)) = true => destruct x eqn:?
  end.

Section MoreEmits.
Variable this : RollupPublisher.
Variable interrupts : nat -> bool.

Lemma receiptLoop_emits_fetches fuel i todo : forall c,
  forallb fetchEvent (emitted (receiptLoop this interrupts fuel i todo c)) = true.
Proof.
  revert i; induction todo as [|s rest IH]; intros i c; [reflexivity|].
  cbn [receiptLoop]. repeat emits_step; auto.
  eapply forallb_impl; [|apply getTransactionReceipt_emits].
  intros e He. unfold fetchEvent. rewrite He. reflexivity.
Qed.

Lemma sendLoop_emits_sends fuel i todo : forall nonce c,
  forallb sendEvent (emitted (sendLoop this interrupts fuel i todo nonce c)) = true.
Proof.
  revert i; induction todo as [|s rest IH]; intros i nonce c; [reflexivity|].
  cbn [sendLoop]. repeat emits_step; auto.
  eapply forallb_impl; [|apply sendTx_emits].
  intros e He. unfold sendEvent. rewrite He. apply orb_true_r.
Qed.
End MoreEmits.

(** ** Interrupts *)

Ltac halt_await H :=
  let r := fresh "r" in
  apply sat_await_any; intros r _; eexists;
  (split; [cbv delta [haltStep]; cbv beta; cbn [startsWork];
           first [rewrite andb_false_r | rewrite H at 1; cbn [andb]];
           cbn [advance isAwait]; reflexivity|]);
  destruct r as [?|?]; cbv beta iota.


Ltac halt_call L :=
  apply sat_bind; eapply sat_weaken; [apply L|];
  unfold mirrors; cbv beta; intros [?| |] ? ? ->; [|reflexivity|reflexivity].


Section HaltProofs.
Variable this : RollupPublisher.
Variable interrupts : nat -> bool.



Lemma gate_halt fuel signer gas : forall c,
  sat (haltStep interrupts) c (awaitGasPriceBelowThresholdAndSufficientBalance this interrupts fuel signer gas c)
      mirrors.
Proof.
  induction fuel as [|fuel IH]; intros c; [apply sat_running; reflexivity|].
  cbn [awaitGasPriceBelowThresholdAndSufficientBalance].
  apply sat_bind, sat_isInterrupted.
  destruct (interrupted c) eqn:Hc; [apply sat_ret; reflexivity|].
  apply sat_bind. halt_await Hc; [|reflexivity].
  apply sat_bind. halt_await Hc; [|reflexivity].
  destruct gas as [g|rangeError]; cbn [BigInt]; [|apply sat_throw; reflexivity].
  apply sat_bind. destruct signer; [apply sat_ret|apply sat_throw; reflexivity].
  destruct (_ >? _)%Z; [|destruct (_ <? _)%Z].
  - apply sat_bind. unfold sleepOrInterrupted. halt_await Hc; [apply IH|reflexivity].
  - apply sat_bind. unfold sleepOrInterrupted. halt_await Hc; [apply IH|reflexivity].
  - apply sat_ret; reflexivity.
Qed.

Lemma sendTx_halt fuel data o : forall c,
  sat (haltStep interrupts) c (sendTx this interrupts fuel data o c) mirrors.
Proof.
  induction fuel as [|fuel IH]; intros c; [apply sat_running; reflexivity|].
  cbn [sendTx]. apply sat_bind, sat_isInterrupted.
  destruct (interrupted c) eqn:Hc; [apply sat_ret; reflexivity|].
  apply sat_try_catch, sat_bind. halt_await Hc; [apply sat_ret; reflexivity|].
  match goal with |- context [message ?e] => destruct (message e) end;
    [|apply sat_throw; reflexivity].
  apply sat_bind. unfold sleepOrInterrupted. halt_await Hc; [apply IH|reflexivity].
Qed.

Lemma getTransactionReceipt_halt fuel h : forall c,
  sat (haltStep interrupts) c (getTransactionReceipt this interrupts fuel h c) mirrors.
Proof.
  induction fuel as [|fuel IH]; intros c; [apply sat_running; reflexivity|].
  cbn [getTransactionReceipt]. apply sat_bind, sat_isInterrupted.
  destruct (interrupted c) eqn:Hc; [apply sat_ret; reflexivity|].
  apply sat_try_catch. halt_await Hc; [reflexivity|].
  apply sat_bind. unfold sleepOrInterrupted. halt_await Hc; [apply IH|reflexivity].
Qed.

Lemma sendLoop_halt fuel i todo : forall nonce c,
  sat (haltStep interrupts) c (sendLoop this interrupts fuel i todo nonce c) mirrors.
Proof.
  revert i; induction todo as [|s rest IH]; intros i nonce c.
  - apply sat_ret; reflexivity.
  - cbn [sendLoop]. apply sat_bind, sat_isInterrupted.
    destruct (interrupted c) eqn:Hc; [apply sat_ret; reflexivity|].
    destruct (success s).
    + halt_call IH. apply sat_ret; reflexivity.
    + apply sat_bind. eapply sat_mark.
      { cbv delta [haltStep]; cbv beta. rewrite Hc. reflexivity. }
      cbn [advance isAwait].
      halt_call sendTx_halt. halt_call IH. apply sat_ret; reflexivity.
Qed.

Lemma receiptLoop_halt fuel i todo : forall c,
  sat (haltStep interrupts) c (receiptLoop this interrupts fuel i todo c) mirrors.
Proof.
  revert i; induction todo as [|s rest IH]; intros i c.
  - apply sat_ret; reflexivity.
  - cbn [receiptLoop]. destruct (success s).
    + halt_call IH. apply sat_ret; reflexivity.
    + halt_call getTransactionReceipt_halt.
      match goal with |- sat _ _ (match ?x with _ => _ end _) _ => destruct x as [r|] end;
        [|apply sat_ret; reflexivity].
      destruct (status r).
      * apply sat_bind. eapply sat_mark; [cbv delta [haltStep]; cbv beta; rewrite andb_false_r; reflexivity|].
        cbn [advance isAwait]. halt_call IH. apply sat_ret; reflexivity.
      * destruct (revertError r) as [e|]; [destruct (String.eqb _ _)|];
          try (apply sat_ret; reflexivity);
          (apply sat_bind; unfold sleepOrInterrupted; halt_await I;
           [apply sat_ret; reflexivity|reflexivity]).
Qed.

Lemma sendBatch_halt fuel gas signer sts c :
  sat (haltStep interrupts) c (sendBatch this interrupts fuel gas signer sts c) mirrors.
Proof.
  unfold sendBatch. halt_call gate_halt.
  apply sat_bind, sat_isInterrupted.
  match goal with |- context [interrupted ?c1] => destruct (interrupted c1) eqn:Hc end;
    [apply sat_ret; reflexivity|].
  apply sat_bind. halt_await Hc; [|reflexivity].
  halt_call sendLoop_halt. apply sat_ret; reflexivity.
Qed.

Lemma confirmBatch_halt fuel rollup sts c :
  sat (haltStep interrupts) c (confirmBatch this interrupts fuel rollup sts c) mirrors.
Proof.
  unfold confirmBatch.
  destruct (existsb _ _); [apply sat_ret; reflexivity|].
  destruct (lastStatus sts) as [final|]; [|apply sat_throw; reflexivity].
  apply sat_bind. halt_await I; [|reflexivity].
  halt_call receiptLoop_halt.
  match goal with |- sat _ _ (match fst ?x with _ => _ end _) _ => destruct x as [[| |] sts'] end;
    cbn [fst]; try (apply sat_ret; reflexivity).
  apply sat_bind. eapply sat_mark; [cbv delta [haltStep]; cbv beta; rewrite andb_false_r; reflexivity|].
  cbn [advance isAwait]. apply sat_ret; reflexivity.
Qed.

Lemma mainLoop_halt fuel rollup gas signer : forall sts c,
  sat (haltStep interrupts) c (mainLoop this interrupts fuel rollup gas signer sts c) mirrors.
Proof.
  induction fuel as [|fuel IH]; intros sts c; [apply sat_running; reflexivity|].
  cbn [mainLoop]. apply sat_bind, sat_isInterrupted.
  destruct (interrupted c); [apply sat_ret; reflexivity|].
  halt_call sendBatch_halt.
  match goal with |- sat _ _ (match ?x with _ => _ end _) _ => destruct x as [sts1|] end;
    [|apply sat_ret; reflexivity].
  halt_call confirmBatch_halt.
  match goal with |- sat _ _ (match fst ?x with _ => _ end _) _ => destruct x as [[| |] sts'] end;
    cbn [fst snd]; try (apply sat_ret; reflexivity).
  apply IH.
Qed.

Lemma collectSignatures_halt jsTxs : forall sigs c,
  sat (haltStep interrupts) c (collectSignatures this interrupts jsTxs sigs c) mirrors.
Proof.
  induction jsTxs as [|t rest IH]; intros sigs c; [apply sat_ret; reflexivity|].
  cbn [collectSignatures].
  destruct (fromBuffer this (proofData t)) as [[owner txId]|e]; [|apply sat_throw; reflexivity].
  apply sat_bind. halt_await I; [|reflexivity].
  match goal with |- sat _ _ ((if ?b then _ else _) _) _ => destruct b end; [apply IH|].
  destruct (signature t); apply IH.
Qed.

Lemma publishRollup_halt fuel rollup gas c :
  sat (haltStep interrupts) c (publishRollup this interrupts fuel rollup gas c) mirrors.
Proof.
  unfold publishRollup, publishRollup_statuses.
  apply sat_bind, sat_bind. eapply sat_mark; [cbv delta [haltStep]; cbv beta; rewrite andb_false_r; reflexivity|].
  cbn [advance isAwait].
  apply sat_bind. unfold createTxData. apply sat_bind.
  eapply sat_weaken; [apply collectSignatures_halt|].
  unfold mirrors; cbv beta; intros [sigs| |] ? ? ->; [|reflexivity|reflexivity].
  halt_await I; [|reflexivity].
  apply sat_bind. halt_await I; [|reflexivity].
  apply sat_bind. halt_await I; [|reflexivity].
  eapply sat_weaken; [apply mainLoop_halt|].
  unfold mirrors; cbv beta; intros [r| |] ? ? ->; [|reflexivity|reflexivity].
  apply sat_ret; reflexivity.
Qed.
End HaltProofs.

Lemma accepts_halt_clock interrupts t : forall c c',
  accepts (haltStep interrupts) c t = Some c' -> c' = fold_left (advance interrupts) t c.
Proof.
  induction t as [|e t IH]; intros c c'; cbn [accepts fold_left].
  - intros [= <-]. reflexivity.
  - unfold haltStep at 1. destruct (interrupted c && startsWork e); [discriminate|]. apply IH.
Qed.

Lemma accepts_halt_split interrupts pre e post c c' :
  accepts (haltStep interrupts) c (pre ++ e :: post) = Some c' ->
  interrupted (fold_left (advance interrupts) pre c) = true ->
  startsWork e = false.
Proof.
  rewrite accepts_app. destruct (accepts (haltStep interrupts) c pre) as [c1|] eqn:E;
    [|discriminate].
  apply accepts_halt_clock in E. subst c1. cbn [accepts]. unfold haltStep at 1.
  intros H Hi. rewrite Hi in H. destruct (startsWork e); [discriminate|reflexivity].
Qed.

Section Undecodable.
Variable this : RollupPublisher.
Variable interrupts : nat -> bool.

Lemma collectSignatures_undecodable jsTxs : forall sigs c t e,
  In t jsTxs -> fromBuffer this (proofData t) = Err e ->
  let r := collectSignatures this interrupts jsTxs sigs c in
  (exists e', outcome r = Thrown e') /\ forallb isApprovalLookup (emitted r) = true.
Proof.
  induction jsTxs as [|t0 rest IH]; intros sigs c t e Hin He r; [destruct Hin|].
  unfold r. cbn [collectSignatures].
  destruct (fromBuffer this (proofData t0)) as [[owner txId]|e0] eqn:E0.
  2:{ split; [exists e0|]; reflexivity. }
  assert (Hrest : In t rest).
  { destruct Hin as [->|H]; [congruence|exact H]. }
  rewrite bind_run. cbn -[bind collectSignatures].
  destruct (Blockchain.getUserProofApprovalStatus _ _ _ _) as [approved|e1];
    cbn -[bind collectSignatures].
  2:{ split; [exists e1|]; reflexivity. }
  destruct approved; [|destruct (signature t0)]; apply (IH _ _ t e Hrest He).
Qed.
End Undecodable.

(** ** The publish timer *)

Lemma timer_quiet : preserves timerStep (eq Timing) (fun e => negb (isTimer e)).
Proof. intros s e <- He. exists Timing. destruct e; try discriminate; auto. Qed.

Lemma quiet_class (P : Event -> bool) (t : list Event) :
  (forall e, P e = true -> isTimer e = false) ->
  forallb P t = true -> forallb (fun e => negb (isTimer e)) t = true.
Proof.
  intros HP Ht. eapply forallb_impl; [|exact Ht].
  intros e He. cbv beta. rewrite (HP e He). reflexivity.
Qed.

Lemma accepts_timing t : forall s',
  accepts timerStep Timing t = Some s' ->
  ~ In EvPublishTimer t /\
  ((s' = Timing /\ ~ In EvEndTimer t) \/
   (s' = Stopped /\ exists pre, t = pre ++ [EvEndTimer] /\ ~ In EvEndTimer pre)).
Proof.
  induction t as [|e t IH]; intros s'; cbn [accepts].
  - intros [= <-]. split; [tauto|]. left; split; [reflexivity|tauto].
  - destruct e; cbn [timerStep]; try discriminate;
      try (intros H; apply IH in H as (Hp & H); split;
           [intros [?|?]; [discriminate|tauto]|];
           destruct H as [(-> & Hn)|(-> & pre & -> & Hn)];
           [left; split; [reflexivity|intros [?|?]; [discriminate|tauto]]
           |right; split; [reflexivity|];
            eexists (_ :: pre); split; [reflexivity|intros [?|?]; [discriminate|tauto]]]).
    destruct t as [|e' t']; cbn [accepts timerStep]; [|discriminate].
    intros [= <-]. split; [intros [?|[]]; discriminate|].
    right. split; [reflexivity|]. exists []. split; [reflexivity|tauto].
Qed.

Section TimerProofs.
Variable this : RollupPublisher.
Variable interrupts : nat -> bool.

Lemma confirmBatch_timer fuel rollup sts c :
  sat timerStep Timing (confirmBatch this interrupts fuel rollup sts c)
      (fun o _ s' => match o with
                     | Returned (AllSucceeded, _) => s' = Stopped
                     | _ => s' = Timing
                     end).
Proof.
  unfold confirmBatch.
  destruct (existsb _ _); [apply sat_ret; reflexivity|].
  destruct (lastStatus sts) as [final|]; [|apply sat_throw; reflexivity].
  apply sat_bind. apply sat_await_any. intros r _. exists Timing. split; [reflexivity|].
  destruct r as [[]|e]; [|reflexivity].
  apply sat_bind. eapply sat_weaken.
  - eapply sat_emits with (I := eq Timing); [apply timer_quiet| |reflexivity].
    eapply quiet_class; [|apply receiptLoop_emits_fetches].
    intros e; destruct e; try discriminate; reflexivity.
  - cbv beta. intros o c' s' (<- & -> & ->).
    destruct (outcome (receiptLoop _ _ _ _ _ _)) as [[[| |] sts']| |]; cbn [fst];
      try reflexivity; try (apply sat_ret; reflexivity).
    apply sat_bind. eapply sat_mark; [reflexivity|]. apply sat_ret; reflexivity.
Qed.

Lemma mainLoop_timer fuel rollup gas signer : forall sts c,
  sat timerStep Timing (mainLoop this interrupts fuel rollup gas signer sts c)
      (fun o _ s' => match o with
                     | Returned (true, _) => s' = Stopped
                     | _ => s' = Timing
                     end).
Proof.
  induction fuel as [|fuel IH]; intros sts c; [apply sat_running; reflexivity|].
  cbn [mainLoop]. apply sat_bind, sat_isInterrupted.
  destruct (interrupted c); [apply sat_ret; reflexivity|].
  apply sat_bind. eapply sat_weaken.
  - eapply sat_emits with (I := eq Timing); [apply timer_quiet| |reflexivity].
    eapply quiet_class; [|apply sendBatch_emits].
    intros e; destruct e; try discriminate; reflexivity.
  - cbv beta. intros o c' s' (<- & -> & ->).
    destruct (outcome (sendBatch _ _ _ _ _ _ _)) as [[sts1|]| |];
      try reflexivity; [|apply sat_ret; reflexivity].
    apply sat_bind. eapply sat_weaken; [apply confirmBatch_timer|].
    cbv beta. intros [[[| |] sts2]| |] c2 s2 ->; cbn [fst snd]; try reflexivity;
      try (apply sat_ret; reflexivity).
    apply IH.
Qed.

Lemma publishRollup_timer fuel rollup gas c :
  sat timerStep NotStarted (publishRollup this interrupts fuel rollup gas c)
      (fun o _ s' => match o with
                     | Returned true => s' = Stopped
                     | _ => s' = Timing
                     end).
Proof.
  unfold publishRollup, publishRollup_statuses.
  apply sat_bind, sat_bind. eapply sat_mark; [reflexivity|].
  apply sat_bind. eapply sat_weaken.
  - eapply sat_emits with (I := eq Timing); [apply timer_quiet| |reflexivity].
    eapply quiet_class; [|apply createTxData_emits].
    intros e; destruct e; try discriminate; reflexivity.
  - cbv beta. intros o c' s' (<- & -> & ->).
    destruct (outcome (createTxData _ _ _ _)) as [rt| |]; try reflexivity.
    apply sat_bind. apply sat_await_any. intros r _. exists Timing. split; [reflexivity|].
    destruct r as [[]|e]; [|reflexivity].
    apply sat_bind. apply sat_await_any. intros r _. exists Timing. split; [reflexivity|].
    destruct r as [accounts|e]; [|reflexivity].
    eapply sat_weaken; [apply mainLoop_timer|].
    cbv beta. intros [[[|] sts]| |] c2 s2 ->; try reflexivity; apply sat_ret; reflexivity.
Qed.
End TimerProofs.

(** ** Fee polls *)

Lemma clearsGate_spec this gas fee balance :
  clearsGate this gas fee balance = true <->
  (fee + this_maxPriorityFeePerGas this <= this_maxFeePerGas this)%Z /\
  (balance >= this_maxFeePerGas this * gas)%Z.
Proof.
  unfold clearsGate. rewrite andb_true_iff, !negb_true_iff, Z.gtb_ltb, !Z.ltb_ge. lia.
Qed.

Lemma gate_idle this gas : preserves (gateStep this gas) (eq GateIdle) (fun e => negb (isPoll e)).
Proof. intros s e <- He. exists GateIdle. destruct e; try discriminate; auto. Qed.

Lemma idle_class (P : Event -> bool) (t : list Event) :
  (forall e, P e = true -> isPoll e = false) ->
  forallb P t = true -> forallb (fun e => negb (isPoll e)) t = true.
Proof.
  intros HP Ht. eapply forallb_impl; [|exact Ht].
  intros e He. cbv beta. rewrite (HP e He). reflexivity.
Qed.

Section GateProofs.
Variable this : RollupPublisher.
Variable interrupts : nat -> bool.
Variable gas : Z.

Lemma gate_polls fuel signer : forall c,
  sat (gateStep this gas) GateIdle
      (awaitGasPriceBelowThresholdAndSufficientBalance this interrupts fuel signer gas c)
      (fun o c' s' => match o with
                      | Returned _ => s' = GateClear signer \/
                                      (s' = GateIdle /\ interrupted c' = true)
                      | _ => True
                      end).
Proof.
  induction fuel as [|fuel IH]; intros c; [apply sat_running; auto|].
  cbn [awaitGasPriceBelowThresholdAndSufficientBalance].
  apply sat_bind, sat_isInterrupted.
  destruct (interrupted c) eqn:Hc; [apply sat_ret; auto|].
  apply sat_bind, sat_await_any. intros [fee|e] _;
    [exists (GateFee fee)|exists GateIdle]; (split; [reflexivity|]); [|exact I].
  apply sat_bind, sat_await_any. intros [balance|e] _; [|exists GateIdle; split; auto].
  cbn [gateStep BigInt]. unfold clearsGate.
  destruct signer as [a|]; cbn [toString].
  - destruct (_ >? _)%Z; [|destruct (_ <? _)%Z]; cbn [negb andb];
      eexists; (split; [reflexivity|]); apply sat_bind, sat_ret.
    + apply sat_bind. unfold sleepOrInterrupted. eapply sat_await; [reflexivity|]. apply IH.
    + apply sat_bind. unfold sleepOrInterrupted. eapply sat_await; [reflexivity|]. apply IH.
    + apply sat_ret. auto.
  - destruct (negb _ && negb _); eexists; (split; [reflexivity|]);
      apply sat_bind, sat_throw; exact I.
Qed.

Lemma sendBatch_polls fuel signer sts c :
  sat (gateStep this gas) GateIdle (sendBatch this interrupts fuel gas signer sts c)
      (fun o _ s' => match o with
                     | Returned (Some _) => s' = GateIdle
                     | _ => True
                     end).
Proof.
  unfold sendBatch. apply sat_bind. eapply sat_weaken; [apply gate_polls|].
  cbv beta. intros [[]| |] c1 s1 H; auto.
  apply sat_bind, sat_isInterrupted.
  destruct (interrupted c1) eqn:Hc; [apply sat_ret; exact I|].
  destruct H as [->|[_ H]]; [|discriminate].
  apply sat_bind, sat_await_any. intros r _. exists GateIdle. split.
  { cbn. destruct (EthAddress_eq_dec signer signer); [reflexivity|congruence]. }
  destruct r as [n|e]; [|exact I].
  apply sat_bind. eapply sat_weaken.
  - eapply sat_emits with (I := eq GateIdle); [apply gate_idle| |reflexivity].
    eapply idle_class; [|apply sendLoop_emits_sends].
    intros e; destruct e; try discriminate; reflexivity.
  - cbv beta. intros o c' s' (<- & -> & ->).
    destruct (outcome (sendLoop _ _ _ _ _ _ _)); auto. apply sat_ret; reflexivity.
Qed.

Lemma mainLoop_polls fuel rollup signer : forall sts c,
  sat (gateStep this gas) GateIdle (mainLoop this interrupts fuel rollup gas signer sts c)
      (fun _ _ _ => True).
Proof.
  induction fuel as [|fuel IH]; intros sts c; [apply sat_running; exact I|].
  cbn [mainLoop]. apply sat_bind, sat_isInterrupted.
  destruct (interrupted c); [apply sat_ret; exact I|].
  apply sat_bind. eapply sat_weaken; [apply sendBatch_polls|].
  cbv beta. intros [[sts1|]| |] c1 s1 H; auto; [|apply sat_ret; exact I]. subst s1.
  apply sat_bind. eapply sat_weaken.
  - eapply sat_emits with (I := eq GateIdle); [apply gate_idle| |reflexivity].
    eapply idle_class; [|apply confirmBatch_emits].
    intros e; destruct e; try discriminate; reflexivity.
  - cbv beta. intros o c' s' (<- & -> & ->).
    destruct (outcome (confirmBatch _ _ _ _ _ _)) as [[[| |] sts2]| |]; cbn [fst snd];
      try exact I; try (apply sat_ret; exact I).
    apply IH.
Qed.

Lemma publishRollup_polls fuel rollup c :
  sat (gateStep this gas) GateIdle (publishRollup this interrupts fuel rollup gas c)
      (fun _ _ _ => True).
Proof.
  unfold publishRollup, publishRollup_statuses.
  apply sat_bind, sat_bind. eapply sat_mark; [reflexivity|].
  apply sat_bind. eapply sat_weaken.
  - eapply sat_emits with (I := eq GateIdle); [apply gate_idle| |reflexivity].
    eapply idle_class; [|apply createTxData_emits].
    intros e; destruct e; try discriminate; reflexivity.
  - cbv beta. intros o c' s' (<- & -> & ->).
    destruct (outcome (createTxData _ _ _ _)) as [rt| |]; auto.
    apply sat_bind. apply sat_await_any. intros r _. exists GateIdle. split; [reflexivity|].
    destruct r as [[]|e]; [|exact I].
    apply sat_bind. apply sat_await_any. intros r _. exists GateIdle. split; [reflexivity|].
    destruct r as [accounts|e]; [|exact I].
    eapply sat_weaken; [apply mainLoop_polls|].
    cbv beta. intros [r| |] c2 s2 _; auto. apply sat_ret; exact I.
Qed.
End GateProofs.

Lemma accepts_snoc St (step : St -> Event -> option St) (s : St) (t : list Event) (e : Event) :
  accepts step s (t ++ [e]) =
  match accepts step s t with
  | Some s' => step s' e
  | None => None
  end.
Proof.
  rewrite accepts_app. destruct (accepts step s t) as [s1|]; [|reflexivity].
  cbn. destruct (step s1 e); reflexivity.
Qed.

Lemma gateStep_fee this gas s e fee :
  gateStep this gas s e = Some (GateFee fee) ->
  s = GateIdle /\ e = EvGetBlockByNumber (Ok fee).
Proof.
  destruct s; cbn [gateStep].
  - destruct e as [| | | | | |[]| | | | | | | |]; try discriminate. intros [= ->]. auto.
  - destruct e as [| | | | | | |? []| | | | | | |]; try discriminate.
    destruct (clearsGate _ _ _ _); discriminate.
  - destruct e; try discriminate. destruct (EthAddress_eq_dec _ _); discriminate.
  - destruct e; try discriminate. destruct (_ =? _)%N; discriminate.
Qed.

Lemma gateStep_after_fee this gas fee e s' :
  gateStep this gas (GateFee fee) e = Some s' ->
  exists a r, e = EvGetBalance a r /\
    match r with
    | Ok balance => s' = if clearsGate this gas fee balance then GateClear a else GateWait
    | Err _ => s' = GateIdle
    end.
Proof.
  cbn [gateStep]. destruct e as [| | | | | | |a r| | | | | | |]; try discriminate.
  intros H. exists a, r. split; [reflexivity|].
  destruct r as [balance|err]; [|congruence].
  destruct (clearsGate _ _ _ _); congruence.
Qed.

Lemma gateStep_clear this gas s e a :
  gateStep this gas s e = Some (GateClear a) ->
  exists fee balance,
    s = GateFee fee /\ e = EvGetBalance a (Ok balance) /\
    clearsGate this gas fee balance = true.
Proof.
  destruct s as [|fee|a'|].
  - cbn [gateStep]. destruct e as [| | | | | |[]| | | | | | | |]; discriminate.
  - intros H. apply gateStep_after_fee in H as (a0 & [balance|err] & -> & H); [|discriminate].
    destruct (clearsGate _ _ _ _) eqn:E; [|discriminate].
    injection H as ->. eauto.
  - cbn [gateStep]. destruct e; try discriminate. destruct (EthAddress_eq_dec _ _); discriminate.
  - cbn [gateStep]. destruct e; try discriminate. destruct (_ =? _)%N; discriminate.
Qed.

Lemma accepts_last St (step : St -> Event -> option St) (s s' : St) (t : list Event) :
  accepts step s t = Some s' ->
  (t = [] /\ s' = s) \/
  exists t' e s1, t = t' ++ [e] /\ accepts step s t' = Some s1 /\ step s1 e = Some s'.
Proof.
  induction t as [|e0 t0 _] using rev_ind.
  - cbn. intros [= <-]. auto.
  - rewrite accepts_snoc. destruct (accepts step s t0) as [s1|] eqn:E; [|discriminate].
    intros H. right. exists t0, e0, s1. auto.
Qed.

Lemma accepts_to_clear this gas pre a :
  accepts (gateStep this gas) GateIdle pre = Some (GateClear a) ->
  exists pre' fee balance,
    pre = pre' ++ [EvGetBlockByNumber (Ok fee); EvGetBalance a (Ok balance)] /\
    clearsGate this gas fee balance = true.
Proof.
  intros H. apply accepts_last in H as [[_ H]|(t1 & e1 & s1 & -> & H1 & H2)]; [discriminate|].
  apply gateStep_clear in H2 as (fee & balance & -> & -> & Hc).
  apply accepts_last in H1 as [[_ H]|(t2 & e2 & s2 & -> & H1 & H2)]; [discriminate|].
  apply gateStep_fee in H2 as (-> & ->).
  exists t2, fee, balance. rewrite <- app_assoc. auto.
Qed.

Lemma accepts_count this gas pre a n post s :
  accepts (gateStep this gas) GateIdle (pre ++ EvGetTransactionCount a n :: post) = Some s ->
  exists pre' fee balance,
    pre = pre' ++ [EvGetBlockByNumber (Ok fee); EvGetBalance a (Ok balance)] /\
    clearsGate this gas fee balance = true.
Proof.
  rewrite accepts_app.
  destruct (accepts (gateStep this gas) GateIdle pre) as [s1|] eqn:E; [|discriminate].
  cbn [accepts]. destruct (gateStep this gas s1 (EvGetTransactionCount a n)) as [s2|] eqn:E2;
    [|discriminate].
  intros _. destruct s1 as [| |a'|]; try discriminate.
  cbn in E2. destruct (EthAddress_eq_dec a' a) as [->|]; [|discriminate].
  apply accepts_to_clear in E. exact E.
Qed.

Lemma accepts_poll this gas pre fee a balance e post s :
  accepts (gateStep this gas) GateIdle
    (pre ++ EvGetBlockByNumber (Ok fee) :: EvGetBalance a (Ok balance) :: e :: post) = Some s ->
  if clearsGate this gas fee balance
  then exists n, e = EvGetTransactionCount a n
  else e = EvSleep 60000.
Proof.
  rewrite accepts_app.
  destruct (accepts (gateStep this gas) GateIdle pre) as [s1|] eqn:E; [|discriminate].
  cbn [accepts].
  destruct (gateStep this gas s1 (EvGetBlockByNumber (Ok fee))) as [s2|] eqn:E2; [|discriminate].
  assert (s2 = GateFee fee) as ->.
  { destruct s1; cbn in E2; congruence. }
  cbn [gateStep]. destruct (clearsGate this gas fee balance); cbn [accepts].
  - destruct e as [| | | | | | | |a' n| | | | | |]; cbn [gateStep]; try discriminate.
    destruct (EthAddress_eq_dec a a') as [<-|]; [|discriminate]. eauto.
  - destruct e as [| | | | | | | | | | | | | |ms]; cbn [gateStep]; try discriminate.
    destruct (ms =? 60000)%N eqn:Em; [|discriminate].
    apply N.eqb_eq in Em. subst ms. reflexivity.
Qed.

(** ** No account to sign with *)

Section NoSigner.
Variable this : RollupPublisher.
Variable interrupts : nat -> bool.

Lemma gate_no_signer fuel gas c :
  let r := awaitGasPriceBelowThresholdAndSufficientBalance this interrupts (S fuel) None gas c in
  forallb gateEvent (emitted r) = true /\
  outcome r <> Running /\
  (forall u, outcome r = Returned u -> interrupted c = true /\ clock r = c).
Proof.
  intros r. split; [apply gate_emits|]. unfold r.
  cbn [awaitGasPriceBelowThresholdAndSufficientBalance].
  rewrite bind_run. cbn -[bind awaitGasPriceBelowThresholdAndSufficientBalance].
  destruct (interrupted c); [cbn; split; [discriminate|auto]|].
  rewrite bind_run. cbn -[bind awaitGasPriceBelowThresholdAndSufficientBalance].
  destruct (EthereumRpc.getBlockByNumber _ _); cbn -[bind awaitGasPriceBelowThresholdAndSufficientBalance];
    [|split; [discriminate|intros; discriminate]].
  rewrite bind_run. cbn -[bind awaitGasPriceBelowThresholdAndSufficientBalance].
  destruct (EthereumRpc.getBalance _ _ _); cbn -[bind awaitGasPriceBelowThresholdAndSufficientBalance];
    [|split; [discriminate|intros; discriminate]].
  destruct gas as [g|rangeError]; cbn [BigInt]; [rewrite bind_run|]; cbn;
    (split; [discriminate|intros; discriminate]).
Qed.

Lemma sendBatch_no_signer fuel gas sts c :
  let r := sendBatch this interrupts (S fuel) gas None sts c in
  forallb gateEvent (emitted r) = true /\
  outcome r <> Running /\
  (forall x, outcome r = Returned x -> x = None /\ interrupted (clock r) = true).
Proof.
  intros r. unfold r, sendBatch.
  destruct (gate_no_signer fuel gas c) as (He & Hr & Hu).
  rewrite bind_run.
  destruct (outcome (awaitGasPriceBelowThresholdAndSufficientBalance _ _ _ _ _ _)) as [u| |] eqn:E;
    cbn [outcome clock emitted].
  - destruct (Hu u eq_refl) as (Hc & Hk). rewrite Hk.
    rewrite bind_run. cbn -[bind]. rewrite Hc. cbn. rewrite app_nil_r.
    split; [exact He|]. split; [discriminate|]. intros x [= <-]. auto.
  - split; [exact He|]. split; [discriminate|intros; discriminate].
  - congruence.
Qed.

Lemma mainLoop_no_signer fuel rollup gas sts c :
  let r := mainLoop this interrupts (S (S fuel)) rollup gas None sts c in
  forallb gateEvent (emitted r) = true /\
  outcome r <> Running /\
  (forall x, outcome r = Returned x -> fst x = false /\ interrupted (clock r) = true).
Proof.
  intros r. unfold r. cbn [mainLoop].
  rewrite bind_run. cbn -[bind sendBatch confirmBatch mainLoop].
  destruct (interrupted c) eqn:Hc.
  { cbn. split; [reflexivity|]. split; [discriminate|]. intros x [= <-]. auto. }
  destruct (sendBatch_no_signer fuel gas sts c) as (He & Hr & Hx).
  rewrite bind_run.
  destruct (outcome (sendBatch _ _ _ _ _ _ _)) as [x| |] eqn:E; cbn [outcome clock emitted].
  - destruct (Hx x eq_refl) as (-> & Hi). cbn. rewrite app_nil_r.
    split; [exact He|]. split; [discriminate|]. intros x [= <-]. auto.
  - split; [exact He|]. split; [discriminate|intros; discriminate].
  - congruence.
Qed.
End NoSigner.

Lemma publishRollup_no_signer this interrupts fuel rollup gas c :
  (forall t, EthereumRpc.getAccounts (ethereumRpc this) t = Ok []) ->
  let r := publishRollup this interrupts (S (S fuel)) rollup gas c in
  forallb beforeNonceEvent (emitted r) = true /\
  outcome r <> Running /\
  outcome r <> Returned true /\
  (outcome r = Returned false -> interrupted (clock r) = true).
Proof.
  intros Hacc r.
  assert (Hcreate : forall c', forallb beforeNonceEvent
                       (emitted (createTxData this interrupts rollup c')) = true).
  { intros c'. eapply forallb_impl; [|apply createTxData_emits].
    intros e He. unfold beforeNonceEvent, preludeEvent. rewrite He.
    destruct e; reflexivity. }
  assert (Hcreate' : forall c', outcome (createTxData this interrupts rollup c') <> Running).
  { intros c'. unfold createTxData. rewrite bind_run.
    assert (Hs : forall l sigs c0, outcome (collectSignatures this interrupts l sigs c0) <> Running).
    { induction l as [|t l IH]; intros sigs c0; cbn [collectSignatures]; [discriminate|].
      destruct (fromBuffer this (proofData t)) as [[owner txId]|e]; [|discriminate].
      rewrite bind_run. cbn -[bind collectSignatures].
      destruct (Blockchain.getUserProofApprovalStatus _ _ _ _) as [[|]|e];
        cbn -[bind collectSignatures]; [apply IH| |discriminate].
      destruct (signature t); apply IH. }
    destruct (outcome (collectSignatures _ _ _ _ _)) eqn:E; cbn [outcome];
      [|discriminate|apply Hs in E; destruct E].
    cbn. destruct (Blockchain.createRollupTxs _ _ _ _ _); discriminate. }
  unfold r, publishRollup, publishRollup_statuses.
  rewrite bind_run, (bind_run _ _ (mark EvPublishTimer)). cbn [mark outcome clock emitted].
  rewrite bind_run.
  destruct (outcome (createTxData this interrupts rollup c)) as [rt| |] eqn:Ec;
    cbn [outcome clock emitted app].
  2:{ cbn [forallb]. rewrite Hcreate. repeat split; discriminate. }
  2:{ apply Hcreate' in Ec. destruct Ec. }
  rewrite bind_run. cbn [await outcome clock emitted].
  destruct (RollupDb.setCallData _ _ _ _) as [[]|e]; cbn [outcome clock emitted app].
  2:{ cbn [forallb]. rewrite forallb_app, Hcreate. repeat split; discriminate. }
  rewrite bind_run. cbn [await outcome clock emitted]. rewrite Hacc.
  cbn [outcome clock emitted app hd_error].
  match goal with |- context [mainLoop this interrupts _ rollup gas None ?sts ?c1] =>
    destruct (mainLoop_no_signer this interrupts fuel rollup gas sts c1) as (He & Hr & Hx);
    destruct (outcome (mainLoop this interrupts _ rollup gas None sts c1)) as [[b sts']| |] eqn:Em
  end; cbn [outcome clock emitted app ret fst].
  - destruct (Hx _ eq_refl) as (Hb & Hi). cbn [fst] in Hb. subst b.
    rewrite app_nil_r. cbn [forallb]. rewrite forallb_app, Hcreate. cbn [forallb].
    split.
    { cbn. eapply forallb_impl; [|exact He]. intros e H. unfold beforeNonceEvent.
      rewrite H. apply orb_true_r. }
    repeat split; try discriminate. auto.
  - cbn [forallb]. rewrite forallb_app, Hcreate. cbn [forallb].
    split.
    { cbn. eapply forallb_impl; [|exact He]. intros e0 H. unfold beforeNonceEvent.
      rewrite H. apply orb_true_r. }
    repeat split; discriminate.
  - congruence.
Qed.

(** ** A call that goes through *)

Lemma accepts_steady t : forall n k,
  accepts steadyStep n t = Some k ->
  forallb (fun e => negb (isSleep e)) t = true /\ k = n + List.length (filter isCount t).
Proof.
  induction t as [|e t IH]; intros n k; cbn [accepts].
  - intros [= <-]. cbn. auto.
  - destruct e; cbn [steadyStep]; try discriminate; intros H; apply IH in H as (H1 & H2);
      cbn [forallb filter isSleep isCount negb andb List.length]; split; auto; lia.
Qed.

Section HealthyProofs.
Variable this : RollupPublisher.
Variable interrupts : nat -> bool.
Variable gas : Z.
Hypothesis healthy : Healthy this gas.
Hypothesis quiet : forall t, interrupts t = false.

(** The clock after an await, while nothing interrupts. *)
Lemma quiet_flag c :
  interrupted c = false -> interrupted c || interrupts (tick c) = false.
Proof. intros ->. apply quiet. Qed.

Lemma gate_healthy fuel a n c :
  interrupted c = false ->
  sat steadyStep n
      (awaitGasPriceBelowThresholdAndSufficientBalance this interrupts (S fuel) (Some a) gas c)
      (fun o c' s' => o = Returned tt /\ interrupted c' = false /\ s' = n).
Proof.
  intros Hc. cbn [awaitGasPriceBelowThresholdAndSufficientBalance].
  apply sat_bind, sat_isInterrupted. rewrite Hc.
  apply sat_bind, sat_await_any. intros r ->. exists n. split; [reflexivity|].
  destruct (healthy_getBlockByNumber _ _ healthy (tick c)) as (fee & -> & Hfee).
  apply sat_bind, sat_await_any. intros r ->. exists n. split; [reflexivity|]. cbn [tick].
  destruct (healthy_getBalance _ _ healthy (S (tick c)) (Some a)) as (bal & -> & Hbal).
  cbn [BigInt]. apply sat_bind, sat_ret.
  replace (_ >? _)%Z with false by (symmetry; rewrite Z.gtb_ltb; apply Z.ltb_ge; lia).
  replace (_ <? _)%Z with false by (symmetry; apply Z.ltb_ge; lia).
  apply sat_ret. cbn [interrupted tick]. rewrite Hc, !quiet. auto.
Qed.

Lemma sendTx_healthy fuel data o n c :
  interrupted c = false ->
  sat steadyStep n (sendTx this interrupts (S fuel) data o c)
      (fun o c' s' => (exists h, o = Returned (Some h)) /\ interrupted c' = false /\ s' = n).
Proof.
  intros Hc. cbn [sendTx].
  apply sat_bind, sat_isInterrupted. rewrite Hc.
  apply sat_try_catch, sat_bind, sat_await_any. intros r ->. exists n. split; [reflexivity|].
  destruct (healthy_sendTx _ _ healthy (tick c) data o) as (h & ->).
  apply sat_ret. cbn [interrupted]. rewrite (quiet_flag c Hc). eauto.
Qed.

Lemma getTransactionReceipt_healthy fuel h n c :
  interrupted c = false ->
  sat steadyStep n (getTransactionReceipt this interrupts (S fuel) h c)
      (fun o c' s' => (exists r, o = Returned (Some r) /\ status r = true) /\
                      interrupted c' = false /\ s' = n).
Proof.
  intros Hc. cbn [getTransactionReceipt].
  apply sat_bind, sat_isInterrupted. rewrite Hc.
  apply sat_try_catch, sat_await_any. intros r ->. exists n. split; [reflexivity|].
  destruct (healthy_getTransactionReceiptSafe _ _ healthy (tick c) h 300) as (r & -> & Hr).
  cbn [interrupted]. rewrite (quiet_flag c Hc). eauto.
Qed.

Lemma sendLoop_healthy fuel i todo : forall nonce n c,
  interrupted c = false ->
  forallb (fun s => negb (success s)) todo = true ->
  sat steadyStep n (sendLoop this interrupts (S fuel) i todo nonce c)
      (fun o c' s' =>
         (exists todo', o = Returned todo' /\ List.length todo' = List.length todo /\
                        existsb hashUndefined todo' = false) /\
         interrupted c' = false /\ s' = n).
Proof.
  revert i; induction todo as [|s rest IH]; intros i nonce n c Hc Hs.
  - apply sat_ret. split; [exists []|]; auto.
  - cbn [forallb] in Hs. apply andb_true_iff in Hs as [Hs Hrest].
    apply negb_true_iff in Hs.
    cbn [sendLoop]. apply sat_bind, sat_isInterrupted. rewrite Hc, Hs.
    apply sat_bind. eapply sat_mark; [reflexivity|].
    apply sat_bind. eapply sat_weaken; [apply sendTx_healthy, Hc|].
    cbv beta. intros o c1 s1 ((h & ->) & Hc1 & ->).
    apply sat_bind. eapply sat_weaken; [apply IH; [exact Hc1|exact Hrest]|].
    cbv beta. intros o c2 s2 ((rest' & -> & Hl & Hh) & Hc2 & ->).
    apply sat_ret. split; [|auto].
    exists (setTxHash s (Some h) :: rest'). cbn. rewrite Hl, Hh. auto.
Qed.

Lemma receiptLoop_healthy fuel i todo : forall n c,
  interrupted c = false ->
  sat steadyStep n (receiptLoop this interrupts (S fuel) i todo c)
      (fun o c' s' =>
         (exists todo', o = Returned (AllSucceeded, todo')) /\
         interrupted c' = false /\ s' = n).
Proof.
  revert i; induction todo as [|s rest IH]; intros i n c Hc.
  - apply sat_ret. split; [exists []|]; auto.
  - cbn [receiptLoop]. destruct (success s).
    + apply sat_bind. eapply sat_weaken; [apply IH, Hc|].
      cbv beta. intros o c2 s2 ((rest' & ->) & Hc2 & ->).
      apply sat_ret. cbn [fst snd]. eauto.
    + apply sat_bind. eapply sat_weaken; [apply getTransactionReceipt_healthy, Hc|].
      cbv beta. intros o c1 s1 ((r & -> & Hr) & Hc1 & ->). rewrite Hr.
      apply sat_bind. eapply sat_mark; [reflexivity|].
      apply sat_bind. eapply sat_weaken; [apply IH, Hc1|].
      cbv beta. intros o c2 s2 ((rest' & ->) & Hc2 & ->).
      apply sat_ret. cbn [fst snd]. eauto.
Qed.

Lemma mainLoop_healthy fuel rollup a sts n c :
  interrupted c = false ->
  sts <> [] ->
  forallb (fun s => negb (success s)) sts = true ->
  sat steadyStep n (mainLoop this interrupts (S (S fuel)) rollup gas (Some a) sts c)
      (fun o c' s' =>
         (exists sts', o = Returned (true, sts')) /\ interrupted c' = false /\ s' = S n).
Proof.
  intros Hc Hne Hs. cbn [mainLoop].
  apply sat_bind, sat_isInterrupted. rewrite Hc.
  apply sat_bind. unfold sendBatch.
  apply sat_bind. eapply sat_weaken; [apply gate_healthy, Hc|].
  cbv beta. intros o c1 s1 (-> & Hc1 & ->).
  apply sat_bind, sat_isInterrupted. rewrite Hc1.
  apply sat_bind, sat_await_any. intros r ->. exists (S n). split; [reflexivity|].
  destruct (healthy_getTransactionCount _ _ healthy (tick c1) (Some a)) as (nonce & ->).
  apply sat_bind. eapply sat_weaken; [apply sendLoop_healthy; [apply quiet_flag, Hc1|exact Hs]|].
  cbv beta. intros o c2 s2 ((sts1 & -> & Hl & Hh) & Hc2 & ->).
  apply sat_ret. unfold confirmBatch. rewrite Hh.
  destruct (lastStatus_some sts1) as (final & ->).
  { destruct sts1; [destruct sts; [congruence|discriminate]|discriminate]. }
  apply sat_bind, sat_bind, sat_await_any. intros r ->. exists (S n). split; [reflexivity|].
  rewrite (healthy_confirmSent _ _ healthy).
  apply sat_bind. eapply sat_weaken; [apply receiptLoop_healthy, quiet_flag, Hc2|].
  cbv beta. intros o c3 s3 ((sts2 & ->) & Hc3 & ->). cbn [fst].
  apply sat_bind. eapply sat_mark; [reflexivity|].
  apply sat_ret, sat_ret. eauto.
Qed.

Lemma collectSignatures_healthy jsTxs : forall sigs n c,
  interrupted c = false ->
  sat steadyStep n (collectSignatures this interrupts jsTxs sigs c)
      (fun o c' s' => (exists l, o = Returned l) /\ interrupted c' = false /\ s' = n).
Proof.
  induction jsTxs as [|t rest IH]; intros sigs n c Hc.
  - apply sat_ret. eauto.
  - cbn [collectSignatures].
    destruct (healthy_fromBuffer _ _ healthy (proofData t)) as ([owner txId] & ->).
    apply sat_bind, sat_await_any. intros r ->. exists n. split; [reflexivity|].
    destruct (healthy_getUserProofApprovalStatus _ _ healthy (tick c) owner txId) as (v & ->).
    destruct v; [|destruct (signature t)]; apply IH, quiet_flag, Hc.
Qed.

Lemma initialStatuses_fresh rt :
  initialStatuses rt <> [] /\
  forallb (fun s => negb (success s)) (initialStatuses rt) = true.
Proof.
  unfold initialStatuses. split.
  - intros H. apply app_eq_nil in H as [_ H]. discriminate.
  - rewrite forallb_app. cbn. rewrite andb_true_r.
    generalize 0, (List.length (offchainDataTxs rt)).
    induction (offchainDataTxs rt) as [|b l IH]; intros i len; cbn; auto.
Qed.

Lemma publishRollup_healthy fuel rollup c :
  interrupted c = false ->
  sat steadyStep 0 (publishRollup this interrupts (S (S fuel)) rollup gas c)
      (fun o c' s' => o = Returned true /\ interrupted c' = false /\ s' = 1).
Proof.
  intros Hc. unfold publishRollup, publishRollup_statuses.
  apply sat_bind, sat_bind. eapply sat_mark; [reflexivity|].
  apply sat_bind. unfold createTxData.
  apply sat_bind. eapply sat_weaken; [apply collectSignatures_healthy, Hc|].
  cbv beta. intros o c1 s1 ((sigs & ->) & Hc1 & ->).
  apply sat_await_any. intros r ->. exists 0. split; [reflexivity|].
  match goal with |- context [Blockchain.createRollupTxs ?b ?t ?p ?s ?o] =>
    destruct (healthy_createRollupTxs _ _ healthy t p s o) as (rt & ->) end.
  apply sat_bind, sat_await_any. intros r ->. exists 0. split; [reflexivity|].
  rewrite (healthy_setCallData _ _ healthy).
  apply sat_bind, sat_await_any. intros r ->. exists 0. split; [reflexivity|].
  match goal with |- context [EthereumRpc.getAccounts ?b ?t] =>
    destruct (healthy_getAccounts _ _ healthy t) as (a & rest & ->) end.
  cbn [hd_error].
  destruct (initialStatuses_fresh rt) as (Hne & Hs).
  eapply sat_weaken; [apply mainLoop_healthy; [|exact Hne|exact Hs]|].
  - cbn [interrupted tick]. rewrite Hc1, !quiet. reflexivity.
  - cbv beta. intros o c2 s2 ((sts' & ->) & Hc2 & ->). apply sat_ret. auto.
Qed.
End HealthyProofs.

(** ** How soon an interrupted call ends *)






Section AsapProofs.
Variable this : RollupPublisher.
Variable interrupts : nat -> bool.











End AsapProofs.

Section AsapWhole.
Variable this : RollupPublisher.
Variable interrupts : nat -> bool.


End AsapWhole.

Lemma advance_interrupted interrupts t : forall c,
  interrupted c = true -> interrupted (fold_left (advance interrupts) t c) = true.
Proof.
  induction t as [|e t IH]; intros c Hc; [exact Hc|].
  cbn [fold_left]. apply IH. unfold advance. destruct (isAwait e); [|exact Hc].
  cbn. rewrite Hc. reflexivity.
Qed.




(** ** The order of confirmations *)

Lemma order_quiet k : preserves orderStep (eq k) (fun e => negb (isSuccess e)).
Proof. intros s e <- He. exists k. destruct e; try discriminate; auto. Qed.

Lemma order_class (P : Event -> bool) (t : list Event) :
  (forall e, P e = true -> isSuccess e = false) ->
  forallb P t = true -> forallb (fun e => negb (isSuccess e)) t = true.
Proof.
  intros HP Ht. eapply forallb_impl; [|exact Ht].
  intros e He. cbv beta. rewrite (HP e He). reflexivity.
Qed.

Lemma confirmedUpTo_cons k i s rest :
  confirmedUpTo k i (s :: rest) <-> success s = (i <? k) /\ confirmedUpTo k (S i) rest.
Proof.
  unfold confirmedUpTo. cbn [map List.length seq]. split.
  - intros [= H1 H2]. auto.
  - intros [-> ->]. reflexivity.
Qed.

Lemma confirmedUpTo_none k k' i todo :
  k <= i -> k' <= i -> confirmedUpTo k i todo -> confirmedUpTo k' i todo.
Proof.
  unfold confirmedUpTo. intros Hk Hk' ->. apply map_ext_in.
  intros j Hj. apply in_seq in Hj.
  replace (j <? k) with false by (symmetry; apply Nat.ltb_ge; lia).
  symmetry; apply Nat.ltb_ge; lia.
Qed.

Section OrderProofs.
Variable this : RollupPublisher.
Variable interrupts : nat -> bool.

Lemma receiptLoop_order fuel i todo : forall c k,
  i <= k <= i + List.length todo ->
  confirmedUpTo k i todo ->
  sat orderStep k (receiptLoop this interrupts fuel i todo c)
      (fun o _ k' =>
         k <= k' /\
         forall ex todo', o = Returned (ex, todo') ->
           List.length todo' = List.length todo /\
           confirmedUpTo k' i todo' /\
           k' <= i + List.length todo /\
           (ex = AllSucceeded -> k' = i + List.length todo)).
Proof.
  revert i; induction todo as [|s rest IH]; intros i c k Hk Hp.
  { apply sat_ret. split; [lia|]. intros ex todo' [= <- <-]. cbn in *. repeat split; auto; lia. }
  cbn [List.length] in Hk. apply confirmedUpTo_cons in Hp as [Hs Hrest].
  assert (Hback : forall ex todo', (ex, todo') = (ex, s :: rest) -> ex <> AllSucceeded ->
            List.length todo' = List.length (s :: rest) /\
            confirmedUpTo k i todo' /\
            k <= i + List.length (s :: rest) /\
            (ex = AllSucceeded -> k = i + List.length (s :: rest))).
  { intros ex todo' [= ->] Hex. cbn [List.length]. repeat split; try lia; try tauto.
    apply confirmedUpTo_cons. auto. }
  cbn [receiptLoop]. destruct (success s) eqn:Es.
  - symmetry in Hs. apply Nat.ltb_lt in Hs.
    apply sat_bind. eapply sat_weaken; [apply (IH (S i) c k); [lia|exact Hrest]|].
    cbv beta. intros [[ex rest']| |] c' k' [Hkk H]; try (split; [exact Hkk|intros; discriminate]).
    destruct (H _ _ eq_refl) as (Hl & Hp' & Hk' & Ha).
    apply sat_ret. split; [exact Hkk|]. intros ex0 todo' [= <- <-]. cbn [fst snd List.length].
    split; [lia|]. split; [|split; [lia|intros E; specialize (Ha E); lia]].
    apply confirmedUpTo_cons. split; [|exact Hp'].
    rewrite Es. symmetry. apply Nat.ltb_lt. lia.
  - symmetry in Hs. apply Nat.ltb_ge in Hs. assert (k = i) by lia. subst k.
    apply sat_bind. eapply sat_weaken.
    + eapply sat_emits with (I := eq i); [apply order_quiet| |reflexivity].
      eapply order_class; [|apply getTransactionReceipt_emits].
      intros e; destruct e; try discriminate; reflexivity.
    + cbv beta. intros o c' s' (<- & -> & ->).
      destruct (outcome (getTransactionReceipt _ _ _ _ _)) as [[x|]| |];
        try (split; [lia|intros; discriminate]).
      2:{ apply sat_ret. split; [lia|]. intros ex todo' E. apply Hback; [|congruence].
          congruence. }
      destruct (status x).
      * apply sat_bind. eapply sat_mark; [cbn; rewrite Nat.eqb_refl; reflexivity|].
        apply sat_bind. eapply sat_weaken.
        { apply (IH (S i) _ (S i)); [lia|]. eapply confirmedUpTo_none; [| |exact Hrest]; lia. }
        cbv beta. intros [[ex rest']| |] c2 k' [Hkk H]; try (split; [lia|intros; discriminate]).
        destruct (H _ _ eq_refl) as (Hl & Hp' & Hk' & Ha).
        apply sat_ret. split; [lia|]. intros ex0 todo' [= <- <-]. cbn [fst snd List.length].
        split; [lia|]. split; [|split; [lia|intros E; specialize (Ha E); lia]].
        apply confirmedUpTo_cons. split; [|exact Hp'].
        cbn. symmetry. apply Nat.ltb_lt. lia.
      * destruct (revertError x) as [e|]; [destruct (String.eqb _ _)|].
        -- apply sat_ret. split; [lia|]. intros ex todo' E. apply Hback; congruence.
        -- apply sat_bind. eapply sat_await; [reflexivity|].
           apply sat_ret. split; [lia|]. intros ex todo' E. apply Hback; congruence.
        -- apply sat_bind. eapply sat_await; [reflexivity|].
           apply sat_ret. split; [lia|]. intros ex todo' E. apply Hback; congruence.
Qed.

Lemma confirmedUpTo_same k sts sts' :
  map tx sts' = map tx sts -> map success sts' = map success sts ->
  confirmedUpTo k 0 sts -> confirmedUpTo k 0 sts' /\ List.length sts' = List.length sts.
Proof.
  intros Ht Hs Hp. assert (Hl : List.length sts' = List.length sts).
  { rewrite <- (length_map tx sts'), Ht. apply length_map. }
  split; [|exact Hl]. unfold confirmedUpTo in *. rewrite Hs, Hl. exact Hp.
Qed.

Lemma sendBatch_order fuel gas signer sts c k :
  confirmedUpTo k 0 sts ->
  sat orderStep k (sendBatch this interrupts fuel gas signer sts c)
      (fun o _ k' =>
         k' = k /\
         forall sts', o = Returned (Some sts') ->
           confirmedUpTo k 0 sts' /\ List.length sts' = List.length sts).
Proof.
  intros Hp. eapply sat_weaken.
  - eapply sat_emits with (I := eq k); [apply order_quiet| |reflexivity].
    eapply order_class; [|apply sendBatch_emits].
    intros e; destruct e; try discriminate; reflexivity.
  - cbv beta. intros o c' s' (<- & -> & ->). split; [reflexivity|].
    intros sts' H. apply sendBatch_shape in H as [Ht Hs].
    apply confirmedUpTo_same; auto.
Qed.

Lemma confirmBatch_order fuel rollup sts c k :
  k <= List.length sts ->
  confirmedUpTo k 0 sts ->
  sat orderStep k (confirmBatch this interrupts fuel rollup sts c)
      (fun o _ k' =>
         forall ex sts', o = Returned (ex, sts') ->
           List.length sts' = List.length sts /\
           confirmedUpTo k' 0 sts' /\
           k' <= List.length sts /\
           (ex = AllSucceeded -> k' = List.length sts)).
Proof.
  intros Hk Hp. unfold confirmBatch.
  destruct (existsb _ _).
  { apply sat_ret. intros ex sts' [= <- <-]. repeat split; auto. discriminate. }
  destruct (lastStatus sts) as [final|]; [|apply sat_throw; intros; discriminate].
  apply sat_bind. eapply sat_await; [reflexivity|].
  destruct (RollupDb.confirmSent _ _ _ _); [|intros; discriminate].
  apply sat_bind. eapply sat_weaken; [apply (receiptLoop_order fuel 0 sts _ k); [lia|exact Hp]|].
  cbv beta. intros [[ex sts1]| |] c1 k1 [Hkk H]; try (intros; discriminate).
  destruct (H _ _ eq_refl) as (Hl & Hp1 & Hk1 & Ha). cbn [fst].
  assert (Hend : forall c2, sat orderStep k1 (ret (ex, sts1) c2)
            (fun o _ k' =>
               forall ex0 sts', o = Returned (ex0, sts') ->
                 List.length sts' = List.length sts /\
                 confirmedUpTo k' 0 sts' /\
                 k' <= List.length sts /\
                 (ex0 = AllSucceeded -> k' = List.length sts))).
  { intros c2. apply sat_ret. intros ex0 sts' [= <- <-]. repeat split; auto. }
  destruct ex; [apply sat_bind; eapply sat_mark; [reflexivity|]| |]; apply Hend.
Qed.

Lemma mainLoop_order fuel rollup gas signer : forall sts c k,
  k <= List.length sts ->
  confirmedUpTo k 0 sts ->
  sat orderStep k (mainLoop this interrupts fuel rollup gas signer sts c)
      (fun o _ k' => forall sts', o = Returned (true, sts') -> k' = List.length sts').
Proof.
  induction fuel as [|fuel IH]; intros sts c k Hk Hp.
  { apply sat_running. intros; discriminate. }
  cbn [mainLoop]. apply sat_bind, sat_isInterrupted.
  destruct (interrupted c); [apply sat_ret; intros; discriminate|].
  apply sat_bind. eapply sat_weaken; [apply sendBatch_order, Hp|].
  cbv beta. intros [[sts1|]| |] c1 k1 [-> H]; try (intros; discriminate).
  2:{ apply sat_ret. intros; discriminate. }
  destruct (H _ eq_refl) as (Hp1 & Hl1).
  apply sat_bind. eapply sat_weaken; [apply confirmBatch_order; [lia|exact Hp1]|].
  cbv beta. intros [[ex sts2]| |] c2 k2 H2; try (intros; discriminate).
  destruct (H2 _ _ eq_refl) as (Hl2 & Hp2 & Hk2 & Ha). cbn [fst snd].
  destruct ex.
  - apply sat_ret. intros sts' [= <-]. rewrite Hl2. apply Ha. reflexivity.
  - apply sat_ret. intros; discriminate.
  - apply IH; [lia|exact Hp2].
Qed.

Lemma confirmedUpTo_fresh l : forall i,
  forallb (fun s => negb (success s)) l = true -> confirmedUpTo 0 i l.
Proof.
  induction l as [|s l IH]; intros i H; [reflexivity|].
  cbn [forallb] in H. apply andb_true_iff in H as [Hs Hl]. apply negb_true_iff in Hs.
  apply confirmedUpTo_cons. split; [rewrite Hs; reflexivity|apply IH, Hl].
Qed.

Lemma initialStatuses_confirmedUpTo rt : confirmedUpTo 0 0 (initialStatuses rt).
Proof. apply confirmedUpTo_fresh, initialStatuses_fresh. Qed.

Lemma publishRollup_statuses_order fuel rollup gas c :
  sat orderStep 0 (publishRollup_statuses this interrupts fuel rollup gas c)
      (fun o _ k' => forall sts', o = Returned (true, sts') -> k' = List.length sts').
Proof.
  unfold publishRollup_statuses.
  apply sat_bind. eapply sat_mark; [reflexivity|].
  apply sat_bind. eapply sat_weaken.
  - eapply sat_emits with (I := eq 0); [apply order_quiet| |reflexivity].
    eapply order_class; [|apply createTxData_emits].
    intros e; destruct e; try discriminate; reflexivity.
  - cbv beta. intros o c' s' (<- & -> & ->).
    destruct (outcome (createTxData _ _ _ _)) as [rt| |]; try (intros; discriminate).
    apply sat_bind, sat_await_any. intros r _. exists 0. split; [reflexivity|].
    destruct r as [[]|e]; [|intros; discriminate].
    apply sat_bind, sat_await_any. intros r _. exists 0. split; [reflexivity|].
    destruct r as [accounts|e]; [|intros; discriminate].
    apply mainLoop_order; [lia|apply initialStatuses_confirmedUpTo].
Qed.
End OrderProofs.

Lemma accepts_order t : forall k0 k,
  accepts orderStep k0 t = Some k ->
  k0 <= k /\ filter isSuccess t = map EvSuccess (seq k0 (k - k0)).
Proof.
  induction t as [|e t IH]; intros k0 k; cbn [accepts].
  - intros [= <-]. rewrite Nat.sub_diag. auto.
  - destruct e; cbn [orderStep filter isSuccess]; try apply IH.
    destruct (i =? k0) eqn:E; [|discriminate]. apply Nat.eqb_eq in E. subst i.
    intros H. apply IH in H as [Hk ->]. split; [lia|].
    replace (k - k0) with (S (k - S k0)) by lia. reflexivity.
Qed.

(** ** Where hashes come from *)

Lemma answered_spec seen h :
  answered seen h = true <-> exists h0, h = Some h0 /\ In h0 seen.
Proof.
  unfold answered. destruct h as [h0|].
  - destruct (in_dec Buffer_eq_dec h0 seen); split; eauto; try discriminate.
    intros (h1 & [= <-] & H). contradiction.
  - split; [discriminate|]. intros (h0 & H & _). discriminate.
Qed.

Lemma hash_quiet seen :
  preserves hashStep (eq seen)
    (fun e => match e with
              | EvBlockchainSendTx _ _ _ | EvConfirmSent _ _ _
              | EvGetTransactionReceiptSafe _ _ _ => false
              | _ => true
              end).
Proof. intros s e <- He. exists seen. destruct e; try discriminate; auto. Qed.

Lemma known_incl seen seen' sts : known seen sts -> incl seen seen' -> known seen' sts.
Proof.
  unfold known. intros H Hi. eapply Forall_impl; [|exact H].
  intros [h|]; auto.
Qed.

Section HashProofs.
Variable this : RollupPublisher.
Variable interrupts : nat -> bool.

Lemma sendTx_hashes fuel data o : forall c seen,
  sat hashStep seen (sendTx this interrupts fuel data o c)
      (fun r _ seen' => incl seen seen' /\ forall h, r = Returned (Some h) -> In h seen').
Proof.
  induction fuel as [|fuel IH]; intros c seen.
  { apply sat_running. split; [apply incl_refl|discriminate]. }
  cbn [sendTx]. apply sat_bind, sat_isInterrupted.
  destruct (interrupted c); [apply sat_ret; split; [apply incl_refl|discriminate]|].
  apply sat_try_catch, sat_bind, sat_await_any. intros [h|e] _.
  - exists (h :: seen). split; [reflexivity|]. apply sat_ret.
    split; [apply incl_tl, incl_refl|]. intros h' [= <-]. left; reflexivity.
  - exists seen. split; [reflexivity|].
    destruct (message e); [|apply sat_throw; split; [apply incl_refl|discriminate]].
    apply sat_bind. eapply sat_await; [reflexivity|]. apply IH.
Qed.

Lemma sendLoop_hashes fuel i todo : forall nonce c seen,
  known seen todo ->
  sat hashStep seen (sendLoop this interrupts fuel i todo nonce c)
      (fun r _ seen' => incl seen seen' /\ forall todo', r = Returned todo' -> known seen' todo').
Proof.
  revert i; induction todo as [|s rest IH]; intros i nonce c seen Hk.
  { apply sat_ret. split; [apply incl_refl|]. intros todo' [= <-]. exact Hk. }
  cbn [sendLoop]. apply sat_bind, sat_isInterrupted.
  destruct (interrupted c).
  { apply sat_ret. split; [apply incl_refl|]. intros todo' [= <-]. exact Hk. }
  unfold known in Hk. cbn [map] in Hk. apply Forall_cons_iff in Hk as [Hs Hrest].
  destruct (success s).
  - apply sat_bind. eapply sat_weaken; [apply IH, Hrest|].
    cbv beta. intros [rest'| |] c1 seen1 [Hi H]; try (split; [exact Hi|discriminate]).
    apply sat_ret. split; [exact Hi|]. intros todo' [= <-].
    unfold known. cbn [map]. constructor; [|apply H; reflexivity].
    destruct (txHash s); auto.
  - apply sat_bind. eapply sat_mark; [reflexivity|].
    apply sat_bind. eapply sat_weaken; [apply sendTx_hashes|].
    cbv beta. intros [h| |] c1 seen1 [Hi Hh]; try (split; [exact Hi|discriminate]).
    apply sat_bind. eapply sat_weaken.
    { apply IH. eapply known_incl; eauto. }
    cbv beta. intros [rest'| |] c2 seen2 [Hi2 H];
      try (split; [eapply incl_tran; eauto|discriminate]).
    apply sat_ret. split; [eapply incl_tran; eauto|]. intros todo' [= <-].
    unfold known. cbn [map setTxHash txHash]. constructor; [|apply H; reflexivity].
    destruct h as [h0|]; auto.
Qed.

Lemma getTransactionReceipt_hashes fuel h : forall c seen,
  answered seen h = true ->
  sat hashStep seen (getTransactionReceipt this interrupts fuel h c) (fun _ _ seen' => seen' = seen).
Proof.
  induction fuel as [|fuel IH]; intros c seen Hh; [apply sat_running; reflexivity|].
  cbn [getTransactionReceipt]. apply sat_bind, sat_isInterrupted.
  destruct (interrupted c); [apply sat_ret; reflexivity|].
  apply sat_try_catch, sat_await_any. intros r _. exists seen.
  split; [cbn; rewrite Hh; reflexivity|].
  destruct r as [x|e]; [reflexivity|].
  apply sat_bind. eapply sat_await; [reflexivity|]. apply IH, Hh.
Qed.

Lemma receiptLoop_hashes fuel i todo : forall c seen,
  Forall (fun s => answered seen (txHash s) = true) todo ->
  sat hashStep seen (receiptLoop this interrupts fuel i todo c) (fun _ _ seen' => seen' = seen).
Proof.
  revert i; induction todo as [|s rest IH]; intros i c seen Hk; [apply sat_ret; reflexivity|].
  apply Forall_cons_iff in Hk as [Hs Hrest].
  cbn [receiptLoop]. destruct (success s).
  - apply sat_bind. eapply sat_weaken; [apply IH, Hrest|].
    cbv beta. intros [r| |] c1 seen1 ->; try reflexivity. apply sat_ret; reflexivity.
  - apply sat_bind. eapply sat_weaken; [apply getTransactionReceipt_hashes, Hs|].
    cbv beta. intros [[x|]| |] c1 seen1 ->; try reflexivity; [|apply sat_ret; reflexivity].
    destruct (status x).
    + apply sat_bind. eapply sat_mark; [reflexivity|].
      apply sat_bind. eapply sat_weaken; [apply IH, Hrest|].
      cbv beta. intros [r| |] c2 seen2 ->; try reflexivity. apply sat_ret; reflexivity.
    + destruct (revertError x) as [e|]; [destruct (String.eqb _ _)|];
        try (apply sat_ret; reflexivity);
        (apply sat_bind; eapply sat_await; [reflexivity|]; apply sat_ret; reflexivity).
Qed.

Lemma known_answered seen sts :
  known seen sts -> existsb hashUndefined sts = false ->
  Forall (fun s => answered seen (txHash s) = true) sts.
Proof.
  unfold known. induction sts as [|s sts IH]; cbn [map existsb]; intros Hk Hu; [constructor|].
  apply Forall_cons_iff in Hk as [Hs Hrest]. apply orb_false_iff in Hu as [Hu1 Hu2].
  constructor; [|apply IH; auto].
  unfold hashUndefined in Hu1. apply answered_spec.
  destruct (txHash s) as [h|]; [eauto|discriminate].
Qed.

Lemma confirmBatch_hashes fuel rollup sts c seen :
  known seen sts ->
  sat hashStep seen (confirmBatch this interrupts fuel rollup sts c)
      (fun r _ seen' => seen' = seen /\ forall ex sts', r = Returned (ex, sts') -> known seen sts').
Proof.
  intros Hk. unfold confirmBatch.
  destruct (existsb _ _) eqn:Hu.
  { apply sat_ret. split; [reflexivity|]. intros ex sts' [= <- <-]. exact Hk. }
  pose proof (known_answered _ _ Hk Hu) as Ha.
  destruct (lastStatus sts) as [final|] eqn:Hl;
    [|apply sat_throw; split; [reflexivity|discriminate]].
  assert (Hf : answered seen (txHash final) = true).
  { unfold lastStatus in Hl. apply nth_error_In in Hl.
    rewrite Forall_forall in Ha. apply Ha, Hl. }
  apply sat_bind, sat_await_any. intros r _. exists seen.
  split; [cbn; rewrite Hf; reflexivity|].
  destruct r as [[]|e]; [|split; [reflexivity|discriminate]].
  apply sat_bind. eapply sat_weaken; [apply sat_run, receiptLoop_hashes, Ha|].
  cbv beta. intros o c1 seen1 (-> & -> & _).
  destruct (outcome (receiptLoop _ _ _ _ _ _)) as [[ex sts1]| |] eqn:E;
    try (split; [reflexivity|discriminate]).
  apply receiptLoop_shape in E as (_ & E & _).
  assert (Hk1 : known seen sts1) by (unfold known; rewrite E; exact Hk).
  cbn [fst].
  destruct ex; [apply sat_bind; eapply sat_mark; [reflexivity|]| |];
    apply sat_ret; (split; [reflexivity|]); intros ex sts' [= <- <-]; exact Hk1.
Qed.

Lemma mainLoop_hashes fuel rollup gas signer : forall sts c seen,
  known seen sts ->
  sat hashStep seen (mainLoop this interrupts fuel rollup gas signer sts c) (fun _ _ _ => True).
Proof.
  induction fuel as [|fuel IH]; intros sts c seen Hk; [apply sat_running; exact I|].
  cbn [mainLoop]. apply sat_bind, sat_isInterrupted.
  destruct (interrupted c); [apply sat_ret; exact I|].
  apply sat_bind. unfold sendBatch. apply sat_bind. eapply sat_weaken.
  - eapply sat_emits with (I := eq seen); [apply hash_quiet| |reflexivity].
    eapply forallb_impl; [|apply gate_emits].
    intros e; destruct e; try discriminate; reflexivity.
  - cbv beta. intros o c1 s1 (<- & -> & ->).
    destruct (outcome (awaitGasPriceBelowThresholdAndSufficientBalance _ _ _ _ _ _)); try exact I.
    apply sat_bind, sat_isInterrupted.
    destruct (interrupted _); [apply sat_ret, sat_ret; exact I|].
    apply sat_bind, sat_await_any. intros r _. exists seen. split; [reflexivity|].
    destruct r as [nonce|e]; [|exact I].
    apply sat_bind. eapply sat_weaken; [apply sendLoop_hashes, Hk|].
    cbv beta. intros [sts1| |] c2 seen2 [Hi H]; try exact I.
    apply sat_ret. eapply sat_bind, sat_weaken; [apply confirmBatch_hashes, H; reflexivity|].
    cbv beta. intros [[ex sts2]| |] c3 seen3 [-> H3]; try exact I.
    cbn [fst snd]. destruct ex; try (apply sat_ret; exact I).
    apply IH, (H3 _ _ eq_refl).
Qed.

Lemma initialStatuses_known rt : known [] (initialStatuses rt).
Proof.
  unfold known, initialStatuses. rewrite map_app. apply Forall_app. split.
  - generalize 0, (List.length (offchainDataTxs rt)).
    induction (offchainDataTxs rt) as [|b l IH]; intros i len; cbn; constructor; auto.
  - repeat constructor.
Qed.

Lemma publishRollup_hashes fuel rollup gas c :
  sat hashStep [] (publishRollup this interrupts fuel rollup gas c) (fun _ _ _ => True).
Proof.
  unfold publishRollup, publishRollup_statuses.
  apply sat_bind, sat_bind. eapply sat_mark; [reflexivity|].
  apply sat_bind. eapply sat_weaken.
  - eapply sat_emits with (I := eq []); [apply hash_quiet| |reflexivity].
    eapply forallb_impl; [|apply createTxData_emits].
    intros e; destruct e; try discriminate; reflexivity.
  - cbv beta. intros o c' s' (<- & -> & ->).
    destruct (outcome (createTxData _ _ _ _)) as [rt| |]; try exact I.
    apply sat_bind, sat_await_any. intros r _. exists []. split; [reflexivity|].
    destruct r as [[]|e]; [|exact I].
    apply sat_bind, sat_await_any. intros r _. exists []. split; [reflexivity|].
    destruct r as [accounts|e]; [|exact I].
    eapply sat_weaken; [apply mainLoop_hashes, initialStatuses_known|].
    cbv beta. intros [r| |] c2 s2 _; try exact I. apply sat_ret; exact I.
Qed.
End HashProofs.

Lemma accepts_hashes t : forall seen seen',
  accepts hashStep seen t = Some seen' ->
  forall h, In h seen' ->
    In h seen \/ exists data o, In (EvBlockchainSendTx data o (Ok h)) t.
Proof.
  induction t as [|e t IH]; intros seen seen'; cbn [accepts].
  - intros [= <-]. auto.
  - destruct (hashStep seen e) as [s1|] eqn:E; [|discriminate].
    intros H h Hin. destruct (IH _ _ H h Hin) as [H1|(d & o & H1)].
    + destruct e; cbn in E;
        try (injection E as <-; auto);
        try (destruct (answered seen _); [injection E as <-; auto|discriminate]).
      destruct r as [h1|e1]; injection E as <-; auto.
      destruct H1 as [<-|H1]; auto. right. exists data, o. left; reflexivity.
    + right. exists d, o. right; exact H1.
Qed.

Lemma accepts_uses_hash pre e post seen h :
  accepts hashStep [] (pre ++ e :: post) = Some seen ->
  usesHash e = Some h ->
  exists h0, h = Some h0 /\ exists data o, In (EvBlockchainSendTx data o (Ok h0)) pre.
Proof.
  rewrite accepts_app. destruct (accepts hashStep [] pre) as [s1|] eqn:E; [|discriminate].
  cbn [accepts]. destruct (hashStep s1 e) as [s2|] eqn:E2; [|discriminate].
  intros _ Hu.
  assert (Ha : answered s1 h = true).
  { destruct e; try discriminate; cbn in Hu, E2; injection Hu as <-;
      destruct (answered s1 _); auto; discriminate. }
  apply answered_spec in Ha as (h0 & -> & Hin). exists h0. split; [reflexivity|].
  destruct (accepts_hashes _ _ _ E h0 Hin) as [[]|H]. exact H.
Qed.

(** ** What a call raises *)

Lemma raises_returned this gas A (a : A) c s : raises this gas (Returned a) c s.
Proof. intros err H. discriminate. Qed.

Lemma raises_running this gas A c s : raises this gas (@Running A) c s.
Proof. intros err H. discriminate. Qed.

Lemma raises_inside this gas A err c s :
  raisedInside this gas err -> raises this gas (@Thrown A err) c s.
Proof. intros H err' [= <-]. left. exact H. Qed.

Lemma raises_uncaught this gas A err e c :
  uncaught e = Some err -> raises this gas (@Thrown A err) c (Some e).
Proof. intros H err' [= <-]. right. eauto. Qed.

Lemma raises_unreadable this gas A err e c :
  unreadable e = Some err -> raises this gas (@Thrown A err) c (Some e).
Proof. intros H err' [= <-]. right. eauto. Qed.

Lemma sat_await_last A (interrupts : nat -> bool) (ask : nat -> Res A) (ev : Res A -> Event)
    (c : Clock) (s : option Event) (Q : Outcome A -> Clock -> option Event -> Prop) :
  (forall r, r = ask (tick c) ->
     Q (match r with Ok a => Returned a | Err e => Thrown e end)
       {| tick := S (tick c); interrupted := interrupted c || interrupts (tick c) |}
       (Some (ev r))) ->
  sat lastStep s (await interrupts ask ev c) Q.
Proof. intros H. eapply sat_await; [reflexivity|apply H; reflexivity]. Qed.

(** A sleep, then the rest. *)
Lemma sat_sleep_last A (interrupts : nat -> bool) (ms : N) (k : M A) (c : Clock)
    (s : option Event) (Q : Outcome A -> Clock -> option Event -> Prop) :
  (forall c' s', sat lastStep s' (k c') Q) ->
  sat lastStep s ((sleepOrInterrupted interrupts ms ;; k) c) Q.
Proof.
  intros H. apply sat_bind. unfold sleepOrInterrupted.
  apply sat_await_last. intros r ->. apply H.
Qed.

Ltac no_raise := first [apply raises_returned | apply raises_running].

Section ErrorProofs.
Variable this : RollupPublisher.
Variable interrupts : nat -> bool.
Variable gas : JsNumber.

Lemma gate_raises fuel signer : forall c s,
  sat lastStep s (awaitGasPriceBelowThresholdAndSufficientBalance this interrupts fuel signer gas c)
      (raises this gas).
Proof.
  induction fuel as [|fuel IH]; intros c s; [apply sat_running; no_raise|].
  cbn [awaitGasPriceBelowThresholdAndSufficientBalance].
  apply sat_bind, sat_isInterrupted.
  destruct (interrupted c); [apply sat_ret; no_raise|].
  apply sat_bind, sat_await_last. intros [fee|e] _; [|apply raises_uncaught; reflexivity].
  apply sat_bind, sat_await_last. intros [bal|e] _; [|apply raises_uncaught; reflexivity].
  destruct (BigInt gas) as [g|rangeError] eqn:Eg;
    [|apply sat_throw, raises_inside; right; right; left; exact Eg].
  apply sat_bind. destruct signer as [a|];
    [apply sat_ret|apply sat_throw, raises_inside; left; reflexivity].
  destruct (_ >? _)%Z; [|destruct (_ <? _)%Z].
  - apply sat_sleep_last. intros; apply IH.
  - apply sat_sleep_last. intros; apply IH.
  - apply sat_ret; no_raise.
Qed.

Lemma sendTx_raises fuel data o : forall c s,
  sat lastStep s (sendTx this interrupts fuel data o c) (raises this gas).
Proof.
  induction fuel as [|fuel IH]; intros c s; [apply sat_running; no_raise|].
  cbn [sendTx]. apply sat_bind, sat_isInterrupted.
  destruct (interrupted c); [apply sat_ret; no_raise|].
  apply sat_try_catch, sat_bind, sat_await_last. intros [h|e] _; [apply sat_ret; no_raise|].
  destruct (message e) eqn:Em; [|apply sat_throw, raises_unreadable; cbn; rewrite Em; reflexivity].
  apply sat_sleep_last. intros; apply IH.
Qed.

Lemma getTransactionReceipt_raises fuel h : forall c s,
  sat lastStep s (getTransactionReceipt this interrupts fuel h c) (raises this gas).
Proof.
  induction fuel as [|fuel IH]; intros c s; [apply sat_running; no_raise|].
  cbn [getTransactionReceipt]. apply sat_bind, sat_isInterrupted.
  destruct (interrupted c); [apply sat_ret; no_raise|].
  apply sat_try_catch, sat_await_last. intros [x|e] _; [no_raise|].
  apply sat_sleep_last. intros; apply IH.
Qed.

(** A call of a method of the class, then the rest. *)
Lemma sat_call_raises A B (m : M A) (k : A -> M B) (c : Clock) (s : option Event) :
  sat lastStep s (m c) (raises this gas) ->
  (forall a c' s', sat lastStep s' (k a c') (raises this gas)) ->
  sat lastStep s (bind m k c) (raises this gas).
Proof.
  intros Hm Hk. apply sat_bind. eapply sat_weaken; [exact Hm|].
  cbv beta. intros [a|e|] c' s' H; [apply Hk| |no_raise].
  intros err [= <-]. apply (H e eq_refl).
Qed.

Lemma sendLoop_raises fuel i todo : forall nonce c s,
  sat lastStep s (sendLoop this interrupts fuel i todo nonce c) (raises this gas).
Proof.
  revert i; induction todo as [|x rest IH]; intros i nonce c s; [apply sat_ret; no_raise|].
  cbn [sendLoop]. apply sat_bind, sat_isInterrupted.
  destruct (interrupted c); [apply sat_ret; no_raise|].
  destruct (success x).
  - apply sat_call_raises; [apply IH|]. intros; apply sat_ret; no_raise.
  - apply sat_bind. eapply sat_mark; [reflexivity|].
    apply sat_call_raises; [apply sendTx_raises|]. intros.
    apply sat_call_raises; [apply IH|]. intros; apply sat_ret; no_raise.
Qed.

Lemma receiptLoop_raises fuel i todo : forall c s,
  sat lastStep s (receiptLoop this interrupts fuel i todo c) (raises this gas).
Proof.
  revert i; induction todo as [|x rest IH]; intros i c s; [apply sat_ret; no_raise|].
  cbn [receiptLoop]. destruct (success x).
  - apply sat_call_raises; [apply IH|]. intros; apply sat_ret; no_raise.
  - apply sat_call_raises; [apply getTransactionReceipt_raises|]. intros [r|] c1 s1;
      [|apply sat_ret; no_raise].
    destruct (status r).
    + apply sat_bind. eapply sat_mark; [reflexivity|].
      apply sat_call_raises; [apply IH|]. intros; apply sat_ret; no_raise.
    + destruct (revertError r) as [e|]; [destruct (String.eqb _ _)|];
        try (apply sat_ret; no_raise);
        (apply sat_sleep_last; intros; apply sat_ret; no_raise).
Qed.

Lemma mainLoop_raises fuel rollup signer : forall sts c s,
  sat lastStep s (mainLoop this interrupts fuel rollup gas signer sts c) (raises this gas).
Proof.
  induction fuel as [|fuel IH]; intros sts c s; [apply sat_running; no_raise|].
  cbn [mainLoop]. apply sat_bind, sat_isInterrupted.
  destruct (interrupted c); [apply sat_ret; no_raise|].
  apply sat_call_raises.
  { unfold sendBatch. apply sat_call_raises; [apply gate_raises|]. intros.
    apply sat_bind, sat_isInterrupted. destruct (interrupted c'); [apply sat_ret; no_raise|].
    apply sat_bind, sat_await_last. intros [nonce|e] _; [|apply raises_uncaught; reflexivity].
    apply sat_call_raises; [apply sendLoop_raises|]. intros; apply sat_ret; no_raise. }
  intros [sts1|] c1 s1; [|apply sat_ret; no_raise].
  apply sat_call_raises.
  { unfold confirmBatch. destruct (existsb _ _); [apply sat_ret; no_raise|].
    destruct (lastStatus sts1);
      [|apply sat_throw, raises_inside; right; left; reflexivity].
    apply sat_bind, sat_await_last. intros [[]|e] _; [|apply raises_uncaught; reflexivity].
    apply sat_call_raises; [apply receiptLoop_raises|]. intros [ex sts2] c2 s2. cbn [fst].
    destruct ex; [apply sat_bind; eapply sat_mark; [reflexivity|]| |]; apply sat_ret; no_raise. }
  intros [ex sts2] c2 s2. cbn [fst snd].
  destruct ex; [apply sat_ret; no_raise|apply sat_ret; no_raise|apply IH].
Qed.

Lemma collectSignatures_raises jsTxs : forall sigs c s,
  sat lastStep s (collectSignatures this interrupts jsTxs sigs c) (raises this gas).
Proof.
  induction jsTxs as [|t rest IH]; intros sigs c s; [apply sat_ret; no_raise|].
  cbn [collectSignatures].
  destruct (fromBuffer this (proofData t)) as [[owner txId]|e] eqn:E.
  2:{ apply sat_throw, raises_inside. right; right; right. eauto. }
  apply sat_bind, sat_await_last. intros [[|]|e] _;
    [apply IH| |apply raises_uncaught; reflexivity].
  destruct (signature t); apply IH.
Qed.

Lemma publishRollup_raises fuel rollup c :
  sat lastStep None (publishRollup this interrupts fuel rollup gas c) (raises this gas).
Proof.
  unfold publishRollup, publishRollup_statuses.
  apply sat_call_raises; [|intros; apply sat_ret; no_raise].
  apply sat_bind. eapply sat_mark; [reflexivity|].
  apply sat_call_raises.
  { unfold createTxData. apply sat_call_raises; [apply collectSignatures_raises|]. intros.
    apply sat_await_last. intros [rt|e] _; [no_raise|apply raises_uncaught; reflexivity]. }
  intros rt c1 s1.
  apply sat_bind, sat_await_last. intros [[]|e] _; [|apply raises_uncaught; reflexivity].
  apply sat_bind, sat_await_last. intros [accounts|e] _; [|apply raises_uncaught; reflexivity].
  apply mainLoop_raises.
Qed.
End ErrorProofs.

Lemma accepts_last_event t : forall s s',
  accepts lastStep s t = Some s' ->
  (t = [] /\ s' = s) \/ exists pre e, t = pre ++ [e] /\ s' = Some e.
Proof.
  induction t as [|e t IH]; intros s s'; cbn [accepts lastStep].
  - intros [= <-]. auto.
  - intros H. right. destruct (IH _ _ H) as [[-> ->]|(pre & e' & -> & ->)].
    + exists [], e. auto.
    + exists (e :: pre), e'. auto.
Qed.

(** ** Configured values *)

Section ConfiguredProofs.
Variable this : RollupPublisher.
Variable interrupts : nat -> bool.
Variable rollup : RollupDao.

Lemma sendOptions_configured nonce : configuredOptions this (sendOptions this nonce) = true.
Proof.
  unfold configuredOptions, sendOptions. cbn. rewrite N.eqb_refl, !Z.eqb_refl. reflexivity.
Qed.

Lemma gate_configured fuel signer gas : forall c,
  forallb (configured this (id rollup))
    (emitted (awaitGasPriceBelowThresholdAndSufficientBalance this interrupts fuel signer gas c))
  = true.
Proof.
  induction fuel as [|fuel IH]; intros c; [reflexivity|].
  cbn [awaitGasPriceBelowThresholdAndSufficientBalance]. repeat emits_step; auto.
Qed.

Lemma sendTx_configured fuel data o : forall c,
  configuredOptions this o = true ->
  forallb (configured this (id rollup)) (emitted (sendTx this interrupts fuel data o c)) = true.
Proof.
  induction fuel as [|fuel IH]; intros c Ho; [reflexivity|].
  cbn [sendTx]. repeat emits_step; auto.
Qed.

Lemma getTransactionReceipt_configured fuel h : forall c,
  forallb (configured this (id rollup))
    (emitted (getTransactionReceipt this interrupts fuel h c)) = true.
Proof.
  induction fuel as [|fuel IH]; intros c; [reflexivity|].
  cbn [getTransactionReceipt]. repeat emits_step; auto.
Qed.

Lemma sendLoop_configured fuel i todo : forall nonce c,
  forallb (configured this (id rollup))
    (emitted (sendLoop this interrupts fuel i todo nonce c)) = true.
Proof.
  revert i; induction todo as [|s rest IH]; intros i nonce c; [reflexivity|].
  cbn [sendLoop]. repeat emits_step; auto.
  - cbn. rewrite sendOptions_configured. reflexivity.
  - apply sendTx_configured, sendOptions_configured.
Qed.

Lemma receiptLoop_configured fuel i todo : forall c,
  forallb (configured this (id rollup)) (emitted (receiptLoop this interrupts fuel i todo c)) = true.
Proof.
  revert i; induction todo as [|s rest IH]; intros i c; [reflexivity|].
  cbn [receiptLoop]. repeat emits_step; auto. apply getTransactionReceipt_configured.
Qed.

Lemma mainLoop_configured fuel gas signer : forall sts c,
  forallb (configured this (id rollup))
    (emitted (mainLoop this interrupts fuel rollup gas signer sts c)) = true.
Proof.
  induction fuel as [|fuel IH]; intros sts c; [reflexivity|].
  cbn [mainLoop]. unfold sendBatch, confirmBatch. repeat emits_step; auto.
  - apply gate_configured.
  - apply sendLoop_configured.
  - cbn. apply N.eqb_refl.
  - apply receiptLoop_configured.
Qed.

Lemma publishRollup_configured fuel gas c :
  forallb (configured this (id rollup))
    (emitted (publishRollup this interrupts fuel rollup gas c)) = true.
Proof.
  unfold publishRollup, publishRollup_statuses. repeat emits_step; auto.
  - eapply forallb_impl; [|apply createTxData_emits].
    intros e; destruct e; try discriminate; reflexivity.
  - cbn. apply N.eqb_refl.
  - apply mainLoop_configured.
Qed.
End ConfiguredProofs.

(** ** Before the main loop *)

Lemma stage_loop rollupId :
  preserves (stageStep rollupId) (eq StageLoop) (fun e => negb (preludeEvent e)).
Proof.
  intros s e <- He. exists StageLoop. apply negb_true_iff in He.
  cbn [stageStep]. rewrite He. auto.
Qed.

Section StageProofs.
Variable this : RollupPublisher.
Variable interrupts : nat -> bool.

Lemma mainLoop_emits_loop fuel rollup gas signer : forall sts c,
  forallb (fun e => negb (preludeEvent e))
    (emitted (mainLoop this interrupts fuel rollup gas signer sts c)) = true.
Proof.
  induction fuel as [|fuel IH]; intros sts c; [reflexivity|].
  cbn [mainLoop]. repeat emits_step; auto.
  - eapply forallb_impl; [|apply sendBatch_emits].
    intros e; destruct e; try discriminate; reflexivity.
  - eapply forallb_impl; [|apply confirmBatch_emits].
    intros e; destruct e; try discriminate; reflexivity.
Qed.

Lemma collectSignatures_stage rollupId jsTxs : forall sigs c,
  sat (stageStep rollupId) StageCreate (collectSignatures this interrupts jsTxs sigs c)
      (fun o _ s' => match o with
                     | Returned _ => s' = StageCreate
                     | Thrown _ => True
                     | Running => False
                     end).
Proof.
  induction jsTxs as [|t rest IH]; intros sigs c; [apply sat_ret; reflexivity|].
  cbn [collectSignatures].
  destruct (fromBuffer this (proofData t)) as [[owner txId]|e]; [|apply sat_throw; exact I].
  apply sat_bind, sat_await_any. intros [[|]|e] _; eexists; (split; [reflexivity|]);
    [apply IH| |exact I].
  destruct (signature t); apply IH.
Qed.

Lemma publishRollup_stage fuel rollup gas c :
  sat (stageStep (id rollup)) StageStart (publishRollup this interrupts fuel rollup gas c)
      (fun o _ s' => s' = StageFailed -> exists e, o = Thrown e).
Proof.
  unfold publishRollup, publishRollup_statuses.
  apply sat_bind, sat_bind. eapply sat_mark; [reflexivity|].
  apply sat_bind. unfold createTxData. apply sat_bind.
  eapply sat_weaken; [apply collectSignatures_stage|].
  cbv beta. intros [sigs|e|] c1 s1 H; [subst s1|intros; eauto|destruct H].
  apply sat_await_any. intros [rt|e] _; eexists; (split; [reflexivity|]); [|eauto].
  apply sat_bind, sat_await_any. intros r _. eexists. split.
  { cbn [stageStep]. rewrite N.eqb_refl.
    destruct (Buffer_eq_dec _ _); [reflexivity|congruence]. }
  destruct r as [[]|e]; [|eauto].
  apply sat_bind, sat_await_any. intros [accounts|e] _; eexists; (split; [reflexivity|]);
    [|eauto].
  eapply sat_weaken.
  - eapply sat_emits with (I := eq StageLoop); [apply stage_loop|apply mainLoop_emits_loop|reflexivity].
  - cbv beta. intros o c2 s2 (<- & -> & ->).
    destruct (outcome (mainLoop _ _ _ _ _ _ _ _)); [apply sat_ret| |]; discriminate.
Qed.
End StageProofs.

Lemma stage_leaves_early rollupId t : forall s s',
  accepts (stageStep rollupId) s t = Some s' -> earlyStage s = false ->
  earlyStage s' = false /\ forallb (fun e => negb (isSetCallData e)) t = true.
Proof.
  induction t as [|e t IH]; intros s s'; cbn [accepts forallb].
  - intros [= <-]. auto.
  - destruct (stageStep rollupId s e) as [s1|] eqn:E; [|discriminate].
    intros H Hs. assert (H1 : earlyStage s1 = false /\ isSetCallData e = false).
    { destruct s; try discriminate; cbn [stageStep] in E.
      - destruct e as [| | | | |[]| | | | | | | | |]; try discriminate; injection E as <-; auto.
      - destruct (preludeEvent e) eqn:P; [discriminate|]. injection E as <-.
        split; [reflexivity|]. destruct e; try reflexivity; discriminate. }
    destruct H1 as [H1 H2]. destruct (IH _ _ H H1) as [H3 H4].
    rewrite H2, H4. auto.
Qed.

Lemma stage_to_store rollupId t rt :
  accepts (stageStep rollupId) StageStart t = Some (StageStore rt) ->
  exists t' proof signatures offchain,
    t = t' ++ [EvCreateRollupTxs proof signatures offchain (Ok rt)].
Proof.
  intros H. apply accepts_last in H as [[_ [=]]|(t' & e & s1 & -> & _ & H)].
  exists t'. destruct s1; cbn [stageStep] in H.
  - destruct e; discriminate.
  - destruct e as [| |? ? []|p s o [rt'|]| | | | | | | | | | |]; try discriminate.
    injection H as ->. eauto.
  - destruct e; try discriminate.
    destruct (_ && _); [destruct r|]; discriminate.
  - destruct e as [| | | | |[]| | | | | | | | |]; discriminate.
  - destruct (preludeEvent e); discriminate.
  - discriminate.
Qed.

Lemma stage_setCallData rollupId pre i data r post s :
  accepts (stageStep rollupId) StageStart (pre ++ EvSetCallData i data r :: post) = Some s ->
  i = rollupId /\
  (exists pre' proof signatures offchain rt,
     pre = pre' ++ [EvCreateRollupTxs proof signatures offchain (Ok rt)] /\
     data = rollupProofTx rt) /\
  forallb (fun e => negb (isSetCallData e)) post = true /\
  (forall err, r = Err err -> post = []).
Proof.
  rewrite accepts_app.
  destruct (accepts (stageStep rollupId) StageStart pre) as [s1|] eqn:E; [|discriminate].
  cbn [accepts].
  destruct (stageStep rollupId s1 (EvSetCallData i data r)) as [s2|] eqn:E2; [|discriminate].
  intros H.
  assert (H1 : exists rt, s1 = StageStore rt /\ i = rollupId /\ data = rollupProofTx rt /\
                          s2 = match r with Ok _ => StageAccounts | Err _ => StageFailed end).
  { destruct s1; cbn [stageStep] in E2; try discriminate.
    exists rollupTxs. destruct (i =? rollupId)%N eqn:Ei; [|discriminate].
    destruct (Buffer_eq_dec data (rollupProofTx rollupTxs)); [|discriminate].
    apply N.eqb_eq in Ei. injection E2 as <-. auto. }
  destruct H1 as (rt & -> & -> & -> & ->).
  split; [reflexivity|]. split.
  { apply stage_to_store in E as (t' & p & sg & o & ->). eauto 8. }
  split.
  - eapply stage_leaves_early; [exact H|]. destruct r; reflexivity.
  - intros err ->. destruct post as [|e post]; [reflexivity|]. discriminate.
Qed.

(** ** Why a call gives up *)

Lemma hashes_defined sts :
  Forall (fun s => txHash s <> None) sts <-> existsb hashUndefined sts = false.
Proof.
  induction sts as [|s sts IH]; cbn [existsb]; [split; auto|].
  rewrite Forall_cons_iff, orb_false_iff, IH. unfold hashUndefined.
  destruct (txHash s); split; intros [H1 H2]; split; auto; congruence.
Qed.

Section GivesUpProofs.
Variable this : RollupPublisher.
Variable interrupts : nat -> bool.

Lemma sendTx_gives_hash fuel data o : forall c s,
  sat lastStep s (sendTx this interrupts fuel data o c)
      (fun r c' _ => r = Returned None -> interrupted c' = true).
Proof.
  induction fuel as [|fuel IH]; intros c s; [apply sat_running; discriminate|].
  cbn [sendTx]. apply sat_bind, sat_isInterrupted.
  destruct (interrupted c) eqn:Hc; [apply sat_ret; auto|].
  apply sat_try_catch, sat_bind, sat_await_last. intros [h|e] _; [apply sat_ret; discriminate|].
  destruct (message e); [|apply sat_throw; discriminate].
  apply sat_sleep_last. intros; apply IH.
Qed.

Lemma sendLoop_gives_hashes fuel i todo : forall nonce c s,
  confirmedHaveHash todo ->
  sat lastStep s (sendLoop this interrupts fuel i todo nonce c)
      (fun r c' _ => forall todo', r = Returned todo' ->
         interrupted c' = true \/ Forall (fun x => txHash x <> None) todo').
Proof.
  revert i; induction todo as [|x rest IH]; intros i nonce c s Hk.
  { apply sat_ret. intros todo' [= <-]. right. constructor. }
  cbn [sendLoop]. apply sat_bind, sat_isInterrupted.
  destruct (interrupted c) eqn:Hc; [apply sat_ret; auto|].
  apply Forall_cons_iff in Hk as [Hx Hrest].
  destruct (success x) eqn:Es.
  - apply sat_bind. eapply sat_weaken; [apply IH, Hrest|].
    cbv beta. intros [rest'| |] c1 s1 H; try (intros; discriminate).
    apply sat_ret. intros todo' [= <-].
    destruct (H _ eq_refl) as [H1|H1]; [left; exact H1|right].
    constructor; auto.
  - apply sat_bind. eapply sat_mark; [reflexivity|].
    apply sat_bind. eapply sat_weaken; [apply sendTx_gives_hash|].
    cbv beta. intros [h| |] c1 s1 H; try (intros; discriminate).
    apply sat_bind. eapply sat_weaken; [apply sat_run, IH, Hrest|].
    cbv beta. intros o c2 s2 (H2 & -> & ->).
    destruct (outcome (sendLoop _ _ _ _ _ _ _)) as [rest'| |] eqn:E; try (intros; discriminate).
    apply sat_ret. intros todo' [= <-].
    destruct (H2 _ eq_refl) as [H3|H3]; [left; exact H3|].
    destruct h as [h|].
    + right. constructor; [discriminate|exact H3].
    + left. specialize (H eq_refl).
      (* the rest of the loop does not run once the publisher is interrupted *)
      clear - H E. destruct rest as [|y rest]; [exact H|].
      cbn [sendLoop]. rewrite bind_run. cbn. rewrite H. exact H.
Qed.

Lemma getTransactionReceipt_gives_up fuel h : forall c s,
  sat lastStep s (getTransactionReceipt this interrupts fuel h c)
      (fun r c' s' =>
         match r with
         | Returned None => givesUp c' s'
         | Returned (Some x) => s' = Some (EvGetTransactionReceiptSafe h 300 (Ok (Some x)))
         | _ => True
         end).
Proof.
  induction fuel as [|fuel IH]; intros c s; [apply sat_running; exact I|].
  cbn [getTransactionReceipt]. apply sat_bind, sat_isInterrupted.
  destruct (interrupted c) eqn:Hc; [apply sat_ret; left; exact Hc|].
  apply sat_try_catch, sat_await_last. intros [[x|]|e] _.
  - reflexivity.
  - right. eexists. split; reflexivity.
  - apply sat_sleep_last. intros; apply IH.
Qed.

Lemma receiptLoop_gives_up fuel i todo : forall c s,
  sat lastStep s (receiptLoop this interrupts fuel i todo c)
      (fun r c' s' => forall todo', r = Returned (ReturnFalse, todo') -> givesUp c' s').
Proof.
  revert i; induction todo as [|x rest IH]; intros i c s; [apply sat_ret; discriminate|].
  cbn [receiptLoop]. destruct (success x).
  - apply sat_bind. eapply sat_weaken; [apply IH|].
    cbv beta. intros [[ex rest']| |] c1 s1 H; try (intros; discriminate).
    apply sat_ret. intros todo' [= -> <-]. eauto.
  - apply sat_bind. eapply sat_weaken; [apply getTransactionReceipt_gives_up|].
    cbv beta. intros [[r|]| |] c1 s1 H; try (intros; discriminate).
    2:{ apply sat_ret. intros todo' _. exact H. }
    subst s1. destruct (status r) eqn:Hs.
    + apply sat_bind. eapply sat_mark; [reflexivity|].
      apply sat_bind. eapply sat_weaken; [apply IH|].
      cbv beta. intros [[ex rest']| |] c2 s2 H; try (intros; discriminate).
      apply sat_ret. intros todo' [= -> <-]. eauto.
    + destruct (revertError r) as [e|] eqn:He; [destruct (String.eqb _ _) eqn:Ee|].
      * apply sat_ret. intros todo' _. right. eexists. split; [reflexivity|].
        cbn. unfold stateHashChanged. rewrite Hs, He, Ee. reflexivity.
      * apply sat_sleep_last. intros. apply sat_ret. discriminate.
      * apply sat_sleep_last. intros. apply sat_ret. discriminate.
Qed.

Lemma mainLoop_gives_up fuel rollup gas signer : forall sts c s,
  confirmedHaveHash sts ->
  sat lastStep s (mainLoop this interrupts fuel rollup gas signer sts c)
      (fun r c' s' => forall sts', r = Returned (false, sts') -> givesUp c' s').
Proof.
  induction fuel as [|fuel IH]; intros sts c s Hk; [apply sat_running; discriminate|].
  cbn [mainLoop]. apply sat_bind, sat_isInterrupted.
  destruct (interrupted c) eqn:Hc; [apply sat_ret; intros; left; exact Hc|].
  apply sat_bind. unfold sendBatch. apply sat_bind.
  eapply sat_weaken with (Q := fun _ _ _ => True).
  { eapply sat_weaken; [apply gate_raises|]. auto. }
  cbv beta. intros [[]| |] c1 s1 _; try (intros; discriminate).
  apply sat_bind, sat_isInterrupted.
  destruct (interrupted c1) eqn:Hc1.
  { apply sat_ret, sat_ret. intros; left; exact Hc1. }
  apply sat_bind, sat_await_last. intros [nonce|e] _; [|intros; discriminate].
  apply sat_bind. eapply sat_weaken; [apply sat_run, sendLoop_gives_hashes, Hk|].
  cbv beta. intros o c2 s2 (H & -> & ->).
  destruct (outcome (sendLoop _ _ _ _ _ _ _)) as [sts1| |] eqn:E; try (intros; discriminate).
  apply sat_ret. specialize (H _ eq_refl).
  unfold confirmBatch. destruct (existsb hashUndefined sts1) eqn:Hu.
  { apply sat_bind, sat_ret. cbn [fst snd]. apply sat_ret. intros sts' _.
    destruct H as [H|H]; [left; exact H|].
    apply hashes_defined in H. congruence. }
  apply sat_bind.
  destruct (lastStatus sts1); [|apply sat_throw; discriminate].
  apply sat_bind, sat_await_last. intros [[]|e] _; [|intros; discriminate].
  apply sat_bind. eapply sat_weaken; [apply sat_run, receiptLoop_gives_up|].
  cbv beta. intros o c3 s3 (H3 & -> & ->).
  destruct (outcome (receiptLoop _ _ _ _ _ _)) as [[ex sts2]| |] eqn:E3;
    try (intros; discriminate).
  cbn [fst].
  destruct ex.
  - apply sat_bind. eapply sat_mark; [reflexivity|]. apply sat_ret, sat_ret. discriminate.
  - apply sat_ret, sat_ret. cbn [snd]. intros sts' _. eapply H3; reflexivity.
  - apply sat_ret. cbn [fst snd]. apply IH.
    apply receiptLoop_shape in E3 as (_ & Eh & _).
    apply hashes_defined in Hu.
    assert (Hd : Forall (fun x => txHash x <> None) sts2).
    { clear - Eh Hu. revert sts1 Eh Hu. induction sts2 as [|y l IHl]; intros [|z l'] Eh Hu;
        try discriminate; constructor.
      - cbn in Eh. injection Eh as E1 E2. apply Forall_cons_iff in Hu as [Hz _]. congruence.
      - cbn in Eh. injection Eh as E1 E2. apply Forall_cons_iff in Hu as [_ Hl]. eauto. }
    eapply Forall_impl; [|exact Hd]. auto.
Qed.

Lemma initialStatuses_confirmedHaveHash rt : confirmedHaveHash (initialStatuses rt).
Proof.
  destruct (initialStatuses_fresh rt) as [_ H]. unfold confirmedHaveHash.
  apply Forall_forall. intros s Hin Hs. rewrite forallb_forall in H.
  apply H in Hin. rewrite Hs in Hin. discriminate.
Qed.

Lemma publishRollup_gives_up fuel rollup gas c :
  sat lastStep None (publishRollup this interrupts fuel rollup gas c)
      (fun r c' s' => r = Returned false -> givesUp c' s').
Proof.
  unfold publishRollup, publishRollup_statuses.
  apply sat_bind, sat_bind. eapply sat_mark; [reflexivity|].
  apply sat_bind. eapply sat_weaken with (Q := fun _ _ _ => True).
  { eapply sat_weaken; [unfold createTxData; apply (sat_call_raises this gas);
      [apply collectSignatures_raises|]|auto].
    intros. apply sat_await_last. intros [rt|e] _; [no_raise|apply raises_uncaught; reflexivity]. }
  cbv beta. intros [rt| |] c1 s1 _; try discriminate.
  apply sat_bind, sat_await_last. intros [[]|e] _; [|discriminate].
  apply sat_bind, sat_await_last. intros [accounts|e] _; [|discriminate].
  eapply sat_weaken; [apply mainLoop_gives_up, initialStatuses_confirmedHaveHash|].
  cbv beta. intros [[b sts]| |] c2 s2 H; try discriminate.
  apply sat_ret. cbn [fst]. intros [= ->]. eapply H; reflexivity.
Qed.
End GivesUpProofs.

(** ** Failed transactions *)

Lemma retry_quiet :
  preserves retryStep (eq RetryNone)
    (fun e => match e with EvGetTransactionReceiptSafe _ _ _ => false | _ => true end).
Proof. intros s e <- He. exists RetryNone. destruct e; try discriminate; auto. Qed.

Section RetryProofs.
Variable this : RollupPublisher.
Variable interrupts : nat -> bool.

Lemma getTransactionReceipt_retry fuel h : forall c,
  sat retryStep RetryNone (getTransactionReceipt this interrupts fuel h c)
      (fun o _ s' =>
         match o with
         | Returned (Some r) =>
             s' = if negb (status r) && negb (stateHashChanged r) then RetrySleep else RetryNone
         | _ => s' = RetryNone
         end).
Proof.
  induction fuel as [|fuel IH]; intros c; [apply sat_running; reflexivity|].
  cbn [getTransactionReceipt]. apply sat_bind, sat_isInterrupted.
  destruct (interrupted c); [apply sat_ret; reflexivity|].
  apply sat_try_catch, sat_await_any. intros [[r|]|e] _; eexists; (split; [reflexivity|]);
    try reflexivity.
  apply sat_bind. eapply sat_await; [reflexivity|]. apply IH.
Qed.

Lemma receiptLoop_retry fuel i todo : forall c,
  sat retryStep RetryNone (receiptLoop this interrupts fuel i todo c)
      (fun o _ s' =>
         match o with
         | Returned (ContinueMainLoop, _) => s' = RetryPoll
         | _ => s' = RetryNone
         end).
Proof.
  revert i; induction todo as [|x rest IH]; intros i c; [apply sat_ret; reflexivity|].
  cbn [receiptLoop]. destruct (success x).
  - apply sat_bind. eapply sat_weaken; [apply IH|].
    cbv beta. intros [[ex rest']| |] c1 s1 H; try exact H.
    apply sat_ret. cbn [fst snd]. destruct ex; exact H.
  - apply sat_bind. eapply sat_weaken; [apply getTransactionReceipt_retry|].
    cbv beta. intros [[r|]| |] c1 s1 H; try exact H; [|apply sat_ret; exact H].
    subst s1. unfold stateHashChanged. destruct (status r); cbn [negb andb].
    + apply sat_bind. eapply sat_mark; [reflexivity|].
      apply sat_bind. eapply sat_weaken; [apply IH|].
      cbv beta. intros [[ex rest']| |] c2 s2 H; try exact H.
      apply sat_ret. cbn [fst snd]. destruct ex; exact H.
    + destruct (revertError r) as [e|]; [destruct (String.eqb _ _)|]; cbn [negb].
      * apply sat_ret. reflexivity.
      * apply sat_bind. eapply sat_await; [reflexivity|]. apply sat_ret. reflexivity.
      * apply sat_bind. eapply sat_await; [reflexivity|]. apply sat_ret. reflexivity.
Qed.

Lemma gate_retry fuel signer gas : forall c s,
  s <> RetrySleep ->
  sat retryStep s (awaitGasPriceBelowThresholdAndSufficientBalance this interrupts fuel signer gas c)
      (fun o c' s' =>
         s' <> RetrySleep /\
         forall u, o = Returned u -> interrupted c' = false -> s' = RetryNone).
Proof.
  induction fuel as [|fuel IH]; intros c s Hs; [apply sat_running; split; [exact Hs|discriminate]|].
  cbn [awaitGasPriceBelowThresholdAndSufficientBalance].
  apply sat_bind, sat_isInterrupted.
  destruct (interrupted c) eqn:Hc.
  { apply sat_ret. split; [exact Hs|]. intros u _ H. congruence. }
  apply sat_bind, sat_await_any. intros r _. exists RetryNone. split.
  { destruct s; [reflexivity|congruence|reflexivity]. }
  destruct r as [fee|e]; [|split; discriminate].
  apply sat_bind, sat_await_any. intros r _. exists RetryNone. split; [reflexivity|].
  destruct r as [bal|e]; [|split; discriminate].
  destruct (BigInt gas) as [g|rangeError]; [|apply sat_throw; split; discriminate].
  apply sat_bind. destruct signer as [a|]; [apply sat_ret|apply sat_throw; split; discriminate].
  destruct (_ >? _)%Z; [|destruct (_ <? _)%Z].
  - apply sat_bind. eapply sat_await; [reflexivity|]. apply IH. discriminate.
  - apply sat_bind. eapply sat_await; [reflexivity|]. apply IH. discriminate.
  - apply sat_ret. split; [discriminate|reflexivity].
Qed.

Lemma mainLoop_retry fuel rollup gas signer : forall sts c s,
  s <> RetrySleep ->
  sat retryStep s (mainLoop this interrupts fuel rollup gas signer sts c)
      (fun _ _ s' => s' <> RetrySleep).
Proof.
  induction fuel as [|fuel IH]; intros sts c s Hs; [apply sat_running; exact Hs|].
  cbn [mainLoop]. apply sat_bind, sat_isInterrupted.
  destruct (interrupted c); [apply sat_ret; exact Hs|].
  apply sat_bind. unfold sendBatch. apply sat_bind.
  eapply sat_weaken; [apply gate_retry, Hs|].
  cbv beta. intros [[]| |] c1 s1 [H1 H2]; try exact H1.
  apply sat_bind, sat_isInterrupted.
  destruct (interrupted c1) eqn:Hc1; [apply sat_ret, sat_ret; exact H1|].
  rewrite (H2 tt eq_refl eq_refl).
  apply sat_bind, sat_await_any. intros r _. exists RetryNone. split; [reflexivity|].
  destruct r as [nonce|e]; [|discriminate].
  apply sat_bind. eapply sat_weaken.
  { eapply sat_emits with (I := eq RetryNone); [apply retry_quiet| |reflexivity].
    eapply forallb_impl; [|apply sendLoop_emits_sends].
    intros e; destruct e; try discriminate; reflexivity. }
  cbv beta. intros o c2 s2 (<- & -> & ->).
  destruct (outcome (sendLoop _ _ _ _ _ _ _)) as [sts1| |]; try discriminate.
  apply sat_ret. unfold confirmBatch.
  destruct (existsb _ _); [apply sat_bind, sat_ret, sat_ret; discriminate|].
  apply sat_bind.
  destruct (lastStatus sts1); [|apply sat_throw; discriminate].
  apply sat_bind, sat_await_any. intros r _. exists RetryNone. split; [reflexivity|].
  destruct r as [[]|e]; [|discriminate].
  apply sat_bind. eapply sat_weaken; [apply receiptLoop_retry|].
  cbv beta. intros [[ex sts2]| |] c3 s3 H; try (subst s3; discriminate).
  cbn [fst]. destruct ex; subst s3.
  - apply sat_bind. eapply sat_mark; [reflexivity|]. apply sat_ret, sat_ret. discriminate.
  - apply sat_ret, sat_ret. discriminate.
  - apply sat_ret. cbn [fst snd]. apply IH. discriminate.
Qed.

Lemma publishRollup_retry fuel rollup gas c :
  sat retryStep RetryNone (publishRollup this interrupts fuel rollup gas c)
      (fun _ _ s' => s' <> RetrySleep).
Proof.
  unfold publishRollup, publishRollup_statuses.
  apply sat_bind, sat_bind. eapply sat_mark; [reflexivity|].
  apply sat_bind. eapply sat_weaken.
  - eapply sat_emits with (I := eq RetryNone); [apply retry_quiet| |reflexivity].
    eapply forallb_impl; [|apply createTxData_emits].
    intros e; destruct e; try discriminate; reflexivity.
  - cbv beta. intros o c' s' (<- & -> & ->).
    destruct (outcome (createTxData _ _ _ _)) as [rt| |]; try discriminate.
    apply sat_bind, sat_await_any. intros r _. exists RetryNone. split; [reflexivity|].
    destruct r as [[]|e]; [|discriminate].
    apply sat_bind, sat_await_any. intros r _. exists RetryNone. split; [reflexivity|].
    destruct r as [accounts|e]; [|discriminate].
    eapply sat_weaken; [apply mainLoop_retry; discriminate|].
    cbv beta. intros [r| |] c2 s2 H; try exact H. apply sat_ret; exact H.
Qed.
End RetryProofs.

Lemma accepts_retry pre h timeout r post s :
  accepts retryStep RetryNone
    (pre ++ EvGetTransactionReceiptSafe h timeout (Ok (Some r)) :: post) = Some s ->
  s <> RetrySleep ->
  status r = false -> stateHashChanged r = false ->
  exists post',
    post = EvSleep 60000 :: post' /\
    (post' = [] \/ exists fee post'', post' = EvGetBlockByNumber fee :: post'').
Proof.
  rewrite accepts_app.
  destruct (accepts retryStep RetryNone pre) as [s1|] eqn:E; [|discriminate].
  cbn [accepts]. intros H Hs Hst Hsh.
  destruct s1; cbn [retryStep] in H; try discriminate.
  cbn [failedReceipt] in H. rewrite Hst, Hsh in H. cbn [negb andb] in H.
  destruct post as [|e post]; cbn [accepts retryStep] in H.
  { injection H as <-. congruence. }
  destruct e; try discriminate.
  destruct (ms =? 60000)%N eqn:Em; [|discriminate]. apply N.eqb_eq in Em. subst ms.
  exists post. split; [reflexivity|].
  destruct post as [|e post]; [left; reflexivity|right].
  cbn [accepts retryStep] in H. destruct e; try discriminate. eauto.
Qed.

(** ** How rejections are handled *)

Lemma sat_call_handled A B (m : M A) (k : A -> M B) (c : Clock) :
  sat handlingStep Going (m c) handled ->
  (forall a c', sat handlingStep Going (k a c') handled) ->
  sat handlingStep Going (bind m k c) handled.
Proof.
  intros Hm Hk. apply sat_bind. eapply sat_weaken; [exact Hm|].
  cbv beta. intros [a|e|] c' [ | |err] H; cbn in H |- *;
    try contradiction; try discriminate; auto.
  injection H as <-. reflexivity.
Qed.

(** A call made outside a [try]. *)
Lemma sat_await_handled A (interrupts : nat -> bool) (ask : nat -> Res A)
    (ev : Res A -> Event) (c : Clock) (Q : Outcome A -> Clock -> Handling -> Prop) :
  (forall a, uncaught (ev (Ok a)) = None /\ caught (ev (Ok a)) = false) ->
  (forall err, uncaught (ev (Err err)) = Some err) ->
  (forall r c',
     Q (match r with Ok a => Returned a | Err err => Thrown err end) c'
       (match r with Ok _ => Going | Err err => Rejected err end)) ->
  sat handlingStep Going (await interrupts ask ev c) Q.
Proof.
  intros Hok Herr HQ. apply sat_await_any. intros [a|err] _.
  - exists Going. split; [|apply (HQ (Ok a))].
    cbn [handlingStep]. destruct (Hok a) as [-> ->]. reflexivity.
  - exists (Rejected err). split; [|apply (HQ (Err err))].
    cbn [handlingStep]. rewrite Herr. reflexivity.
Qed.

(** A sleep, then the rest. *)
Lemma sat_sleep_handled A (interrupts : nat -> bool) (ms : N) (k : M A) (c : Clock) :
  (forall c', sat handlingStep Going (k c') handled) ->
  sat handlingStep Going ((sleepOrInterrupted interrupts ms ;; k) c) handled.
Proof.
  intros H. apply sat_bind. unfold sleepOrInterrupted.
  eapply sat_await; [reflexivity|]. apply H.
Qed.

Ltac outside_try :=
  apply sat_await_handled; [intros; split; reflexivity | reflexivity |].

Section HandlingProofs.
Variable this : RollupPublisher.
Variable interrupts : nat -> bool.

Lemma gate_handled fuel signer gas : forall c,
  sat handlingStep Going
      (awaitGasPriceBelowThresholdAndSufficientBalance this interrupts fuel signer gas c)
      handled.
Proof.
  induction fuel as [|fuel IH]; intros c; [apply sat_running; exact I|].
  cbn [awaitGasPriceBelowThresholdAndSufficientBalance].
  apply sat_bind, sat_isInterrupted.
  destruct (interrupted c); [apply sat_ret; exact I|].
  apply sat_bind. outside_try. intros [fee|err] c1; [|reflexivity].
  apply sat_bind. outside_try. intros [bal|err] c2; [|reflexivity].
  destruct (BigInt gas) as [g|rangeError]; [|apply sat_throw; exact I].
  apply sat_bind. destruct signer as [a|]; [apply sat_ret|apply sat_throw; exact I].
  destruct (_ >? _)%Z; [|destruct (_ <? _)%Z].
  - apply sat_sleep_handled. intros; apply IH.
  - apply sat_sleep_handled. intros; apply IH.
  - apply sat_ret; exact I.
Qed.

Lemma sendTx_handled fuel data o : forall c,
  sat handlingStep Going (sendTx this interrupts fuel data o c) handled.
Proof.
  induction fuel as [|fuel IH]; intros c; [apply sat_running; exact I|].
  cbn [sendTx]. apply sat_bind, sat_isInterrupted.
  destruct (interrupted c); [apply sat_ret; exact I|].
  apply sat_try_catch, sat_bind, sat_await_any. intros [h|err] _.
  - exists Going. split; [reflexivity|]. apply sat_ret. exact I.
  - destruct (message err) eqn:Em.
    + exists Caught. split; [cbn; rewrite Em; reflexivity|].
      apply sat_bind. unfold sleepOrInterrupted.
      eapply sat_await; [reflexivity|]. apply IH.
    + exists Going. split; [cbn; rewrite Em; reflexivity|].
      apply sat_throw. exact I.
Qed.

Lemma getTransactionReceipt_handled fuel h : forall c,
  sat handlingStep Going (getTransactionReceipt this interrupts fuel h c) handled.
Proof.
  induction fuel as [|fuel IH]; intros c; [apply sat_running; exact I|].
  cbn [getTransactionReceipt]. apply sat_bind, sat_isInterrupted.
  destruct (interrupted c); [apply sat_ret; exact I|].
  apply sat_try_catch, sat_await_any. intros [x|err] _.
  - exists Going. split; [reflexivity|]. exact I.
  - exists Caught. split; [reflexivity|].
    apply sat_bind. unfold sleepOrInterrupted.
    eapply sat_await; [reflexivity|]. apply IH.
Qed.

Lemma sendLoop_handled fuel i todo : forall nonce c,
  sat handlingStep Going (sendLoop this interrupts fuel i todo nonce c) handled.
Proof.
  revert i; induction todo as [|x rest IH]; intros i nonce c; [apply sat_ret; exact I|].
  cbn [sendLoop]. apply sat_bind, sat_isInterrupted.
  destruct (interrupted c); [apply sat_ret; exact I|].
  destruct (success x).
  - apply sat_call_handled; [apply IH|]. intros; apply sat_ret; exact I.
  - apply sat_bind. eapply sat_mark; [reflexivity|].
    apply sat_call_handled; [apply sendTx_handled|]. intros.
    apply sat_call_handled; [apply IH|]. intros; apply sat_ret; exact I.
Qed.

Lemma receiptLoop_handled fuel i todo : forall c,
  sat handlingStep Going (receiptLoop this interrupts fuel i todo c) handled.
Proof.
  revert i; induction todo as [|x rest IH]; intros i c; [apply sat_ret; exact I|].
  cbn [receiptLoop]. destruct (success x).
  - apply sat_call_handled; [apply IH|]. intros; apply sat_ret; exact I.
  - apply sat_call_handled; [apply getTransactionReceipt_handled|]. intros [r|] c1;
      [|apply sat_ret; exact I].
    destruct (status r).
    + apply sat_bind. eapply sat_mark; [reflexivity|].
      apply sat_call_handled; [apply IH|]. intros; apply sat_ret; exact I.
    + destruct (revertError r) as [e|]; [destruct (String.eqb _ _)|];
        try (apply sat_ret; exact I);
        (apply sat_sleep_handled; intros; apply sat_ret; exact I).
Qed.

Lemma mainLoop_handled fuel rollup gas signer : forall sts c,
  sat handlingStep Going (mainLoop this interrupts fuel rollup gas signer sts c) handled.
Proof.
  induction fuel as [|fuel IH]; intros sts c; [apply sat_running; exact I|].
  cbn [mainLoop]. apply sat_bind, sat_isInterrupted.
  destruct (interrupted c); [apply sat_ret; exact I|].
  apply sat_call_handled.
  { unfold sendBatch. apply sat_call_handled; [apply gate_handled|]. intros.
    apply sat_bind, sat_isInterrupted. destruct (interrupted c'); [apply sat_ret; exact I|].
    apply sat_bind. outside_try. intros [nonce|err] c1; [|reflexivity].
    apply sat_call_handled; [apply sendLoop_handled|]. intros; apply sat_ret; exact I. }
  intros [sts1|] c1; [|apply sat_ret; exact I].
  apply sat_call_handled.
  { unfold confirmBatch. destruct (existsb _ _); [apply sat_ret; exact I|].
    destruct (lastStatus sts1); [|apply sat_throw; exact I].
    apply sat_bind. outside_try. intros [[]|err] c2; [|reflexivity].
    apply sat_call_handled; [apply receiptLoop_handled|]. intros [ex sts2] c3. cbn [fst].
    destruct ex; [apply sat_bind; eapply sat_mark; [reflexivity|]| |]; apply sat_ret; exact I. }
  intros [ex sts2] c2. cbn [fst snd].
  destruct ex; [apply sat_ret; exact I|apply sat_ret; exact I|apply IH].
Qed.

Lemma collectSignatures_handled jsTxs : forall sigs c,
  sat handlingStep Going (collectSignatures this interrupts jsTxs sigs c) handled.
Proof.
  induction jsTxs as [|t rest IH]; intros sigs c; [apply sat_ret; exact I|].
  cbn [collectSignatures].
  destruct (fromBuffer this (proofData t)) as [[owner txId]|e];
    [|apply sat_throw; exact I].
  apply sat_bind. outside_try. intros [[|]|err] c1; [apply IH| |reflexivity].
  destruct (signature t); apply IH.
Qed.

Lemma publishRollup_handled fuel rollup gas c :
  sat handlingStep Going (publishRollup this interrupts fuel rollup gas c) handled.
Proof.
  unfold publishRollup, publishRollup_statuses.
  apply sat_call_handled; [|intros; apply sat_ret; exact I].
  apply sat_bind. eapply sat_mark; [reflexivity|].
  apply sat_call_handled.
  { unfold createTxData. apply sat_call_handled; [apply collectSignatures_handled|]. intros.
    outside_try. intros [rt|err] c1; [exact I|reflexivity]. }
  intros rt c1.
  apply sat_bind. outside_try. intros [[]|err] c2; [|reflexivity].
  apply sat_bind. outside_try. intros [accounts|err] c3; [|reflexivity].
  apply mainLoop_handled.
Qed.
End HandlingProofs.

Lemma caught_not_uncaught e : caught e = true -> uncaught e = None.
Proof. destruct e; try discriminate; destruct r; try discriminate; reflexivity. Qed.

(** A rejection outside a [try] is the end of the trace. *)
Lemma handling_rejected pre e post err s' :
  accepts handlingStep Going (pre ++ e :: post) = Some s' ->
  uncaught e = Some err -> post = [] /\ s' = Rejected err.
Proof.
  intros H He. rewrite accepts_app in H.
  destruct (accepts handlingStep Going pre) as [[| |err0]|]; try discriminate.
  - cbn [accepts handlingStep] in H. rewrite He in H.
    destruct post as [|e' post]; [|discriminate].
    injection H as <-. auto.
  - destruct e; discriminate.
Qed.

(** A caught rejection is followed by a sleep of 60 s. *)
Lemma handling_caught pre e post s' :
  accepts handlingStep Going (pre ++ e :: post) = Some s' ->
  caught e = true ->
  (post = [] /\ s' = Caught) \/ exists post', post = EvSleep 60000 :: post'.
Proof.
  intros H He. rewrite accepts_app in H.
  destruct (accepts handlingStep Going pre) as [[| |err0]|]; try discriminate.
  - cbn [accepts handlingStep] in H. rewrite (caught_not_uncaught _ He), He in H.
    destruct post as [|e' post]; [left; injection H as <-; auto|right].
    cbn [accepts handlingStep] in H. destruct e'; try discriminate.
    destruct (ms =? 60000)%N eqn:Em; [|discriminate].
    apply N.eqb_eq in Em. subst ms. eauto.
  - destruct e; discriminate.
Qed.

(** * Properties of [publishRollup] *)

(** C1, as amended.  In every pass of the main loop of every
    [publishRollup] call, the nonces given to [sendTx] (the method of the
    class, called at line 107) are consecutive and start at the nonce that
    [getTransactionCount] answered in that pass, as long as the nonces
    given to [sendTx] are below 2^53.  The calls of [blockchain.sendTx] that
    one call of [sendTx] makes, the first and its retries, all carry the
    payload, the nonce and the fees of that call.  The sends of a pass are,
    in order, those of the entries not yet successful, each with the next
    nonce, again as long as the nonces sent are below 2^53: a successful
    entry is skipped and takes no nonce.  (An interrupt cuts the sends of a
    pass short; without one, all of them are made.) *)
Theorem nonces_contiguous_below_two_to_53
    (this : RollupPublisher) (interrupts : nat -> bool) (fuel : nat)
    (rollup : RollupDao) (estimatedGas : JsNumber) (c : Clock) :
  (forallb nonceInRange
     (emitted (publishRollup this interrupts fuel rollup estimatedGas c)) = true ->
   contiguousNonces None
     (emitted (publishRollup this interrupts fuel rollup estimatedGas c))) /\
  attemptsCarryTheSend None (emitted (publishRollup this interrupts fuel rollup estimatedGas c)) /\
  (forall i todo nonce c',
     forallb nonceInRange (emitted (sendLoop this interrupts fuel i todo nonce c')) = true ->
     exists k, filter isSend (emitted (sendLoop this interrupts fuel i todo nonce c')) =
               firstn k (plannedSends this i todo nonce)) /\
  (forall i todo nonce c' todo',
     forallb nonceInRange (emitted (sendLoop this interrupts fuel i todo nonce c')) = true ->
     outcome (sendLoop this interrupts fuel i todo nonce c') = Returned todo' ->
     interrupted (clock (sendLoop this interrupts fuel i todo nonce c')) = false ->
     filter isSend (emitted (sendLoop this interrupts fuel i todo nonce c')) =
     plannedSends this i todo nonce).
Proof.
  split; [|split; [|split]].
  - intros Hr. rewrite publishRollup_emitted in Hr |- *.
    destruct (publishRollup_discipline this interrupts fuel rollup estimatedGas c
                {| expect := None; latest := None |}) as (payloads & _ & s' & Ha & _).
    apply (discipline_contiguous _ _ _ _ Ha Hr).
  - rewrite publishRollup_emitted.
    destruct (publishRollup_attempts this interrupts fuel rollup estimatedGas c)
      as (cur & Ha & _).
    apply (attempts_accepted _ _ _ Ha).
  - intros; apply sendLoop_planned_prefix; assumption.
  - intros; eapply sendLoop_planned_all; eauto.
Qed.

(** The claim without the bound.  The signer's nonce is 2^53 - 1: the three
    sends of the pass carry 2^53 - 1, 2^53 and 2^53 again, since [nonce++]
    leaves 2^53 where it finds 2^53. *)
Lemma nonces_repeat_from_two_to_53 :
  filter isSend
    (emitted (publishRollup hugeNoncePublisher noInterrupts 6 demoRollup 100 start)) =
  [EvSend 0 (buf 101) (sendOptions hugeNoncePublisher 9007199254740991);
   EvSend 1 (buf 102) (sendOptions hugeNoncePublisher 9007199254740992);
   EvSend 2 (buf 9) (sendOptions hugeNoncePublisher 9007199254740992)] /\
  ~ contiguousNonces None
      (emitted (publishRollup hugeNoncePublisher noInterrupts 6 demoRollup 100 start)).
Proof.
  split; [vm_compute; reflexivity|].
  intros H. vm_compute in H. decompose [and] H. discriminate.
Qed.

(** C2, as amended.  With [rollupTxs] the batch that [createTxData] built:
    the status list is the broadcast payloads in order followed by the
    rollup proof, at the start of the call and at its end, the send phase
    and the receipt phase of a pass leave the payloads of the list as they
    find them, and the send of entry [i] carries the payload of entry [i],
    so that index [n], the number of broadcasts, is the rollup proof.  Of
    two sends of one pass of the main loop (no [getTransactionCount] in
    between), the earlier one is of an entry with a smaller index, and it
    carries a smaller nonce as long as the nonces given to [sendTx] in the
    call are below 2^53.  So in every pass each broadcast that is sent is
    sent before the rollup proof, nothing is sent after the rollup proof,
    and below 2^53 the nonce of the rollup proof is the greatest of the
    pass. *)
Theorem rollup_proof_sent_last_with_highest_nonce
    (this : RollupPublisher) (interrupts : nat -> bool) (fuel : nat)
    (rollup : RollupDao) (estimatedGas : JsNumber) (c : Clock) (rollupTxs : RollupTxs) :
  outcome (createTxData this interrupts rollup c) = Returned rollupTxs ->
  let batch := offchainDataTxs rollupTxs ++ [rollupProofTx rollupTxs] in
  let n := List.length (offchainDataTxs rollupTxs) in
  let t := emitted (publishRollup this interrupts fuel rollup estimatedGas c) in
  map tx (initialStatuses rollupTxs) = batch /\
  (forall b sts,
     outcome (publishRollup_statuses this interrupts fuel rollup estimatedGas c) = Returned (b, sts) ->
     map tx sts = batch) /\
  (forall f signer sts c' sts',
     outcome (sendBatch this interrupts f estimatedGas signer sts c') = Returned (Some sts') ->
     map tx sts' = map tx sts) /\
  (forall f sts c' exit sts',
     outcome (confirmBatch this interrupts f rollup sts c') = Returned (exit, sts') ->
     map tx sts' = map tx sts) /\
  (forall i d o, In (EvSend i d o) t -> nth_error batch i = Some d) /\
  (forall pre mid post i d o j d' o',
     t = pre ++ EvSend i d o :: mid ++ EvSend j d' o' :: post ->
     forallb (fun e => negb (isCount e)) mid = true ->
     i < j <= n /\
     (forallb nonceInRange t = true -> (nonce o < nonce o')%N)).
Proof.
  intros Hrt batch n t.
  destruct (publishRollup_discipline this interrupts fuel rollup estimatedGas c
              {| expect := None; latest := None |}) as (payloads & Hp & s' & Ha & _).
  rewrite (Hp _ Hrt) in Ha. fold batch in Ha.
  rewrite <- publishRollup_emitted in Ha. fold t in Ha.
  split; [apply initialStatuses_tx|].
  split.
  { intros b sts H. apply publishRollup_statuses_shape in H as (rt & Hrt' & E & _).
    rewrite Hrt in Hrt'. injection Hrt' as <-. exact E. }
  split.
  { intros f signer sts c' sts' H. eapply sendBatch_shape; eauto. }
  split.
  { intros f sts c' exit sts' H. eapply confirmBatch_shape; eauto. }
  split.
  { intros i d o Hin. eapply discipline_payload; eauto. }
  intros pre mid post i d o j d' o' Ht Hm.
  rewrite Ht in Ha.
  destruct (discipline_ordered _ _ _ _ _ _ _ _ _ _ _ _ Ha Hm) as [Hij Hn].
  assert (Hj : nth_error batch j = Some d').
  { eapply discipline_payload; [exact Ha|].
    apply in_or_app; right; right. apply in_or_app; right; left; reflexivity. }
  assert (j < List.length batch) by (apply nth_error_Some; congruence).
  unfold batch in H. rewrite length_app in H. cbn in H. fold n in H.
  split; [lia|].
  intros Hr. apply Hn. rewrite Ht in Hr.
  rewrite forallb_app in Hr. apply andb_true_iff in Hr as [_ Hr].
  change (EvSend i d o :: mid ++ EvSend j d' o' :: post)
    with ((EvSend i d o :: mid) ++ EvSend j d' o' :: post) in Hr.
  rewrite forallb_app in Hr. apply andb_true_iff in Hr as [Hr _]. exact Hr.
Qed.

(** The claim without the bound.  The signer's nonce is 2^53 - 1: the second
    broadcast and the rollup proof are sent in one pass, both with the nonce
    2^53. *)
Lemma rollup_proof_shares_a_nonce_from_two_to_53 :
  outcome (createTxData hugeNoncePublisher noInterrupts demoRollup start) = Returned demoBatch /\
  ~ (forall pre mid post i d o j d' o',
       emitted (publishRollup hugeNoncePublisher noInterrupts 6 demoRollup 100 start)
         = pre ++ EvSend i d o :: mid ++ EvSend j d' o' :: post ->
       forallb (fun e => negb (isCount e)) mid = true ->
       i < j <= 2 /\ (nonce o < nonce o')%N).
Proof.
  split; [reflexivity|]. intros H.
  assert (Ht : emitted (publishRollup hugeNoncePublisher noInterrupts 6 demoRollup 100 start) =
               firstn 9 (emitted (publishRollup hugeNoncePublisher noInterrupts 6
                                    demoRollup 100 start))
               ++ EvSend 1 (buf 102) (sendOptions hugeNoncePublisher 9007199254740992)
               :: [EvBlockchainSendTx (buf 102)
                     (sendOptions hugeNoncePublisher 9007199254740992) (Ok [])]
               ++ EvSend 2 (buf 9) (sendOptions hugeNoncePublisher 9007199254740992)
               :: skipn 12 (emitted (publishRollup hugeNoncePublisher noInterrupts 6
                                       demoRollup 100 start)))
    by (vm_compute; reflexivity).
  destruct (H _ _ _ _ _ _ _ _ _ Ht eq_refl) as [_ Hn].
  vm_compute in Hn. discriminate.
Qed.


(** C3.  Once entry [i] is marked successful (line 131, after a receipt with
    its status set), [sendTx] is not called for entry [i] again in the rest
    of the call. *)
Theorem confirmed_entry_never_resent
    (this : RollupPublisher) (interrupts : nat -> bool) (fuel : nat)
    (rollup : RollupDao) (estimatedGas : Z) (c : Clock)
    (pre post : list Event) (i : nat) :
  emitted (publishRollup this interrupts fuel rollup estimatedGas c)
    = pre ++ EvSuccess i :: post ->
  forall d o, ~ In (EvSend i d o) post.
Proof.
  intros Ht d o. rewrite publishRollup_emitted in Ht.
  destruct (publishRollup_confirmed this interrupts fuel rollup estimatedGas c)
    as (conf' & Ha & _).
  rewrite Ht, accepts_app in Ha.
  destruct (accepts confirmedStep [] pre) as [conf1|]; [|discriminate].
  cbn in Ha. eapply confirmed_not_sent; [exact Ha|left; reflexivity].
Qed.

(** C4.  When [publishRollup] returns [true], every entry of the status list
    (the broadcasts and the rollup proof that [createTxData] built) has its
    [success] flag set. *)
Theorem published_means_all_confirmed
    (this : RollupPublisher) (interrupts : nat -> bool) (fuel : nat)
    (rollup : RollupDao) (estimatedGas : Z) (c : Clock) :
  outcome (publishRollup this interrupts fuel rollup estimatedGas c) = Returned true ->
  exists sts rollupTxs,
    outcome (publishRollup_statuses this interrupts fuel rollup estimatedGas c) = Returned (true, sts) /\
    outcome (createTxData this interrupts rollup c) = Returned rollupTxs /\
    map tx sts = offchainDataTxs rollupTxs ++ [rollupProofTx rollupTxs] /\
    Forall (fun s => success s = true) sts.
Proof.
  rewrite publishRollup_outcome.
  destruct (outcome (publishRollup_statuses _ _ _ _ _ _)) as [[b sts]| |] eqn:E;
    try discriminate.
  cbn. intros [= ->].
  destruct (publishRollup_statuses_shape _ _ _ _ _ _ _ _ E) as (rt & Hrt & Htx & HB).
  exists sts, rt. auto.
Qed.

(** C5.  When a receipt is fetched whose status is clear and whose revert
    error is named [INCORRECT_STATE_HASH], that fetch is the last event of
    the call, so nothing is sent and no sleep is made after it, and
    [publishRollup] returns [false]. *)
Theorem incorrect_state_hash_aborts_at_once
    (this : RollupPublisher) (interrupts : nat -> bool) (fuel : nat)
    (rollup : RollupDao) (estimatedGas : Z) (c : Clock)
    (pre post : list Event) (h : option TxHash) (timeout : N)
    (receipt : Receipt) (e : RevertError) :
  emitted (publishRollup this interrupts fuel rollup estimatedGas c)
    = pre ++ EvGetTransactionReceiptSafe h timeout (Ok (Some receipt)) :: post ->
  status receipt = false ->
  revertError receipt = Some e ->
  name e = "INCORRECT_STATE_HASH"%string ->
  post = [] /\
  outcome (publishRollup this interrupts fuel rollup estimatedGas c) = Returned false.
Proof.
  intros Ht Hs He Hn.
  destruct (publishRollup_fatal this interrupts fuel rollup estimatedGas c)
    as (dead & Ha & Hd).
  rewrite Ht in Ha. apply fatal_is_last in Ha as [-> ->]; auto.
  cbn. unfold stateHashChanged. rewrite Hs, He, Hn. reflexivity.
Qed.


(** C8.  One poll of the gate, with the publisher not interrupted, reading
    [latestBaseFee] and [signerBalance]: if both
    [latestBaseFee + maxPriorityFeePerGas <= maxFeePerGas] and
    [signerBalance >= maxFeePerGas * estimatedGas] hold, the gate returns at
    once, without a sleep; otherwise it sleeps 60 s and goes round its loop
    again.  The fee [maxFeePerGas - maxPriorityFeePerGas] and the balance
    [maxFeePerGas * estimatedGas] clear the gate.  Conversely, whenever the
    gate returns with the publisher not interrupted, its last poll read a fee
    and a balance for which both conditions hold. *)
Theorem gate_clears_exactly_when_fee_and_balance_allow
    (this : RollupPublisher) (interrupts : nat -> bool) (fuel : nat)
    (a : EthAddress) (estimatedGas : Z) (c : Clock) (latestBaseFee signerBalance : Z) :
  interrupted c = false ->
  EthereumRpc.getBlockByNumber (ethereumRpc this) (tick c) = Ok latestBaseFee ->
  EthereumRpc.getBalance (ethereumRpc this) (S (tick c)) (Some a) = Ok signerBalance ->
  let gate := awaitGasPriceBelowThresholdAndSufficientBalance this interrupts in
  let feeOk := (latestBaseFee + this_maxPriorityFeePerGas this <= this_maxFeePerGas this)%Z in
  let balanceOk := (signerBalance >= this_maxFeePerGas this * estimatedGas)%Z in
  let polled := [EvGetBlockByNumber (Ok latestBaseFee); EvGetBalance (Some a) (Ok signerBalance)] in
  let c2 := {| tick := S (S (tick c));
               interrupted := interrupts (tick c) || interrupts (S (tick c)) |} in
  let c3 := {| tick := S (S (S (tick c)));
               interrupted := interrupts (tick c) || interrupts (S (tick c))
                              || interrupts (S (S (tick c))) |} in
  (feeOk /\ balanceOk ->
   gate (S fuel) (Some a) estimatedGas c =
   {| outcome := Returned tt; clock := c2; emitted := polled |}) /\
  (~ (feeOk /\ balanceOk) ->
   gate (S fuel) (Some a) estimatedGas c =
   {| outcome := outcome (gate fuel (Some a) estimatedGas c3);
      clock := clock (gate fuel (Some a) estimatedGas c3);
      emitted := polled ++ EvSleep 60000 :: emitted (gate fuel (Some a) estimatedGas c3) |}) /\
  (latestBaseFee = (this_maxFeePerGas this - this_maxPriorityFeePerGas this)%Z ->
   balanceOk -> outcome (gate (S fuel) (Some a) estimatedGas c) = Returned tt) /\
  (feeOk -> signerBalance = (this_maxFeePerGas this * estimatedGas)%Z ->
   outcome (gate (S fuel) (Some a) estimatedGas c) = Returned tt) /\
  (forall fuel' c',
     outcome (gate fuel' (Some a) estimatedGas c') = Returned tt ->
     interrupted (clock (gate fuel' (Some a) estimatedGas c')) = false ->
     exists pre fee bal,
       emitted (gate fuel' (Some a) estimatedGas c') =
       pre ++ [EvGetBlockByNumber (Ok fee); EvGetBalance (Some a) (Ok bal)] /\
       (fee + this_maxPriorityFeePerGas this <= this_maxFeePerGas this)%Z /\
       (bal >= this_maxFeePerGas this * estimatedGas)%Z).
Proof.
  intros Hc Hfee Hbal gate feeOk balanceOk polled c2 c3.
  pose proof (gate_poll this interrupts fuel a estimatedGas c _ _ Hc Hfee Hbal) as Hpoll.
  cbv zeta in Hpoll. fold gate c2 c3 polled in Hpoll.
  assert (Hclear : feeOk /\ balanceOk ->
            gate (S fuel) (Some a) estimatedGas c =
            {| outcome := Returned tt; clock := c2; emitted := polled |}).
  { intros [H1 H2]. rewrite Hpoll.
    replace (_ >? _)%Z with false by (symmetry; rewrite Z.gtb_ltb; apply Z.ltb_ge; exact H1).
    replace (_ <? _)%Z with false by (symmetry; apply Z.ltb_ge; unfold balanceOk in H2; lia).
    reflexivity. }
  split; [exact Hclear|]. split.
  { intros Hn. rewrite Hpoll.
    destruct (_ >? _)%Z eqn:E1; [reflexivity|].
    destruct (_ <? _)%Z eqn:E2; [reflexivity|].
    exfalso. apply Hn. rewrite Z.gtb_ltb in E1. apply Z.ltb_ge in E1. apply Z.ltb_ge in E2.
    split; [exact E1|unfold balanceOk; lia]. }
  split.
  { intros -> H2. rewrite Hclear; [reflexivity|]. split; [unfold feeOk; lia|exact H2]. }
  split.
  { intros H1 ->. rewrite Hclear; [reflexivity|]. split; [exact H1|unfold balanceOk; lia]. }
  intros fuel' c' Ho Hk.
  destruct (gate_returns_clear this interrupts fuel' a estimatedGas c' Ho Hk)
    as (pre & fee & bal & E & H1 & H2).
  exists pre, fee, bal. repeat split; auto. lia.
Qed.

(** C6, as amended.  When [getTransactionReceiptSafe] answers with no
    receipt (the poll timed out within its budget), that fetch is the last
    event of the call and [publishRollup] returns [false].  An error raised
    by the chain client while the receipt is fetched is caught: the publisher
    sleeps 60 s and goes round the fetch loop again, for the same hash.  The
    fetch loop gives no receipt either when the publisher is interrupted, and
    an entry without receipt leaves the receipt loop by [return false]. *)
Theorem receipt_timeout_aborts_and_error_is_retried
    (this : RollupPublisher) (interrupts : nat -> bool) (fuel : nat)
    (rollup : RollupDao) (estimatedGas : Z) (c : Clock) :
  (forall pre post h timeout,
     emitted (publishRollup this interrupts fuel rollup estimatedGas c)
       = pre ++ EvGetTransactionReceiptSafe h timeout (Ok None) :: post ->
     post = [] /\
     outcome (publishRollup this interrupts fuel rollup estimatedGas c) = Returned false) /\
  (forall h c' e,
     interrupted c' = false ->
     Blockchain.getTransactionReceiptSafe (blockchain this) (tick c') h 300 = Err e ->
     let c2 := {| tick := S (S (tick c'));
                  interrupted := interrupts (tick c') || interrupts (S (tick c')) |} in
     let again := getTransactionReceipt this interrupts fuel h c2 in
     getTransactionReceipt this interrupts (S fuel) h c' =
     {| outcome := outcome again;
        clock := clock again;
        emitted := EvGetTransactionReceiptSafe h 300 (Err e) :: EvSleep 60000 :: emitted again |}) /\
  (forall h c',
     interrupted c' = true ->
     getTransactionReceipt this interrupts (S fuel) h c' =
     {| outcome := Returned None; clock := c'; emitted := [] |}) /\
  (forall i s rest c',
     success s = false ->
     outcome (getTransactionReceipt this interrupts fuel (txHash s) c') = Returned None ->
     outcome (receiptLoop this interrupts fuel i (s :: rest) c') = Returned (ReturnFalse, s :: rest)).
Proof.
  split; [|split; [|split]].
  - intros pre post h timeout Ht.
    destruct (publishRollup_fatal this interrupts fuel rollup estimatedGas c)
      as (dead & Ha & Hd).
    rewrite Ht in Ha. apply fatal_is_last in Ha as [-> ->]; auto.
  - intros h c' e Hc He c2 again.
    cbn [getTransactionReceipt]. rewrite bind_run. cbn -[bind getTransactionReceipt].
    rewrite Hc. unfold try_catch. cbn -[bind getTransactionReceipt]. rewrite He.
    cbn -[bind getTransactionReceipt]. rewrite bind_run. cbn -[bind getTransactionReceipt].
    rewrite Hc. reflexivity.
  - intros h c' Hc. cbn [getTransactionReceipt]. rewrite bind_run. cbn. rewrite Hc. reflexivity.
  - intros i s rest c' Hs Hr. cbn [receiptLoop]. rewrite Hs, bind_run, Hr. reflexivity.
Qed.

Lemma receipt_timeout_aborts_and_error_is_retried_witness :
  outcome (publishRollup timeoutPublisher noInterrupts 6 demoRollup 100 start) = Returned false /\
  exists again : Run (option Receipt),
    getTransactionReceipt flakyPublisher noInterrupts 6 (Some (buf 7))
      {| tick := 10; interrupted := false |} =
    {| outcome := Returned (Some okReceipt);
       clock := clock again;
       emitted := EvGetTransactionReceiptSafe (Some (buf 7)) 300 (Err networkError)
                    :: EvSleep 60000 :: emitted again |}.
Proof.
  destruct (receipt_timeout_aborts_and_error_is_retried
              timeoutPublisher noInterrupts 6 demoRollup 100 start) as (H1 & _).
  destruct (receipt_timeout_aborts_and_error_is_retried
              flakyPublisher noInterrupts 5 demoRollup 100 start) as (_ & H2 & _).
  split.
  - apply (H1 (firstn 16 (emitted (publishRollup timeoutPublisher noInterrupts 6 demoRollup 100 start)))
              [] (Some (buf 8)) 300%N).
    reflexivity.
  - eexists. rewrite (H2 (Some (buf 7)) {| tick := 10; interrupted := false |} networkError);
      reflexivity.
Defined.

(** A chain client that raises at every receipt fetch: no receipt is ever
    returned, and [publishRollup] does not return [false], whatever the loop
    budget: it keeps sleeping and fetching.  And one that raises at the
    first fetch only: [publishRollup] returns [true]. *)
Lemma receipt_error_does_not_abort :
  (forall t h n, Blockchain.getTransactionReceiptSafe (blockchain unreachablePublisher) t h n
                 = Err networkError) /\
  ~ (exists fuel,
       outcome (publishRollup unreachablePublisher noInterrupts fuel demoRollup 100 start)
       = Returned false) /\
  In (EvGetTransactionReceiptSafe (Some (buf 7)) 300 (Err networkError))
     (emitted (publishRollup flakyPublisher noInterrupts 6 demoRollup 100 start)) /\
  outcome (publishRollup flakyPublisher noInterrupts 6 demoRollup 100 start) = Returned true.
Proof.
  split; [reflexivity|]. split.
  - intros (fuel & H). rewrite unreachable_never_returns in H. discriminate.
  - split; [|reflexivity]. cbn. do 14 right. left. reflexivity.
Qed.

(** C7, as amended.  [publishRollup] has a [try] around
    [blockchain.sendTx] and around [getTransactionReceiptSafe] only.  When
    the calls that it makes outside a [try] do not raise ([createTxData]'s
    calls, [setCallData], [getAccounts], which gives an account,
    [getBlockByNumber], [getBalance], [getTransactionCount], [confirmSent]),
    [estimatedGas] is an integer, so that [BigInt(estimatedGas)] does not
    raise, and the errors of [blockchain.sendTx] carry a message,
    [publishRollup] raises nothing: it returns [true] or [false], or is
    still retrying.  A rejection of one of the calls awaited outside a
    [try] is the last thing that the call does, and [publishRollup] raises
    that error.  A rejection of [getTransactionReceiptSafe], or one of
    [blockchain.sendTx] with a message, is caught: a sleep of 60 s comes
    next. *)
Theorem publishRollup_raises_only_what_collaborators_raise
    (this : RollupPublisher) (interrupts : nat -> bool) (fuel : nat)
    (rollup : RollupDao) (estimatedGas : JsNumber) (c : Clock) :
  let r := publishRollup this interrupts fuel rollup estimatedGas c in
  (CollaboratorsDoNotThrow this ->
   (forall rangeError, BigInt estimatedGas <> Err rangeError) ->
   outcome r = Returned true \/ outcome r = Returned false \/ outcome r = Running) /\
  (forall pre e post err,
     emitted r = pre ++ e :: post -> uncaught e = Some err ->
     post = [] /\ outcome r = Thrown err) /\
  (forall pre e post,
     emitted r = pre ++ e :: post -> caught e = true ->
     exists post', post = EvSleep 60000 :: post').
Proof.
  intros r.
  destruct (publishRollup_handled this interrupts fuel rollup estimatedGas c)
    as (s' & Ha & Hs). fold r in Ha, Hs.
  split; [|split].
  - intros ok Hgas. destruct estimatedGas as [gas|rangeError].
    + pose proof (publishRollup_no_throw this interrupts ok fuel rollup gas c) as H.
      unfold doesNotThrow in H. fold r in H.
      destruct (outcome r) as [[|]|e|]; auto. exfalso. eapply H; reflexivity.
    + exfalso. eapply Hgas; reflexivity.
  - intros pre e post err Ht He. rewrite Ht in Ha.
    destruct (handling_rejected _ _ _ _ _ Ha He) as [-> ->]. split; [reflexivity|exact Hs].
  - intros pre e post Ht He. rewrite Ht in Ha.
    destruct (handling_caught _ _ _ _ Ha He) as [[_ ->]|H]; [destruct Hs|exact H].
Qed.

Lemma publishRollup_raises_only_what_collaborators_raise_witness :
  (CollaboratorsDoNotThrow flakyPublisher /\
   outcome (publishRollup flakyPublisher noInterrupts 6 demoRollup 100 start) = Returned true) /\
  (nth_error (emitted (publishRollup noAccountsPublisher noInterrupts 6 demoRollup 100 start)) 3
   = Some (EvGetAccounts (Err networkError)) /\
   skipn 4 (emitted (publishRollup noAccountsPublisher noInterrupts 6 demoRollup 100 start)) = [] /\
   outcome (publishRollup noAccountsPublisher noInterrupts 6 demoRollup 100 start)
   = Thrown networkError) /\
  (nth_error (emitted (publishRollup flakyPublisher noInterrupts 6 demoRollup 100 start)) 14
   = Some (EvGetTransactionReceiptSafe (Some (buf 7)) 300 (Err networkError)) /\
   exists post',
     skipn 15 (emitted (publishRollup flakyPublisher noInterrupts 6 demoRollup 100 start))
     = EvSleep 60000 :: post').
Proof.
  assert (ok : CollaboratorsDoNotThrow flakyPublisher).
  { constructor; intros; try discriminate.
    exists (buf 1), []. reflexivity. }
  split; [split; [exact ok|]|split].
  - destruct (publishRollup_raises_only_what_collaborators_raise
                flakyPublisher noInterrupts 6 demoRollup 100 start) as (H & _).
    destruct (H ok) as [H1|[H1|H1]].
    + intros rangeError. discriminate.
    + exact H1.
    + exfalso. vm_compute in H1. discriminate.
    + exfalso. vm_compute in H1. discriminate.
  - split; [reflexivity|].
    destruct (publishRollup_raises_only_what_collaborators_raise
                noAccountsPublisher noInterrupts 6 demoRollup 100 start) as (_ & H & _).
    apply (H (firstn 3 (emitted (publishRollup noAccountsPublisher noInterrupts 6
                                   demoRollup 100 start)))
             (EvGetAccounts (Err networkError))
             (skipn 4 (emitted (publishRollup noAccountsPublisher noInterrupts 6
                                  demoRollup 100 start)))
             networkError); reflexivity.
  - split; [reflexivity|].
    destruct (publishRollup_raises_only_what_collaborators_raise
                flakyPublisher noInterrupts 6 demoRollup 100 start) as (_ & _ & H).
    apply (H (firstn 14 (emitted (publishRollup flakyPublisher noInterrupts 6
                                    demoRollup 100 start)))
             (EvGetTransactionReceiptSafe (Some (buf 7)) 300 (Err networkError))
             (skipn 15 (emitted (publishRollup flakyPublisher noInterrupts 6
                                   demoRollup 100 start)))); reflexivity.
Defined.

(** [getAccounts] raises: so does [publishRollup]. *)
Lemma getAccounts_error_reaches_the_caller :
  outcome (publishRollup noAccountsPublisher noInterrupts 6 demoRollup 100 start)
  = Thrown networkError.
Proof. reflexivity. Qed.

(** C9.  On a publisher on which [interrupt()] has been called, a
    [publishRollup] call ends with [false], or with what a collaborator
    raised, before the main loop does anything: it stays interrupted and
    emits no event of the main loop (no gate poll, no send).  No sequence of
    calls of the public methods of the class brings [this.interrupted] back
    to [false]. *)
Theorem interrupted_publisher_stays_interrupted
    (this : RollupPublisher) (interrupts : nat -> bool) (fuel : nat)
    (rollup : RollupDao) (estimatedGas : Z) (c : Clock) (calls : list Call) :
  let r := publishRollup this interrupts (S fuel) rollup estimatedGas (interrupt c) in
  interrupted (clock r) = true /\
  (outcome r = Returned false \/ exists e, outcome r = Thrown e) /\
  forallb preludeEvent (emitted r) = true /\
  interrupted (fold_left (perform this interrupts) calls (interrupt c)) = true.
Proof.
  intros r.
  destruct (publishRollup_interrupted this interrupts fuel rollup estimatedGas (interrupt c) eq_refl)
    as ((H1 & H2 & H3) & H4).
  fold r in H1, H2, H3, H4.
  repeat split; auto.
  - destruct (outcome r) as [[|]|e|]; auto; try congruence. eauto.
  - assert (H : forall c0, interrupted c0 = true ->
                  interrupted (fold_left (perform this interrupts) calls c0) = true).
    { induction calls as [|call calls IH]; intros c0 Hc0; [exact Hc0|].
      cbn [fold_left]. apply IH. destruct call as [f ro g|]; cbn [perform]; [|reflexivity].
      apply (publishRollup_interrupted this interrupts f ro g c0 Hc0). }
    apply H. reflexivity.
Qed.

Lemma interrupted_publisher_stays_interrupted_witness :
  publishRollup demo noInterrupts 6 demoRollup 100 (interrupt start) =
  {| outcome := Returned false;
     clock := {| tick := 3; interrupted := true |};
     emitted := [EvPublishTimer;
                 EvCreateRollupTxs (buf 9) [] [buf 101; buf 102] (Ok demoBatch);
                 EvSetCallData 3 (buf 9) (Ok tt);
                 EvGetAccounts (Ok [buf 1])] |} /\
  interrupted (fold_left (perform demo noInterrupts)
                 [CallPublishRollup 5 demoRollup 100; CallPublishRollup 5 demoRollup 100]
                 (interrupt start)) = true.
Proof.
  split; [reflexivity|].
  apply (interrupted_publisher_stays_interrupted demo noInterrupts 5 demoRollup 100 start).
Defined.

(** C10.  In a pass of the main loop (any pass: the status list [sts] and the
    clock [c] at its start are arbitrary) in which the send loop comes to its
    end and leaves a [txHash] on every entry, the next event is
    [confirmSent], called with the rollup id and the [txHash] of the last
    entry of the list.  Over a whole call, pass by pass: [confirmSent] comes
    after the sends of the pass, carries the rollup id and a hash, and no
    receipt is fetched in a pass before it.  Later passes do so again: in
    the example, the rollup proof reverts once and is sent again, and
    [confirmSent] is called twice, with the hash of the first and then of the
    second send. *)
Theorem confirmSent_after_every_complete_send_pass :
  (forall (this : RollupPublisher) (interrupts : nat -> bool) (fuel : nat)
          (rollup : RollupDao) (estimatedGas : Z) (signer : option EthAddress)
          (sts : list TxStatus) (c : Clock) (sts' : list TxStatus),
     interrupted c = false ->
     outcome (sendBatch this interrupts fuel estimatedGas signer sts c) = Returned (Some sts') ->
     sts <> [] ->
     existsb hashUndefined sts' = false ->
     exists init final rest,
       sts' = init ++ [final] /\
       emitted (mainLoop this interrupts (S fuel) rollup estimatedGas signer sts c) =
       emitted (sendBatch this interrupts fuel estimatedGas signer sts c) ++
       EvConfirmSent (id rollup) (txHash final)
         (RollupDb.confirmSent (rollupDb this)
            (tick (clock (sendBatch this interrupts fuel estimatedGas signer sts c)))
            (id rollup) (txHash final)) :: rest) /\
  (forall (this : RollupPublisher) (interrupts : nat -> bool) (fuel : nat)
          (rollup : RollupDao) (estimatedGas : Z) (c : Clock),
     exists confirmed,
       accepts (passStep (id rollup)) false
         (emitted (publishRollup this interrupts fuel rollup estimatedGas c)) = Some confirmed) /\
  filter isConfirmSent
    (emitted (publishRollup retryPublisher noInterrupts 6 demoRollup 100 start)) =
  [EvConfirmSent 3 (Some (buf 9)) (Ok tt); EvConfirmSent 3 (Some (buf 10)) (Ok tt)].
Proof.
  split; [|split; [|reflexivity]].
  - intros. eapply mainLoop_confirmSent; eauto.
  - intros. rewrite publishRollup_emitted.
    destruct (publishRollup_pass this interrupts fuel rollup estimatedGas c) as (s & Ha & _).
    eauto.
Qed.

Lemma confirmSent_after_every_complete_send_pass_witness :
  exists init final rest,
    map txHash (init ++ [final]) = [Some (buf 7); Some (buf 8); Some (buf 9)] /\
    emitted (mainLoop demo noInterrupts 6 demoRollup 100 (Some (buf 1))
               (initialStatuses demoBatch) {| tick := 3; interrupted := false |}) =
    emitted (sendBatch demo noInterrupts 5 100 (Some (buf 1))
               (initialStatuses demoBatch) {| tick := 3; interrupted := false |}) ++
    EvConfirmSent 3 (txHash final) (Ok tt) :: rest.
Proof.
  destruct confirmSent_after_every_complete_send_pass as (H & _).
  destruct (H demo noInterrupts 5 demoRollup 100%Z (Some (buf 1))
              (initialStatuses demoBatch) {| tick := 3; interrupted := false |}
              (map (fun p => setTxHash (fst p) (Some (buf (snd p))))
                   (combine (initialStatuses demoBatch) [7; 8; 9]%N)))
    as (init & final & rest & E1 & E2).
  - reflexivity.
  - reflexivity.
  - discriminate.
  - reflexivity.
  - exists init, final, rest. split; [rewrite <- E1; reflexivity | exact E2].
Defined.

(** ** The theorems at concrete publishers *)

Lemma nonces_contiguous_below_two_to_53_witness :
  forallb nonceInRange
    (emitted (publishRollup retryPublisher noInterrupts 6 demoRollup 100 start)) = true /\
  contiguousNonces None
    (emitted (publishRollup retryPublisher noInterrupts 6 demoRollup 100 start)) /\
  filter isSend
    (emitted (sendLoop demo noInterrupts 6 0 (initialStatuses demoBatch) 7 start)) =
  plannedSends demo 0 (initialStatuses demoBatch) 7.
Proof.
  destruct (nonces_contiguous_below_two_to_53
              retryPublisher noInterrupts 6 demoRollup 100 start) as (H1 & _).
  destruct (nonces_contiguous_below_two_to_53
              demo noInterrupts 6 demoRollup 100 start) as (_ & _ & _ & H3).
  split; [reflexivity|]. split; [apply H1; reflexivity|]. eapply H3; reflexivity.
Defined.

Lemma rollup_proof_sent_last_with_highest_nonce_witness :
  outcome (createTxData retryPublisher noInterrupts demoRollup start) = Returned demoBatch /\
  forall pre mid post i d o j d' o',
    emitted (publishRollup retryPublisher noInterrupts 6 demoRollup 100 start)
      = pre ++ EvSend i d o :: mid ++ EvSend j d' o' :: post ->
    forallb (fun e => negb (isCount e)) mid = true ->
    i < j <= 2 /\ (nonce o < nonce o')%N.
Proof.
  split; [reflexivity|].
  intros pre mid post i d o j d' o' Ht Hm.
  destruct (rollup_proof_sent_last_with_highest_nonce
              retryPublisher noInterrupts 6 demoRollup 100 start demoBatch eq_refl)
    as (_ & _ & _ & _ & _ & H).
  destruct (H pre mid post i d o j d' o' Ht Hm) as [Hij Hn].
  split; [exact Hij | apply Hn; reflexivity].
Defined.

Lemma confirmed_entry_never_resent_witness :
  nth_error (emitted (publishRollup retryPublisher noInterrupts 6 demoRollup 100 start)) 15
    = Some (EvSuccess 0) /\
  forall d o,
    ~ In (EvSend 0 d o)
         (skipn 16 (emitted (publishRollup retryPublisher noInterrupts 6 demoRollup 100 start))).
Proof.
  split; [reflexivity|].
  apply (confirmed_entry_never_resent retryPublisher noInterrupts 6 demoRollup 100 start
           (firstn 15 (emitted (publishRollup retryPublisher noInterrupts 6 demoRollup 100 start)))
           (skipn 16 (emitted (publishRollup retryPublisher noInterrupts 6 demoRollup 100 start)))
           0).
  reflexivity.
Defined.

Lemma published_means_all_confirmed_witness :
  exists sts,
    outcome (publishRollup_statuses retryPublisher noInterrupts 6 demoRollup 100 start)
      = Returned (true, sts) /\
    map tx sts = [buf 101; buf 102; buf 9] /\
    Forall (fun s => success s = true) sts.
Proof.
  destruct (published_means_all_confirmed retryPublisher noInterrupts 6 demoRollup 100 start)
    as (sts & rt & H1 & H2 & H3 & H4).
  - reflexivity.
  - exists sts. split; [exact H1|]. split; [|exact H4].
    rewrite H3. injection H2 as <-. reflexivity.
Defined.

Lemma incorrect_state_hash_aborts_at_once_witness :
  skipn 19 (emitted (publishRollup staleStatePublisher noInterrupts 6 demoRollup 100 start)) = [] /\
  outcome (publishRollup staleStatePublisher noInterrupts 6 demoRollup 100 start) = Returned false.
Proof.
  apply (incorrect_state_hash_aborts_at_once staleStatePublisher noInterrupts 6 demoRollup 100 start
           (firstn 18 (emitted (publishRollup staleStatePublisher noInterrupts 6 demoRollup 100 start)))
           (skipn 19 (emitted (publishRollup staleStatePublisher noInterrupts 6 demoRollup 100 start)))
           (Some (buf 9)) 300%N (revertedReceipt "INCORRECT_STATE_HASH")
           {| name := "INCORRECT_STATE_HASH"; params := [] |});
    reflexivity.
Defined.

Lemma gate_clears_exactly_when_fee_and_balance_allow_witness :
  awaitGasPriceBelowThresholdAndSufficientBalance demo noInterrupts 1 (Some (buf 1)) 100
    {| tick := 3; interrupted := false |} =
  {| outcome := Returned tt;
     clock := {| tick := 5; interrupted := false |};
     emitted := [EvGetBlockByNumber (Ok 48%Z); EvGetBalance (Some (buf 1)) (Ok 5000%Z)] |}.
Proof.
  destruct (gate_clears_exactly_when_fee_and_balance_allow demo noInterrupts 0 (buf 1) 100
              {| tick := 3; interrupted := false |} 48 5000 eq_refl eq_refl eq_refl)
    as (H & _).
  apply H. cbn. lia.
Defined.

(** * Further properties of the class *)

(** X1.  [createTxData], when every proof decodes and the approval lookups
    answer: it looks up the approval of each signed transaction, in order and
    of no other, then calls [createRollupTxs] once, with the rollup's proof,
    the signatures of the signed transactions that are not approved on chain
    (in order), and the off-chain data of all the transactions; it returns
    what [createRollupTxs] answers, or raises what it raises. *)
Theorem createTxData_asks_for_the_needed_signatures
    (this : RollupPublisher) (interrupts : nat -> bool)
    (decode : Buffer -> EthAddress * Buffer) (approved : EthAddress -> Buffer -> bool)
    (rollup : RollupDao) (c : Clock) :
  (forall b, fromBuffer this b = Ok (decode b)) ->
  (forall t a b,
     Blockchain.getUserProofApprovalStatus (blockchain this) t a b = Ok (approved a b)) ->
  let txs := txs (rollupProof rollup) in
  let proof := rollup_proofData (rollupProof rollup) in
  let signatures := neededSignatures decode approved txs in
  let offchain := map offchainTxData txs in
  let t := tick c + List.length (filter isSigned txs) in
  let answer := Blockchain.createRollupTxs (blockchain this) t proof signatures offchain in
  let r := createTxData this interrupts rollup c in
  emitted r = approvalLookups decode approved txs
              ++ [EvCreateRollupTxs proof signatures offchain answer] /\
  outcome r = match answer with Ok rt => Returned rt | Err e => Thrown e end.
Proof.
  intros decodes answers txs0 proof signatures offchain t answer r.
  unfold r, createTxData. rewrite bind_run.
  fold txs0.
  assert (Hs : forallb isSigned (filter isSigned txs0) = true).
  { apply forallb_forall. intros x Hx. apply filter_In in Hx. tauto. }
  destruct (collectSignatures_spec this interrupts decode approved decodes answers
              (filter isSigned txs0) [] c Hs) as (H1 & H2 & H3).
  change (filter (fun t : TxDao => match signature t with Some _ => true | None => false end) txs0)
    with (filter isSigned txs0).
  rewrite H1. cbn [app]. rewrite neededSignatures_filter.
  cbn [await outcome clock emitted]. rewrite H2, H3.
  unfold approvalLookups at 1.
  fold signatures proof offchain t answer.
  replace (filter isSigned (filter isSigned txs0)) with (filter isSigned txs0).
  2:{ clear. induction txs0 as [|x l IH]; [reflexivity|]. cbn.
      destruct (isSigned x) eqn:E; cbn; rewrite ?E; congruence. }
  split; reflexivity.
Qed.

Lemma createTxData_asks_for_the_needed_signatures_witness :
  emitted (createTxData approvingPublisher noInterrupts signedRollup start) =
  [EvGetUserProofApprovalStatus (buf 2) (buf 2) (Ok false);
   EvGetUserProofApprovalStatus (buf 3) (buf 3) (Ok true);
   EvCreateRollupTxs (buf 9) [buf 52] [buf 101; buf 102; buf 103]
     (Ok {| rollupProofTx := buf 9; offchainDataTxs := [buf 101; buf 102; buf 103] |})] /\
  outcome (createTxData approvingPublisher noInterrupts signedRollup start) =
  Returned {| rollupProofTx := buf 9; offchainDataTxs := [buf 101; buf 102; buf 103] |}.
Proof.
  apply (createTxData_asks_for_the_needed_signatures approvingPublisher noInterrupts
           (fun b => (b, b)) approvedOnChain signedRollup start).
  - intros b. reflexivity.
  - intros t a b. reflexivity.
Defined.

(** X2.  A rollup with a signed transaction whose proof data does not decode
    is not published: [publishRollup] raises, whatever the loop budget, and
    before it does it has only started the timer and looked up approvals:
    [createRollupTxs] and [setCallData] are not called and nothing is
    sent. *)
Theorem undecodable_proof_data_ends_the_call
    (this : RollupPublisher) (interrupts : nat -> bool) (fuel : nat)
    (rollup : RollupDao) (estimatedGas : Z) (c : Clock) (t : TxDao) (e : JsError) :
  In t (txs (rollupProof rollup)) ->
  isSigned t = true ->
  fromBuffer this (proofData t) = Err e ->
  let r := publishRollup this interrupts fuel rollup estimatedGas c in
  (exists e', outcome r = Thrown e') /\
  exists lookups,
    emitted r = EvPublishTimer :: lookups /\ forallb isApprovalLookup lookups = true.
Proof.
  intros Hin Hs He r.
  assert (Hjs : In t (filter isSigned (txs (rollupProof rollup)))).
  { apply filter_In. auto. }
  destruct (collectSignatures_undecodable this interrupts _ [] c t e Hjs He) as ((e' & Ho) & Hl).
  assert (Hc : createTxData this interrupts rollup c =
               {| outcome := Thrown e';
                  clock := clock (collectSignatures this interrupts
                                    (filter isSigned (txs (rollupProof rollup))) [] c);
                  emitted := emitted (collectSignatures this interrupts
                                        (filter isSigned (txs (rollupProof rollup))) [] c) |}).
  { unfold createTxData. rewrite bind_run.
    change (filter (fun t : TxDao => match signature t with Some _ => true | None => false end))
      with (filter isSigned).
    rewrite Ho. reflexivity. }
  unfold r, publishRollup, publishRollup_statuses.
  rewrite bind_run, (bind_run _ _ (mark EvPublishTimer)). cbn [mark outcome clock emitted].
  rewrite bind_run, Hc. cbn [outcome clock emitted app].
  split; [exists e'; reflexivity|]. eexists; split; [reflexivity|exact Hl].
Qed.

Lemma undecodable_proof_data_ends_the_call_witness :
  (exists e',
     outcome (publishRollup undecodablePublisher noInterrupts 6 signedRollup 100 start)
     = Thrown e') /\
  exists lookups,
    emitted (publishRollup undecodablePublisher noInterrupts 6 signedRollup 100 start)
    = EvPublishTimer :: lookups /\
    forallb isApprovalLookup lookups = true.
Proof.
  apply (undecodable_proof_data_ends_the_call undecodablePublisher noInterrupts 6
           signedRollup 100 start (signedTx 3) (TypeError "not a join split proof")).
  - simpl. auto.
  - reflexivity.
  - reflexivity.
Defined.

(** X3.  A call of [sendTx] (the method of the class): it calls
    [blockchain.sendTx] with its own payload and options, sleeps 60 s after
    each call that raises an error with a message, and calls again.  It
    returns the hash of the first call that answers; it returns [undefined]
    only with the publisher interrupted, after failed calls only; it raises
    only when a call raised a value without a message, at once. *)
Theorem sendTx_retries_until_sent_or_interrupted
    (this : RollupPublisher) (interrupts : nat -> bool) (fuel : nat)
    (txData : Buffer) (options : SendTxOptions) (c : Clock) :
  let r := sendTx this interrupts fuel txData options c in
  exists errs,
    Forall (fun e => message e <> None) errs /\
    match outcome r with
    | Returned (Some h) =>
        emitted r = failedAttempts txData options errs
                    ++ [EvBlockchainSendTx txData options (Ok h)]
    | Returned None =>
        interrupted (clock r) = true /\ emitted r = failedAttempts txData options errs
    | Thrown _ =>
        exists e, message e = None /\
          emitted r = failedAttempts txData options errs
                      ++ [EvBlockchainSendTx txData options (Err e)]
    | Running => emitted r = failedAttempts txData options errs
    end.
Proof.
  revert c. induction fuel as [|fuel IH]; intros c r.
  - exists []. split; [constructor|reflexivity].
  - unfold r. cbn [sendTx]. rewrite bind_run. cbn -[bind try_catch sendTx].
    destruct (interrupted c) eqn:Hc.
    { exists []. split; [constructor|]. cbn. auto. }
    unfold try_catch. rewrite bind_run. cbn -[bind sendTx].
    destruct (Blockchain.sendTx (blockchain this) (tick c) txData options) as [h|e] eqn:E;
      cbn -[bind sendTx].
    { exists []. split; [constructor|reflexivity]. }
    destruct (message e) eqn:Hm.
    + rewrite bind_run. cbn -[bind sendTx].
      match goal with |- context [sendTx this interrupts fuel txData options ?c2] =>
        destruct (IH c2) as (errs & Hf & H) end.
      exists (e :: errs). split; [constructor; [congruence|exact Hf]|].
      destruct (outcome (sendTx _ _ _ _ _ _)) as [[h|]|e'|]; cbn -[failedAttempts].
      * rewrite H. reflexivity.
      * destruct H as [H1 H2]. split; [exact H1|]. rewrite H2. reflexivity.
      * destruct H as (e0 & H1 & H2). exists e0. split; [exact H1|]. rewrite H2. reflexivity.
      * rewrite H. reflexivity.
    + exists []. split; [constructor|]. cbn. exists e. auto.
Qed.

(** X4.  A call of [getTransactionReceipt]: it calls
    [getTransactionReceiptSafe] for its hash with a timeout of 300, sleeps
    60 s after each call that raises, and calls again.  It raises nothing.
    It returns the first answer; it gives no receipt when that answer is
    none, or with the publisher interrupted, after failed calls only. *)
Theorem getTransactionReceipt_retries_until_answered_or_interrupted
    (this : RollupPublisher) (interrupts : nat -> bool) (fuel : nat)
    (txHash : option TxHash) (c : Clock) :
  let r := getTransactionReceipt this interrupts fuel txHash c in
  exists errs,
    match outcome r with
    | Returned (Some receipt) =>
        emitted r = failedFetches txHash errs
                    ++ [EvGetTransactionReceiptSafe txHash 300 (Ok (Some receipt))]
    | Returned None =>
        (interrupted (clock r) = true /\ emitted r = failedFetches txHash errs) \/
        emitted r = failedFetches txHash errs ++ [EvGetTransactionReceiptSafe txHash 300 (Ok None)]
    | Thrown _ => False
    | Running => emitted r = failedFetches txHash errs
    end.
Proof.
  revert c. induction fuel as [|fuel IH]; intros c r.
  - exists []. reflexivity.
  - unfold r. cbn [getTransactionReceipt]. rewrite bind_run.
    cbn -[bind try_catch getTransactionReceipt].
    destruct (interrupted c) eqn:Hc.
    { exists []. cbn. auto. }
    unfold try_catch. cbn -[bind getTransactionReceipt].
    destruct (Blockchain.getTransactionReceiptSafe (blockchain this) (tick c) txHash 300)
      as [[receipt|]|e] eqn:E; cbn -[bind getTransactionReceipt]; rewrite ?E;
      cbn -[bind getTransactionReceipt].
    { exists []. reflexivity. }
    { exists []. right. reflexivity. }
    rewrite bind_run. cbn -[bind getTransactionReceipt].
    match goal with |- context [getTransactionReceipt this interrupts fuel txHash ?c2] =>
      destruct (IH c2) as (errs & H) end.
    exists (e :: errs).
    destruct (outcome (getTransactionReceipt _ _ _ _ _)) as [[receipt|]|e'|];
      cbn -[failedFetches].
    + rewrite H. reflexivity.
    + destruct H as [[H1 H2]|H]; [left|right].
      * split; [exact H1|]. rewrite H2. reflexivity.
      * rewrite H. reflexivity.
    + exact H.
    + rewrite H. reflexivity.
Qed.

(** X5.  Once [interrupt()] has been called, [publishRollup] starts no new
    work: it makes no fee poll ([getBlockByNumber]), reads no nonce, calls
    [sendTx] for no entry, makes no call of [blockchain.sendTx] and fetches
    no receipt.  The flag is read off the trace: [advance] counts the awaits
    and sets the flag at the await during which [interrupt()] is called, and
    over the whole trace it gives the clock the call ends with. *)
Theorem interrupt_stops_new_work
    (this : RollupPublisher) (interrupts : nat -> bool) (fuel : nat)
    (rollup : RollupDao) (estimatedGas : Z) (c : Clock) :
  let r := publishRollup this interrupts fuel rollup estimatedGas c in
  clock r = fold_left (advance interrupts) (emitted r) c /\
  forall pre e post,
    emitted r = pre ++ e :: post ->
    interrupted (fold_left (advance interrupts) pre c) = true ->
    startsWork e = false.
Proof.
  intros r.
  destruct (publishRollup_halt this interrupts fuel rollup estimatedGas c) as (c' & Ha & Hc).
  unfold mirrors in Hc. subst c'. fold r in Ha. split.
  - apply accepts_halt_clock, Ha.
  - intros pre e post E Hi. rewrite E in Ha. eapply accepts_halt_split; eauto.
Qed.

Lemma interrupt_stops_new_work_witness :
  interrupted
    (fold_left (advance (interruptAt 3))
       (firstn 5 (emitted (publishRollup congestedPublisher (interruptAt 3) 6 demoRollup 100 start)))
       start) = true /\
  nth_error (emitted (publishRollup congestedPublisher (interruptAt 3) 6 demoRollup 100 start)) 5
    = Some (EvGetBalance (Some (buf 1)) (Ok 5000%Z)) /\
  startsWork (EvGetBalance (Some (buf 1)) (Ok 5000%Z)) = false.
Proof.
  split; [reflexivity|]. split; [reflexivity|].
  destruct (interrupt_stops_new_work congestedPublisher (interruptAt 3) 6 demoRollup 100 start)
    as [_ H].
  apply (H (firstn 5 (emitted (publishRollup congestedPublisher (interruptAt 3) 6
                                 demoRollup 100 start)))
           _
           (skipn 6 (emitted (publishRollup congestedPublisher (interruptAt 3) 6
                                demoRollup 100 start)))).
  - reflexivity.
  - reflexivity.
Defined.

(** X6.  The publish timer: [publishRollup] starts it before anything else
    and does not start it again.  When the call returns [true], stopping the
    timer is the last thing it did, and it did so once; when the call ends in
    another way (with [false], with an error, or not yet), the timer has not
    been stopped. *)
Theorem publish_timer_stopped_exactly_on_success
    (this : RollupPublisher) (interrupts : nat -> bool) (fuel : nat)
    (rollup : RollupDao) (estimatedGas : Z) (c : Clock) :
  let r := publishRollup this interrupts fuel rollup estimatedGas c in
  exists rest,
    emitted r = EvPublishTimer :: rest /\
    ~ In EvPublishTimer rest /\
    match outcome r with
    | Returned true => exists pre, rest = pre ++ [EvEndTimer] /\ ~ In EvEndTimer pre
    | _ => ~ In EvEndTimer rest
    end.
Proof.
  intros r.
  destruct (publishRollup_timer this interrupts fuel rollup estimatedGas c) as (s' & Ha & Hs).
  fold r in Ha, Hs.
  destruct (emitted r) as [|e rest]; cbn [accepts] in Ha.
  { injection Ha as <-. destruct (outcome r) as [[|]| |]; discriminate. }
  destruct e; try discriminate. cbn [timerStep] in Ha.
  exists rest. split; [reflexivity|].
  apply accepts_timing in Ha as (Hp & H). split; [exact Hp|].
  destruct (outcome r) as [[|]| |]; subst s';
    destruct H as [(E & H)|(E & H)]; try discriminate; exact H.
Qed.

(** X7.  Fee polls over a whole call.  The nonce is read only right after a
    poll that clears the gate: the two events before [getTransactionCount]
    are [getBlockByNumber] and [getBalance] of the same address, with
    answers for which [latestBaseFee + maxPriorityFeePerGas <= maxFeePerGas]
    and [signerBalance >= maxFeePerGas * estimatedGas].  And what follows a
    poll, if anything: the nonce read when the poll clears, a sleep of 60 s
    when it does not. *)
Theorem nonce_read_only_after_a_poll_that_clears
    (this : RollupPublisher) (interrupts : nat -> bool) (fuel : nat)
    (rollup : RollupDao) (estimatedGas : Z) (c : Clock) :
  let t := emitted (publishRollup this interrupts fuel rollup estimatedGas c) in
  (forall pre a n post,
     t = pre ++ EvGetTransactionCount a n :: post ->
     exists pre' latestBaseFee signerBalance,
       pre = pre' ++ [EvGetBlockByNumber (Ok latestBaseFee); EvGetBalance a (Ok signerBalance)] /\
       (latestBaseFee + this_maxPriorityFeePerGas this <= this_maxFeePerGas this)%Z /\
       (signerBalance >= this_maxFeePerGas this * estimatedGas)%Z) /\
  (forall pre latestBaseFee a signerBalance e post,
     t = pre ++ EvGetBlockByNumber (Ok latestBaseFee)
             :: EvGetBalance a (Ok signerBalance) :: e :: post ->
     if clearsGate this estimatedGas latestBaseFee signerBalance
     then exists n, e = EvGetTransactionCount a n
     else e = EvSleep 60000).
Proof.
  intros t.
  destruct (publishRollup_polls this interrupts estimatedGas fuel rollup c) as (s & Ha & _).
  fold t in Ha. split.
  - intros pre a n post E. rewrite E in Ha.
    apply accepts_count in Ha as (pre' & fee & balance & -> & Hc).
    apply clearsGate_spec in Hc. eauto.
  - intros pre fee a balance e post E. rewrite E in Ha.
    eapply accepts_poll; eauto.
Qed.

Lemma nonce_read_only_after_a_poll_that_clears_witness :
  nth_error (emitted (publishRollup demo noInterrupts 6 demoRollup 100 start)) 6
    = Some (EvGetTransactionCount (Some (buf 1)) (Ok 7%N)) /\
  exists pre' latestBaseFee signerBalance,
    firstn 6 (emitted (publishRollup demo noInterrupts 6 demoRollup 100 start))
    = pre' ++ [EvGetBlockByNumber (Ok latestBaseFee);
               EvGetBalance (Some (buf 1)) (Ok signerBalance)] /\
    (latestBaseFee + this_maxPriorityFeePerGas demo <= this_maxFeePerGas demo)%Z /\
    (signerBalance >= this_maxFeePerGas demo * 100)%Z.
Proof.
  split; [reflexivity|].
  destruct (nonce_read_only_after_a_poll_that_clears demo noInterrupts 6 demoRollup 100 start)
    as [H _].
  apply (H (firstn 6 (emitted (publishRollup demo noInterrupts 6 demoRollup 100 start)))
           (Some (buf 1)) (Ok 7%N)
           (skipn 7 (emitted (publishRollup demo noInterrupts 6 demoRollup 100 start)))).
  reflexivity.
Defined.

(** X8.  When [getAccounts] answers with an empty list, the signer address
    is [undefined]: [publishRollup] reads no nonce, sends nothing and does
    not call [confirmSent].  It ends with an error (a collaborator's, or the
    [TypeError] of line 41 at the first fee poll), or, when the publisher is
    interrupted, with [false]; it does not return [true] and it is not left
    retrying. *)
Theorem empty_account_list_sends_nothing
    (this : RollupPublisher) (interrupts : nat -> bool) (fuel : nat)
    (rollup : RollupDao) (estimatedGas : Z) (c : Clock) :
  (forall t, EthereumRpc.getAccounts (ethereumRpc this) t = Ok []) ->
  let r := publishRollup this interrupts (S (S fuel)) rollup estimatedGas c in
  (forall e, In e (emitted r) ->
     isCount e = false /\ isSend e = false /\ isAttempt e = false /\ isConfirmSent e = false) /\
  ((exists e, outcome r = Thrown e) \/
   (outcome r = Returned false /\ interrupted (clock r) = true)).
Proof.
  intros Hacc r.
  destruct (publishRollup_no_signer this interrupts fuel rollup estimatedGas c Hacc)
    as (He & Hr & Ht & Hf).
  fold r in He, Hr, Ht, Hf. split.
  - intros e Hin. rewrite forallb_forall in He. apply He in Hin.
    destruct e; try discriminate; auto.
  - destruct (outcome r) as [[|]|e|]; [congruence|right; auto|left; eauto|congruence].
Qed.

Lemma empty_account_list_sends_nothing_witness :
  (forall e,
     In e (emitted (publishRollup emptyWalletPublisher noInterrupts 2 demoRollup 100 start)) ->
     isCount e = false /\ isSend e = false /\ isAttempt e = false /\ isConfirmSent e = false) /\
  ((exists e,
      outcome (publishRollup emptyWalletPublisher noInterrupts 2 demoRollup 100 start)
      = Thrown e) \/
   (outcome (publishRollup emptyWalletPublisher noInterrupts 2 demoRollup 100 start)
    = Returned false /\
    interrupted (clock (publishRollup emptyWalletPublisher noInterrupts 2 demoRollup 100 start))
    = true)).
Proof.
  apply (empty_account_list_sends_nothing emptyWalletPublisher noInterrupts 0 demoRollup 100 start).
  intros t. reflexivity.
Defined.

(** X9.  A call that goes through.  When every collaborator answers, the
    fee and the balance clear the gate, every transaction is mined with its
    status set, and nobody interrupts, [publishRollup] returns [true] (it is
    not left retrying: two rounds of loop budget are enough), in one pass of
    the main loop (the nonce is read once) and without a sleep. *)
Theorem healthy_call_publishes_in_one_pass
    (this : RollupPublisher) (interrupts : nat -> bool) (fuel : nat)
    (rollup : RollupDao) (estimatedGas : Z) (c : Clock) :
  Healthy this estimatedGas ->
  (forall t, interrupts t = false) ->
  interrupted c = false ->
  let r := publishRollup this interrupts (S (S fuel)) rollup estimatedGas c in
  outcome r = Returned true /\
  interrupted (clock r) = false /\
  (forall e, In e (emitted r) -> isSleep e = false) /\
  List.length (filter isCount (emitted r)) = 1.
Proof.
  intros Hh Hq Hc r.
  destruct (publishRollup_healthy this interrupts estimatedGas Hh Hq fuel rollup c Hc)
    as (k & Ha & Ho & Hi & ->).
  fold r in Ha, Ho, Hi. apply accepts_steady in Ha as (Hs & Hk).
  split; [exact Ho|]. split; [exact Hi|]. split.
  - intros e Hin. rewrite forallb_forall in Hs. apply Hs in Hin.
    apply negb_true_iff in Hin. exact Hin.
  - cbn in Hk. symmetry. exact Hk.
Qed.

Lemma healthy_call_publishes_in_one_pass_witness :
  outcome (publishRollup demo noInterrupts 2 demoRollup 100 start) = Returned true /\
  interrupted (clock (publishRollup demo noInterrupts 2 demoRollup 100 start)) = false /\
  (forall e, In e (emitted (publishRollup demo noInterrupts 2 demoRollup 100 start)) ->
             isSleep e = false) /\
  List.length (filter isCount (emitted (publishRollup demo noInterrupts 2 demoRollup 100 start)))
  = 1.
Proof.
  apply (healthy_call_publishes_in_one_pass demo noInterrupts 0 demoRollup 100 start).
  - constructor; intros; try reflexivity; repeat eexists; try reflexivity; cbn; lia.
  - intros t. reflexivity.
  - reflexivity.
Defined.



(** X11.  The entries of the status list are marked successful (line 131)
    in the order of the list, each once and without a gap: the marks of a
    call are those of the entries [0], [1], ..., [k - 1], in this order.  So
    the rollup proof, the last entry, is marked only after every broadcast
    is; and when the call returns [true] there are as many marks as
    entries. *)
Theorem entries_confirmed_in_list_order
    (this : RollupPublisher) (interrupts : nat -> bool) (fuel : nat)
    (rollup : RollupDao) (estimatedGas : Z) (c : Clock) :
  exists k,
    filter isSuccess (emitted (publishRollup this interrupts fuel rollup estimatedGas c))
    = map EvSuccess (seq 0 k) /\
    forall sts,
      outcome (publishRollup_statuses this interrupts fuel rollup estimatedGas c)
      = Returned (true, sts) ->
      k = List.length sts.
Proof.
  destruct (publishRollup_statuses_order this interrupts fuel rollup estimatedGas c)
    as (k & Ha & Hk).
  exists k. rewrite publishRollup_emitted. apply accepts_order in Ha as [_ ->].
  rewrite Nat.sub_0_r. auto.
Qed.

(** X12.  Where hashes come from.  The hash that [publishRollup] passes to
    [confirmSent], and the hash of every receipt it fetches, is defined and
    is one that [blockchain.sendTx] answered earlier in the same call. *)
Theorem hashes_are_answers_of_sendTx
    (this : RollupPublisher) (interrupts : nat -> bool) (fuel : nat)
    (rollup : RollupDao) (estimatedGas : Z) (c : Clock)
    (pre : list Event) (e : Event) (post : list Event) (h : option TxHash) :
  emitted (publishRollup this interrupts fuel rollup estimatedGas c) = pre ++ e :: post ->
  usesHash e = Some h ->
  exists h0, h = Some h0 /\ exists data o, In (EvBlockchainSendTx data o (Ok h0)) pre.
Proof.
  intros E Hu.
  destruct (publishRollup_hashes this interrupts fuel rollup estimatedGas c) as (seen & Ha & _).
  rewrite E in Ha. eapply accepts_uses_hash; eauto.
Qed.

Lemma hashes_are_answers_of_sendTx_witness :
  nth_error (emitted (publishRollup demo noInterrupts 6 demoRollup 100 start)) 13
    = Some (EvConfirmSent 3 (Some (buf 9)) (Ok tt)) /\
  exists h0, Some (buf 9) = Some h0 /\
    exists data o,
      In (EvBlockchainSendTx data o (Ok h0))
         (firstn 13 (emitted (publishRollup demo noInterrupts 6 demoRollup 100 start))).
Proof.
  split; [reflexivity|].
  apply (hashes_are_answers_of_sendTx demo noInterrupts 6 demoRollup 100 start
           (firstn 13 (emitted (publishRollup demo noInterrupts 6 demoRollup 100 start)))
           (EvConfirmSent 3 (Some (buf 9)) (Ok tt))
           (skipn 14 (emitted (publishRollup demo noInterrupts 6 demoRollup 100 start)))).
  - reflexivity.
  - reflexivity.
Defined.

(** X13.  What [publishRollup] raises.  An error that the call ends with is
    the rejection of the last call it made, and that call is one of those
    made outside a [try] ([createTxData]'s lookups and [createRollupTxs],
    [setCallData], [getAccounts], [getBlockByNumber], [getBalance],
    [getTransactionCount], [confirmSent]); or the last call it made is a
    [blockchain.sendTx] that was rejected with a value whose
    [.message.slice(0, 500)] cannot be evaluated, and the error is the
    [TypeError] of evaluating it (line 191); or it is raised inside the
    class: by [JoinSplitProofData.fromBuffer], by [BigInt(estimatedGas)]
    (line 37, when [estimatedGas] is not an integer), or as a [TypeError]
    of [undefined] (lines 41 and 118).  What [getTransactionReceiptSafe]
    raises is never passed on, nor is an error with a message that
    [blockchain.sendTx] raises. *)
Theorem what_publishRollup_raises
    (this : RollupPublisher) (interrupts : nat -> bool) (fuel : nat)
    (rollup : RollupDao) (estimatedGas : JsNumber) (c : Clock) (err : JsError) :
  outcome (publishRollup this interrupts fuel rollup estimatedGas c) = Thrown err ->
  raisedInside this estimatedGas err \/
  exists pre e,
    emitted (publishRollup this interrupts fuel rollup estimatedGas c) = pre ++ [e] /\
    (uncaught e = Some err \/ unreadable e = Some err).
Proof.
  intros Ho.
  destruct (publishRollup_raises this interrupts estimatedGas fuel rollup c) as (s & Ha & Hr).
  destruct (Hr err Ho) as [H|(e & -> & He)]; [left; exact H|]. right.
  apply accepts_last_event in Ha as [[_ [=]]|(pre & e' & E & [= <-])]. eauto.
Qed.

Lemma what_publishRollup_raises_witness :
  raisedInside noAccountsPublisher 100 networkError \/
  exists pre e,
    emitted (publishRollup noAccountsPublisher noInterrupts 6 demoRollup 100 start)
    = pre ++ [e] /\
    (uncaught e = Some networkError \/ unreadable e = Some networkError).
Proof.
  apply (what_publishRollup_raises noAccountsPublisher noInterrupts 6 demoRollup 100 start).
  reflexivity.
Defined.

(** X14.  The values that the calls of a [publishRollup] call carry: every
    send (the call of [sendTx] at line 107 and every call of
    [blockchain.sendTx]) has the publisher's gas limit, maximal fee and
    maximal priority fee; every sleep is of 60 s; every receipt is waited
    for with a timeout of 300; [setCallData] and [confirmSent] are called
    for the rollup that is published. *)
Theorem calls_carry_the_configured_values
    (this : RollupPublisher) (interrupts : nat -> bool) (fuel : nat)
    (rollup : RollupDao) (estimatedGas : Z) (c : Clock) (e : Event) :
  In e (emitted (publishRollup this interrupts fuel rollup estimatedGas c)) ->
  match e with
  | EvSend _ _ o | EvBlockchainSendTx _ o _ =>
      gasLimit o = this_gasLimit this /\
      maxFeePerGas o = this_maxFeePerGas this /\
      maxPriorityFeePerGas o = this_maxPriorityFeePerGas this
  | EvSleep ms => ms = 60000%N
  | EvGetTransactionReceiptSafe _ timeout _ => timeout = 300%N
  | EvSetCallData i _ _ | EvConfirmSent i _ _ => i = id rollup
  | _ => True
  end.
Proof.
  intros Hin.
  pose proof (publishRollup_configured this interrupts rollup fuel estimatedGas c) as H.
  rewrite forallb_forall in H. apply H in Hin.
  assert (Ho : forall o, configuredOptions this o = true ->
             gasLimit o = this_gasLimit this /\
             maxFeePerGas o = this_maxFeePerGas this /\
             maxPriorityFeePerGas o = this_maxPriorityFeePerGas this).
  { intros o Ho. unfold configuredOptions in Ho.
    apply andb_true_iff in Ho as [Ho H3]. apply andb_true_iff in Ho as [H1 H2].
    apply N.eqb_eq in H1. apply Z.eqb_eq in H2, H3. auto. }
  destruct e; cbn [configured] in Hin; auto; apply N.eqb_eq; exact Hin.
Qed.

Lemma calls_carry_the_configured_values_witness :
  gasLimit (sendOptions demo 7) = 1000%N /\
  maxFeePerGas (sendOptions demo 7) = 50%Z /\
  maxPriorityFeePerGas (sendOptions demo 7) = 2%Z.
Proof.
  apply (calls_carry_the_configured_values demo noInterrupts 6 demoRollup 100 start
           (EvBlockchainSendTx (buf 101) (sendOptions demo 7) (Ok (buf 7)))).
  apply (nth_error_In _ 8). reflexivity.
Defined.

(** X15.  The call data of the rollup.  When [publishRollup] calls
    [setCallData], it does so for the rollup that is published and with the
    rollup proof transaction of the batch that [createRollupTxs] has just
    answered; it does not call it again in the same call; and when
    [setCallData] is rejected, the call makes no further call. *)
Theorem call_data_stored_once_for_the_created_batch
    (this : RollupPublisher) (interrupts : nat -> bool) (fuel : nat)
    (rollup : RollupDao) (estimatedGas : Z) (c : Clock)
    (pre : list Event) (i : N) (data : Buffer) (r : Res unit) (post : list Event) :
  emitted (publishRollup this interrupts fuel rollup estimatedGas c)
    = pre ++ EvSetCallData i data r :: post ->
  i = id rollup /\
  (exists pre' proof signatures offchain rollupTxs,
     pre = pre' ++ [EvCreateRollupTxs proof signatures offchain (Ok rollupTxs)] /\
     data = rollupProofTx rollupTxs) /\
  (forall e, In e post -> isSetCallData e = false) /\
  (forall err, r = Err err -> post = []).
Proof.
  intros E.
  destruct (publishRollup_stage this interrupts fuel rollup estimatedGas c) as (s & Ha & _).
  rewrite E in Ha. apply stage_setCallData in Ha as (H1 & H2 & H3 & H4).
  split; [exact H1|]. split; [exact H2|]. split; [|exact H4].
  intros e Hin. rewrite forallb_forall in H3. apply H3 in Hin.
  apply negb_true_iff in Hin. exact Hin.
Qed.

Lemma call_data_stored_once_for_the_created_batch_witness :
  nth_error (emitted (publishRollup demo noInterrupts 6 demoRollup 100 start)) 2
    = Some (EvSetCallData 3 (buf 9) (Ok tt)) /\
  3%N = id demoRollup /\
  (exists pre' proof signatures offchain rollupTxs,
     firstn 2 (emitted (publishRollup demo noInterrupts 6 demoRollup 100 start))
     = pre' ++ [EvCreateRollupTxs proof signatures offchain (Ok rollupTxs)] /\
     buf 9 = rollupProofTx rollupTxs) /\
  (forall e,
     In e (skipn 3 (emitted (publishRollup demo noInterrupts 6 demoRollup 100 start))) ->
     isSetCallData e = false) /\
  (forall err, Ok tt = Err err ->
     skipn 3 (emitted (publishRollup demo noInterrupts 6 demoRollup 100 start)) = []).
Proof.
  split; [reflexivity|].
  apply (call_data_stored_once_for_the_created_batch demo noInterrupts 6 demoRollup 100 start
           (firstn 2 (emitted (publishRollup demo noInterrupts 6 demoRollup 100 start)))
           3%N (buf 9) (Ok tt)
           (skipn 3 (emitted (publishRollup demo noInterrupts 6 demoRollup 100 start)))).
  reflexivity.
Defined.

(** X16.  Why [publishRollup] returns [false].  When the call returns
    [false], the publisher is interrupted, or the last thing the call did
    was to fetch a receipt that was not there within the timeout or that
    carries the revert error [INCORRECT_STATE_HASH].  A transaction that
    fails for another reason does not end the call. *)
Theorem false_means_interrupted_or_fatal_receipt
    (this : RollupPublisher) (interrupts : nat -> bool) (fuel : nat)
    (rollup : RollupDao) (estimatedGas : Z) (c : Clock) :
  outcome (publishRollup this interrupts fuel rollup estimatedGas c) = Returned false ->
  interrupted (clock (publishRollup this interrupts fuel rollup estimatedGas c)) = true \/
  exists pre e,
    emitted (publishRollup this interrupts fuel rollup estimatedGas c) = pre ++ [e] /\
    fatalReceipt e = true.
Proof.
  intros Ho.
  destruct (publishRollup_gives_up this interrupts fuel rollup estimatedGas c) as (s & Ha & Hg).
  destruct (Hg Ho) as [H|(e & -> & He)]; [left; exact H|]. right.
  apply accepts_last_event in Ha as [[_ [=]]|(pre & e' & E & [= <-])]. eauto.
Qed.

Lemma false_means_interrupted_or_fatal_receipt_witness :
  interrupted (clock (publishRollup timeoutPublisher noInterrupts 6 demoRollup 100 start)) = true \/
  exists pre e,
    emitted (publishRollup timeoutPublisher noInterrupts 6 demoRollup 100 start) = pre ++ [e] /\
    fatalReceipt e = true.
Proof.
  apply (false_means_interrupted_or_fatal_receipt timeoutPublisher noInterrupts 6
           demoRollup 100 start).
  reflexivity.
Defined.

(** X17.  A transaction that failed is tried again.  After a receipt whose
    status is not set and which does not carry the revert error
    [INCORRECT_STATE_HASH], the publisher sleeps 60 s; what it does next, if
    anything (it does nothing more when it is interrupted), is to poll the
    fee: another pass of the main loop starts. *)
Theorem failed_transaction_is_retried_after_a_minute
    (this : RollupPublisher) (interrupts : nat -> bool) (fuel : nat)
    (rollup : RollupDao) (estimatedGas : Z) (c : Clock)
    (pre : list Event) (h : option TxHash) (timeout : N) (receipt : Receipt)
    (post : list Event) :
  emitted (publishRollup this interrupts fuel rollup estimatedGas c)
    = pre ++ EvGetTransactionReceiptSafe h timeout (Ok (Some receipt)) :: post ->
  status receipt = false ->
  stateHashChanged receipt = false ->
  exists post',
    post = EvSleep 60000 :: post' /\
    (post' = [] \/ exists fee post'', post' = EvGetBlockByNumber fee :: post'').
Proof.
  intros E Hs Hh.
  destruct (publishRollup_retry this interrupts fuel rollup estimatedGas c) as (s & Ha & Hn).
  rewrite E in Ha. eapply accepts_retry; eauto.
Qed.

Lemma failed_transaction_is_retried_after_a_minute_witness :
  nth_error (emitted (publishRollup retryPublisher noInterrupts 6 demoRollup 100 start)) 18
    = Some (EvGetTransactionReceiptSafe (Some (buf 9)) 300
              (Ok (Some (revertedReceipt "OTHER_ERROR")))) /\
  exists post',
    skipn 19 (emitted (publishRollup retryPublisher noInterrupts 6 demoRollup 100 start))
    = EvSleep 60000 :: post' /\
    (post' = [] \/ exists fee post'', post' = EvGetBlockByNumber fee :: post'').
Proof.
  split; [reflexivity|].
  apply (failed_transaction_is_retried_after_a_minute retryPublisher noInterrupts 6
           demoRollup 100 start
           (firstn 18 (emitted (publishRollup retryPublisher noInterrupts 6 demoRollup 100 start)))
           (Some (buf 9)) 300%N (revertedReceipt "OTHER_ERROR")).
  - reflexivity.
  - reflexivity.
  - reflexivity.
Defined.
